(** * ros3djs streaming clients: MarkerArrayClient, OccupancyGridClient, OcTreeClient

    A shallow embedding of the three clients' reconciliation code.  The
    JavaScript heap is an explicit store of scene objects, the clients are
    records of their fields, and every method is a computation in a small
    state-and-exception monad (a JavaScript [throw] keeps the mutations done
    before it). *)

From Stdlib Require Import Floats DecimalString Ascii String.
From stdpp Require Import list strings.

Set Default Proof Using "Type".

(** ** JavaScript values *)

Module Js.

(** The values the clients read from option objects and messages.
    [VRecord] is a plain data object (a colour, a pose); [VHandle] is a
    reference to an object the clients never look inside (the ROS
    connection, the TF client, a THREE.Color palette). *)
#[warnings="-register-all"]
Inductive Val : Type :=
| VUndefined
| VNull
| VBool (b : bool)
| VNum (x : float)
| VStr (s : string)
| VRecord (fields : list (string * Val))
| VHandle (h : nat).

(** ToBoolean: [undefined], [null], [false], [+0], [-0], [NaN] and the
    empty string are falsy, everything else is truthy. *)
Definition truthy (v : Val) : bool :=
  match v with
  | VUndefined | VNull => false
  | VBool b => b
  | VNum x => negb (PrimFloat.eqb x 0%float || PrimFloat.is_nan x)
  | VStr s => negb (String.eqb s "")
  | VRecord _ | VHandle _ => true
  end.

(** [a || b] *)
Definition or (a b : Val) : Val := if truthy a then a else b.

(** [typeof v !== 'undefined'] *)
Definition defined (v : Val) : bool :=
  match v with VUndefined => false | _ => true end.

(** Number-to-string of an integral number, as used by [ns + id]. *)
Definition string_of_Z (z : Z) : string := NilZero.string_of_int (Z.to_int z).

(** *** Objects used as string-keyed maps

    Own properties in insertion order.  Assigning to an existing key keeps
    its position; [delete] drops the entry. *)
Definition Object (V : Type) : Type := list (string * V).

Fixpoint get {V} (k : string) (o : Object V) : option V :=
  match o with
  | [] => None
  | (k', v) :: o' => if String.eqb k k' then Some v else get k o'
  end.

Definition has {V} (k : string) (o : Object V) : bool :=
  match get k o with Some _ => true | None => false end.

Fixpoint set {V} (k : string) (v : V) (o : Object V) : Object V :=
  match o with
  | [] => [(k, v)]
  | (k', v') :: o' =>
      if String.eqb k k' then (k', v) :: o' else (k', v') :: set k v o'
  end.

Fixpoint delete {V} (k : string) (o : Object V) : Object V :=
  match o with
  | [] => []
  | (k', v') :: o' =>
      if String.eqb k k' then delete k o' else (k', v') :: delete k o'
  end.

(** [Object.assign(target, source)] *)
Definition assign {V} (target source : Object V) : Object V :=
  foldl (fun t kv => set kv.1 kv.2 t) target source.

(** Property names every object literal inherits from [Object.prototype];
    the [in] operator sees them. *)
Definition prototype_keys : list string :=
  [ "constructor"; "__proto__"; "hasOwnProperty"; "isPrototypeOf";
    "propertyIsEnumerable"; "toLocaleString"; "toString"; "valueOf";
    "__defineGetter__"; "__defineSetter__"; "__lookupGetter__";
    "__lookupSetter__" ].

(** [k in o] for an object literal [o]. *)
Definition in_ {V} (k : string) (o : Object V) : bool :=
  has k o || bool_decide (k ∈ prototype_keys).

(** *** Enumeration order of [for (k in o)]

    Array-index keys (canonical decimal numerals below 2^32 - 1) come
    first in ascending numeric order, then the other keys in insertion
    order. *)
Definition digit_of (a : ascii) : option N :=
  let n := N_of_ascii a in
  if ((48 <=? n) && (n <=? 57))%N then Some (n - 48)%N else None.

Fixpoint digits_value (acc : N) (s : string) : option N :=
  match s with
  | EmptyString => Some acc
  | String a s' =>
      match digit_of a with
      | Some d => digits_value (10 * acc + d)%N s'
      | None => None
      end
  end.

Definition array_index (k : string) : option N :=
  match k with
  | EmptyString => None
  | String a rest =>
      if (Ascii.eqb a "0" && negb (String.eqb rest ""))%bool then None
      else match digits_value 0 k with
           | Some n => if (n <? 4294967295)%N then Some n else None
           | None => None
           end
  end.

(** Whether the last character of [s] is a decimal digit. *)
Fixpoint ends_in_digit (s : string) : bool :=
  match s with
  | EmptyString => false
  | String a EmptyString => bool_decide (is_Some (digit_of a))
  | String _ s' => ends_in_digit s'
  end.

Fixpoint insert_sorted (n : N) (k : string) (l : list (N * string))
  : list (N * string) :=
  match l with
  | [] => [(n, k)]
  | (m, k') :: l' =>
      if (n <=? m)%N then (n, k) :: l else (m, k') :: insert_sorted n k l'
  end.

Definition for_in_keys {V} (o : Object V) : list string :=
  let idx := foldr (fun kv acc =>
               match array_index kv.1 with
               | Some n => insert_sorted n kv.1 acc
               | None => acc
               end) [] o in
  let named := filter (fun k => array_index k = None) (map fst o) in
  map snd idx ++ named.

End Js.

Import Js.

(** ** State and exceptions *)

Inductive Res (S A : Type) : Type :=
| Ok (a : A) (s : S)
| Throw (e : string) (s : S).
Arguments Ok {S A} a s.
Arguments Throw {S A} e s.

Definition M (S A : Type) : Type := S -> Res S A.

Definition ret {S A} (a : A) : M S A := fun s => Ok a s.

Definition bind {S A B} (c : M S A) (k : A -> M S B) : M S B :=
  fun s => match c s with
           | Ok a s' => k a s'
           | Throw e s' => Throw e s'
           end.

Definition throw {S A} (e : string) : M S A := fun s => Throw e s.
Definition gets {S A} (f : S -> A) : M S A := fun s => Ok (f s) s.
Definition modify {S} (f : S -> S) : M S unit := fun s => Ok tt (f s).

Declare Scope js_scope.
Delimit Scope js_scope with js.
Notation "x <- c1 ;; c2" := (bind c1 (fun x => c2))
  (at level 100, c1 at next level, right associativity) : js_scope.
Notation "c1 ;; c2" := (bind c1 (fun _ => c2))
  (at level 100, right associativity) : js_scope.
Open Scope js_scope.

(** [if (b) { c }] *)
Definition when {S} (b : bool) (c : M S unit) : M S unit :=
  if b then c else ret tt.

(** [l.forEach(f)]: an exception in [f] ends the loop. *)
Fixpoint forEach {S A} (l : list A) (f : A -> M S unit) : M S unit :=
  match l with
  | [] => ret tt
  | a :: l' => f a ;; forEach l' f
  end.

(** The state a computation ends in, whether it returned or threw. *)
Definition final {S A} (r : Res S A) : S :=
  match r with Ok _ s => s | Throw _ s => s end.

Definition returned {S A} (r : Res S A) : bool :=
  match r with Ok _ _ => true | Throw _ _ => false end.

(** ** The store: scene objects, topics, console, emitted events *)

(** References into the store are positions in it. *)
Abbreviation ObjId := nat.
Abbreviation TopicId := nat.

(** Modelled from the spec: the renderer's scene-graph primitives and the
    pose-tracking attachment node (THREE.Object3D and SceneNode.js are not
    among the sources).  An object is a plain container, a Scene Attachment
    node, or a renderable produced by a geometry builder ([G] is what the
    builder keeps).  Every object has a parent pointer, a child list and a
    count of the calls of its disposal hook. *)
Inductive Body (G : Type) : Type :=
| Object3D
| SceneNode (frameID tfClient pose : Val) (tfSubscribed : bool)
| Geometry (g : G).
Arguments Object3D {G}.
Arguments SceneNode {G} frameID tfClient pose tfSubscribed.
Arguments Geometry {G} g.

Record Obj (G : Type) : Type := mkObj {
  body : Body G;
  parent : option ObjId;
  children : list ObjId;
  disposeCalls : nat
}.
Arguments mkObj {G} body parent children disposeCalls.
Arguments body {G} o.
Arguments parent {G} o.
Arguments children {G} o.
Arguments disposeCalls {G} o.

(** Modelled from the spec: the transport's topic (ROSLIB.Topic is not among
    the sources): it is created from a description, delivers messages to
    the registered handler while subscribed, and can be torn down. *)
Record Topic : Type := mkTopic {
  name : Val;
  messageType : string;
  compression : Val;
  queue_length : option nat;
  subscribed : bool
}.

Record St (G C : Type) : Type := mkSt {
  heap : list (Obj G);
  topics : list Topic;
  console : list string;
  emitted : list string;
  self : C
}.
Arguments mkSt {G C} heap topics console emitted self.
Arguments heap {G C} s.
Arguments topics {G C} s.
Arguments console {G C} s.
Arguments emitted {G C} s.
Arguments self {G C} s.

Section Store.
Context {G C : Type}.
Local Abbreviation State := (St G C).

Definition with_heap (f : list (Obj G) -> list (Obj G)) (s : State) : State :=
  mkSt (f (heap s)) (topics s) (console s) (emitted s) (self s).
Definition with_topics (f : list Topic -> list Topic) (s : State) : State :=
  mkSt (heap s) (f (topics s)) (console s) (emitted s) (self s).
Definition with_self (f : C -> C) (s : State) : State :=
  mkSt (heap s) (topics s) (console s) (emitted s) (f (self s)).

Definition this {A} (f : C -> A) : M State A := gets (fun s => f (self s)).
Definition assign_this (f : C -> C) : M State unit := modify (with_self f).

(** [console.warn], [console.log], [console.error] *)
Definition console_write (line : string) : M State unit :=
  modify (fun s => mkSt (heap s) (topics s) (console s ++ [line]) (emitted s) (self s)).

(** [this.emit(event)] of EventEmitter2 *)
Definition emit (event : string) : M State unit :=
  modify (fun s => mkSt (heap s) (topics s) (console s) (emitted s ++ [event]) (self s)).

(** *** Scene objects *)

Definition alloc (o : Obj G) : M State ObjId :=
  fun s => Ok (length (heap s)) (with_heap (fun h => h ++ [o]) s).

Definition children_of (h : list (Obj G)) (p : ObjId) : list ObjId :=
  match h !! p with Some o => children o | None => [] end.

Definition parent_of (h : list (Obj G)) (c : ObjId) : option ObjId :=
  match h !! c with Some o => parent o | None => None end.

Definition set_parent (p : option ObjId) (o : Obj G) : Obj G :=
  mkObj (body o) p (children o) (disposeCalls o).
Definition set_children (f : list ObjId -> list ObjId) (o : Obj G) : Obj G :=
  mkObj (body o) (parent o) (f (children o)) (disposeCalls o).

(** [children.splice(children.indexOf(c), 1)] *)
Fixpoint splice_first (c : ObjId) (l : list ObjId) : list ObjId :=
  match l with
  | [] => []
  | x :: l' => if Nat.eqb x c then l' else x :: splice_first c l'
  end.

(** Modelled from the spec: [p.remove(c)] of the scene-graph node.  When
    [c] is a child of [p], clear its parent pointer and splice it out;
    otherwise nothing. *)
Definition heap_remove (p c : ObjId) (h : list (Obj G)) : list (Obj G) :=
  if bool_decide (c ∈ children_of h p)
  then alter (set_children (splice_first c)) p (alter (set_parent None) c h)
  else h.

Definition Object3D_remove (p c : ObjId) : M State unit :=
  modify (with_heap (heap_remove p c)).

(** Modelled from the spec: [p.add(c)] of the scene-graph node.  An object
    cannot be its own child; a child that already has a parent is removed
    from it first; then it is pushed. *)
Definition heap_add (p c : ObjId) (h : list (Obj G)) : list (Obj G) :=
  let h1 := match parent_of h c with
            | Some q => heap_remove q c h
            | None => h
            end in
  alter (set_children (fun l => l ++ [c])) p (alter (set_parent (Some p)) c h1).

Definition Object3D_add (p c : ObjId) : M State unit :=
  if Nat.eqb p c
  then console_write "THREE.Object3D.add: object can't be added as a child of itself."
  else modify (with_heap (heap_add p c)).

(** [new THREE.Object3D()] *)
Definition new_Object3D : M State ObjId := alloc (mkObj Object3D None [] 0).

(** The renderable a geometry builder returns. *)
Definition new_Geometry (g : G) : M State ObjId := alloc (mkObj (Geometry g) None [] 0).

(** Modelled from the spec: [new SceneNode({frameID, tfClient, object,
    pose})], the Scene Attachment.  The node hosts [object] as its child
    and tracks [frameID] when a TF client is given. *)
Definition new_SceneNode (frameID tfClient : Val) (object : ObjId) (pose : Val)
  : M State ObjId :=
  n <- alloc (mkObj (SceneNode frameID tfClient pose (truthy tfClient)) None [] 0) ;;
  Object3D_add n object ;;
  ret n.

(** [o.tfClient]: only Scene Attachment nodes carry one; the geometry
    builders are given none. *)
Definition tfClient_of (h : list (Obj G)) (o : ObjId) : Val :=
  match h !! o with
  | Some (mkObj (SceneNode _ tf _ _) _ _ _) => tf
  | _ => VUndefined
  end.

Definition stop_tracking (o : Obj G) : Obj G :=
  match body o with
  | SceneNode f tf p _ => mkObj (SceneNode f tf p false) (parent o) (children o) (disposeCalls o)
  | _ => o
  end.

(** Modelled from the spec: [node.unsubscribeTf()] ends the node's frame
    tracking. *)
Definition unsubscribeTf (n : ObjId) : M State unit :=
  modify (with_heap (alter stop_tracking n)).

Definition count_dispose (o : Obj G) : Obj G :=
  mkObj (body o) (parent o) (children o) (S (disposeCalls o)).

(** Modelled from the spec: [o.dispose()], the disposal hook; each call is
    counted on the object. *)
Definition dispose (o : ObjId) : M State unit :=
  modify (with_heap (alter count_dispose o)).

(** *** Observations on the store *)

Definition tracking (h : list (Obj G)) (n : ObjId) : bool :=
  match h !! n with
  | Some (mkObj (SceneNode _ _ _ b) _ _ _) => b
  | _ => false
  end.

Definition disposals (h : list (Obj G)) (o : ObjId) : nat :=
  match h !! o with Some x => disposeCalls x | None => 0 end.

(** Between two stores nothing was released: no object was dropped, no
    disposal hook was called, and every node that tracked a frame still
    does. *)
Definition unreleased (h h' : list (Obj G)) : Prop :=
  length h <= length h' /\
  (forall x, disposals h' x = disposals h x) /\
  (forall x, x < length h -> tracking h' x = tracking h x).

Definition tracked (o : Obj G) : bool :=
  match body o with SceneNode _ _ _ b => b | _ => false end.

(** The store after [cs.forEach(child => child.dispose())]. *)
Definition dispose_all (cs : list ObjId) (h : list (Obj G)) : list (Obj G) :=
  foldl (fun h c => alter count_dispose c h) h cs.

(** The store after a Displayed Entity was destroyed: tracking stopped,
    node detached from the root, children disposed. *)
Definition destroyed (root node : ObjId) (h : list (Obj G)) : list (Obj G) :=
  let h1 := heap_remove root node (alter stop_tracking node h) in
  dispose_all (children_of h1 node) h1.

(** *** Topics *)

(** Modelled from the spec: [new ROSLIB.Topic({...})], not yet subscribed. *)
Definition new_Topic (nm : Val) (ty : string) (cmp : Val) (ql : option nat)
  : M State TopicId :=
  fun s => Ok (length (topics s))
              (with_topics (fun ts => ts ++ [mkTopic nm ty cmp ql false]) s).

Definition set_subscribed (b : bool) (t : Topic) : Topic :=
  mkTopic (name t) (messageType t) (compression t) (queue_length t) b.

(** Modelled from the spec: [topic.subscribe(handler)]; the handler is
    always the client's own [processMessage]. *)
Definition Topic_subscribe (t : TopicId) : M State unit :=
  modify (with_topics (alter (set_subscribed true) t)).

Definition is_subscribed (ts : list Topic) (t : TopicId) : bool :=
  match ts !! t with Some tp => subscribed tp | None => false end.

(** Modelled from the spec: [topic.unsubscribe()]; nothing to tear down
    when not subscribed. *)
Definition Topic_unsubscribe (t : TopicId) : M State unit :=
  fun s => if is_subscribed (topics s) t
           then Ok tt (with_topics (alter (set_subscribed false) t) s)
           else Ok tt s.

(** Modelled from the spec: the transport hands a message published on
    [t] to the handler only while [t] is subscribed. *)
Definition transport_deliver {Msg} (handler : Msg -> M State unit)
    (t : TopicId) (m : Msg) : M State unit :=
  fun s => if is_subscribed (topics s) t then handler m s else Ok tt s.

End Store.

(** ** Construction options

    One record for the option object of the three constructors; a key the
    caller left out reads as [undefined].  [rootObject] is a reference to a
    container already in the scene, when given. *)
Module Options.
Record t : Type := mk {
  ros : Val;
  topic : Val;
  continuous : Val;
  tfClient : Val;
  compression : Val;
  rootObject : option ObjId;
  offsetPose : Val;
  color : Val;
  opacity : Val;
  colorMode : Val;
  palette : Val;
  paletteScale : Val;
  voxelRenderMode : Val;
  path : Val
}.

(** [{}], also what [options || {}] gives for a missing argument. *)
Definition empty : t :=
  mk VUndefined VUndefined VUndefined VUndefined VUndefined None VUndefined
     VUndefined VUndefined VUndefined VUndefined VUndefined VUndefined VUndefined.
End Options.

(** [options.rootObject || new THREE.Object3D()], evaluated on the scene the
    client is constructed in: the root's reference and the scene after. *)
Definition root_or_new {G} (options : Options.t) (scene : list (Obj G))
  : ObjId * list (Obj G) :=
  match Options.rootObject options with
  | Some r => (r, scene)
  | None => (length scene, scene ++ [mkObj Object3D None [] 0])
  end.

Record Header : Type := mkHeader { frame_id : string }.

Definition quote : string := String (ascii_of_nat 34) EmptyString.

(** ** MarkerArrayClient *)

(** One element of [arrayMessage.markers]; [fields] stands for what only the
    marker builder reads (type, pose, scale, colour, points, ...). *)
Record MarkerMsg : Type := mkMarkerMsg {
  header : Header;
  ns : string;
  id : Z;
  action : Z;
  fields : Val
}.

(** The marker geometry builder (Marker.js is not among the sources): the
    renderable's own state, its constructor, and its in-place [update],
    which answers whether the existing renderable could take the new
    message. *)
Class MarkerBuilder : Type := {
  MarkerState : Type;
  Marker_new : MarkerMsg -> Val -> MarkerState;
  Marker_update : MarkerState -> MarkerMsg -> bool * MarkerState
}.

Module MarkerArrayClient.
Section Client.
Context `{MarkerBuilder}.

Record Client : Type := mkClient {
  ros : Val;
  topicName : Val;
  tfClient : Val;
  rootObject : ObjId;
  path : Val;
  markers : Js.Object ObjId;
  rosTopic : option TopicId
}.

Local Abbreviation State := (St MarkerState Client).

Definition set_markers (f : Js.Object ObjId -> Js.Object ObjId) (c : Client) : Client :=
  mkClient (ros c) (topicName c) (tfClient c) (rootObject c) (path c) (f (markers c)) (rosTopic c).
Definition set_rosTopic (t : option TopicId) (c : Client) : Client :=
  mkClient (ros c) (topicName c) (tfClient c) (rootObject c) (path c) (markers c) t.

Definition unsubscribe : M State unit :=
  rt <- this rosTopic ;;
  match rt with
  | Some t => Topic_unsubscribe t
  | None => ret tt
  end.

Definition subscribe : M State unit :=
  unsubscribe ;;
  nm <- this topicName ;;
  t <- new_Topic nm "visualization_msgs/MarkerArray" (VStr "png") None ;;
  assign_this (set_rosTopic (Some t)) ;;
  Topic_subscribe t.

(** The Registry key [message.ns + message.id].  Such a key ends in a
    decimal digit, so it never names a property inherited from
    [Object.prototype] (see [key_not_inherited]): [key in this.markers]
    and [this.markers[key]] are own-property lookups. *)
Definition key_of (message : MarkerMsg) : string :=
  ns message +:+ string_of_Z (id message).

Definition removeMarker (key : string) : M State unit :=
  ms <- this markers ;;
  match Js.get key ms with
  | None => ret tt
  | Some oldNode =>
      unsubscribeTf oldNode ;;
      root <- this rootObject ;;
      Object3D_remove root oldNode ;;
      cs <- gets (fun s => children_of (heap s) oldNode) ;;
      forEach cs dispose ;;
      assign_this (set_markers (Js.delete key))
  end.

(** [node.children[0].update(message)] *)
Definition update_first_child (node : ObjId) (message : MarkerMsg) : M State bool :=
  fun s =>
    match children_of (heap s) node with
    | [] => Throw "TypeError: children[0] is undefined" s
    | c :: _ =>
        match heap s !! c with
        | Some (mkObj (Geometry g) p cs d) =>
            let r := Marker_update g message in
            Ok r.1 (with_heap (fun h => <[c := mkObj (Geometry r.2) p cs d]> h) s)
        | _ => Throw "TypeError: update is not a function" s
        end
    end.

(** The block under [if(!updated)], marked "ADD": build a marker, host it
    in a new Scene Attachment node, register the node under the key and
    add it to the root. *)
Definition add_block (message : MarkerMsg) : M State unit :=
  pth <- this path ;;
  newMarker <- new_Geometry (Marker_new message pth) ;;
  tf <- this tfClient ;;
  node <- new_SceneNode (VStr (frame_id (header message))) tf newMarker VUndefined ;;
  assign_this (set_markers (Js.set (key_of message) node)) ;;
  root <- this rootObject ;;
  Object3D_add root node.

(** The store after [add_block]: the marker at the first free position,
    its node at the next, the marker hosted by the node and the node
    added to the root. *)
Definition added (message : MarkerMsg) (root : ObjId) (pth tf : Val)
    (h : list (Obj MarkerState)) : list (Obj MarkerState) :=
  let L := length h in
  heap_add root (S L)
    (heap_add (S L) L
       ((h ++ [mkObj (Geometry (Marker_new message pth)) None [] 0])
          ++ [mkObj (SceneNode (VStr (frame_id (header message))) tf VUndefined (truthy tf))
                None [] 0])).

(** The body of the [forEach] in [processMessage]: one directive. *)
Definition processMarker (message : MarkerMsg) : M State unit :=
  let key := key_of message in
  if (action message =? 0)%Z then
    ms <- this markers ;;
    updated <- match Js.get key ms with
               | Some node =>
                   updated <- update_first_child node message ;;
                   when (negb updated) (removeMarker key) ;;
                   ret updated
               | None => ret false
               end ;;
    when (negb updated) (add_block message)
  else if (action message =? 1)%Z then
    console_write ("Received marker message with deprecated action identifier "
                   +:+ quote +:+ "1" +:+ quote)
  else if (action message =? 2)%Z then
    removeMarker key
  else if (action message =? 3)%Z then
    ms <- this markers ;;
    forEach (Js.for_in_keys ms) removeMarker ;;
    assign_this (set_markers (fun _ => []))
  else
    console_write ("Received marker message with unknown action identifier "
                   +:+ quote +:+ string_of_Z (action message) +:+ quote).

Definition processMessage (arrayMessage : list MarkerMsg) : M State unit :=
  forEach arrayMessage processMarker ;;
  emit "change".

(** [new MarkerArrayClient(options)] in a scene. *)
Definition constructor (options : Options.t) (scene : list (Obj MarkerState))
  : Res State unit :=
  let (root, scene') := root_or_new options scene in
  subscribe
    (mkSt scene' [] [] []
       (mkClient (Options.ros options) (Options.topic options)
          (Options.tfClient options) root
          (Js.or (Options.path options) (VStr "/")) [] None)).

(** A message published on a topic of this client. *)
Definition deliver (t : TopicId) (arrayMessage : list MarkerMsg) : M State unit :=
  transport_deliver processMessage t arrayMessage.

End Client.
End MarkerArrayClient.

(** [new ROSLIB.Pose()]: the identity pose. *)
Definition identity_pose : Val :=
  VRecord [ ("position", VRecord [("x", VNum 0); ("y", VNum 0); ("z", VNum 0)]);
            ("orientation", VRecord [("x", VNum 0); ("y", VNum 0); ("z", VNum 0); ("w", VNum 1)]) ].

(** ** OccupancyGridClient *)

Module OccupancyGridClient.

(** A nav_msgs/OccupancyGrid message; [info] and [data] are read by the
    grid builder only. *)
Record Msg : Type := mkMsg { header : Header; info : Val; data : Val }.

(** [new OccupancyGrid({message, color, opacity})]: the renderable keeps
    the three options it was built from (OccupancyGrid.js is not among
    the sources). *)
Record OccupancyGrid : Type := mkGrid {
  grid_message : Msg;
  grid_color : Val;
  grid_opacity : Val
}.

Record Client : Type := mkClient {
  ros : Val;
  topicName : Val;
  compression : Val;
  continuous : Val;
  tfClient : Val;
  rootObject : ObjId;
  offsetPose : Val;
  color : Val;
  opacity : Val;
  currentGrid : option ObjId;
  rosTopic : option TopicId;
  sceneNode : option ObjId
}.

Local Abbreviation State := (St OccupancyGrid Client).

Definition set_currentGrid (g : option ObjId) (c : Client) : Client :=
  mkClient (ros c) (topicName c) (compression c) (continuous c) (tfClient c)
    (rootObject c) (offsetPose c) (color c) (opacity c) g (rosTopic c) (sceneNode c).
Definition set_rosTopic (t : option TopicId) (c : Client) : Client :=
  mkClient (ros c) (topicName c) (compression c) (continuous c) (tfClient c)
    (rootObject c) (offsetPose c) (color c) (opacity c) (currentGrid c) t (sceneNode c).
Definition set_sceneNode (n : option ObjId) (c : Client) : Client :=
  mkClient (ros c) (topicName c) (compression c) (continuous c) (tfClient c)
    (rootObject c) (offsetPose c) (color c) (opacity c) (currentGrid c) (rosTopic c) n.

Definition unsubscribe : M State unit :=
  rt <- this rosTopic ;;
  match rt with
  | Some t => Topic_unsubscribe t
  | None => ret tt
  end.

Definition subscribe : M State unit :=
  unsubscribe ;;
  nm <- this topicName ;;
  cmp <- this compression ;;
  t <- new_Topic nm "nav_msgs/OccupancyGrid" cmp (Some 1) ;;
  assign_this (set_rosTopic (Some t)) ;;
  assign_this (set_sceneNode None) ;;
  Topic_subscribe t.

(** [this.rosTopic.unsubscribe()], without the guard of [unsubscribe]. *)
Definition rosTopic_unsubscribe : M State unit :=
  rt <- this rosTopic ;;
  match rt with
  | Some t => Topic_unsubscribe t
  | None => throw "TypeError: this.rosTopic is undefined"
  end.

Definition processMessage (message : Msg) : M State unit :=
  (* check for an old map *)
  cg <- this currentGrid ;;
  match cg with
  | Some g =>
      tf <- gets (fun s => tfClient_of (heap s) g) ;;
      when (truthy tf) (unsubscribeTf g) ;;
      sn <- this sceneNode ;;
      match sn with
      | Some n => Object3D_remove n g
      | None => throw "TypeError: this.sceneNode is null"
      end ;;
      dispose g
  | None => ret tt
  end ;;
  col <- this color ;;
  opa <- this opacity ;;
  newGrid <- new_Geometry (mkGrid message col opa) ;;
  (* check if we care about the scene *)
  tf <- this tfClient ;;
  root <- this rootObject ;;
  (if truthy tf then
     assign_this (set_currentGrid (Some newGrid)) ;;
     sn <- this sceneNode ;;
     match sn with
     | None =>
         pose <- this offsetPose ;;
         n <- new_SceneNode (VStr (frame_id (header message))) tf newGrid pose ;;
         assign_this (set_sceneNode (Some n)) ;;
         Object3D_add root n
     | Some n => Object3D_add n newGrid
     end
   else
     assign_this (set_currentGrid (Some newGrid)) ;;
     assign_this (set_sceneNode (Some newGrid)) ;;
     Object3D_add root newGrid) ;;
  emit "change" ;;
  (* check if we should unsubscribe *)
  c <- this continuous ;;
  when (negb (truthy c)) rosTopic_unsubscribe.

(** [new OccupancyGridClient(options)] in a scene. *)
Definition constructor (options : Options.t) (scene : list (Obj OccupancyGrid))
  : Res State unit :=
  let (root, scene') := root_or_new options scene in
  subscribe
    (mkSt scene' [] [] []
       (mkClient (Options.ros options)
          (Js.or (Options.topic options) (VStr "/map"))
          (Js.or (Options.compression options) (VStr "cbor"))
          (Options.continuous options)
          (Options.tfClient options)
          root
          (Js.or (Options.offsetPose options) identity_pose)
          (Js.or (Options.color options)
             (VRecord [("r", VNum 255); ("g", VNum 255); ("b", VNum 255)]))
          (Js.or (Options.opacity options) (VNum 1))
          None None None)).

(** A message published on a topic of this client. *)
Definition deliver (t : TopicId) (message : Msg) : M State unit :=
  transport_deliver processMessage t message.

End OccupancyGridClient.

(** ** OcTreeClient *)

(** The tree classes a message can be decoded with. *)
Inductive TreeClass : Type := OcTreeBase | OcTree | ColorOcTree.

(** The octree decoder and voxel-geometry builder (OcTreeBase.js, OcTree.js
    and ColorOcTree.js are not among the sources): whether reading the
    payload with a given tree class and building its geometry goes through,
    or throws. *)
Class OcTreeDecoder : Type := {
  decodes : TreeClass -> Val -> bool
}.

(** How a promise settles. *)
Inductive Promise (A : Type) : Type :=
| Fulfilled (a : A)
| Rejected (e : string).
Arguments Fulfilled {A} a.
Arguments Rejected {A} e.

Module OcTreeClient.
Section Client.
Context `{OcTreeDecoder}.

(** An octomap_msgs/Octomap message. *)
Record Msg : Type := mkMsg {
  header : Header;
  binary : bool;
  id : string;
  resolution : Val;
  data : Val
}.

(** What a built voxel object was made from: the tree class, the options
    handed to its constructor, and the payload read into it. *)
Record Voxels : Type := mkVoxels {
  tree_class : TreeClass;
  tree_options : Js.Object Val;
  tree_data : Val
}.

(** The tree instance: [newOcTree], whose [object] is the renderable that
    [buildGeometry] made. *)
Record Tree : Type := mkTree {
  voxels : Voxels;
  object : ObjId
}.

(** [tree.tfClient]: the tree is constructed from
    [{resolution, ...this.options}] only and is given no TF client. *)
Definition Tree_tfClient (t : Tree) : Val := VUndefined.

Record Client : Type := mkClient {
  ros : Val;
  topicName : Val;
  compression : Val;
  continuous : Val;
  tfClient : Val;
  rootObject : ObjId;
  offsetPose : Val;
  options : Js.Object Val;
  currentMap : option Tree;
  rosTopic : option TopicId;
  sceneNode : option ObjId;
  (** callbacks registered with [then] on a fulfilled promise, waiting for
      the current handler to return *)
  microtasks : list (Tree * Msg)
}.

Local Abbreviation State := (St Voxels Client).

Definition set_currentMap (t : option Tree) (c : Client) : Client :=
  mkClient (ros c) (topicName c) (compression c) (continuous c) (tfClient c)
    (rootObject c) (offsetPose c) (options c) t (rosTopic c) (sceneNode c) (microtasks c).
Definition set_rosTopic (t : option TopicId) (c : Client) : Client :=
  mkClient (ros c) (topicName c) (compression c) (continuous c) (tfClient c)
    (rootObject c) (offsetPose c) (options c) (currentMap c) t (sceneNode c) (microtasks c).
Definition set_sceneNode (n : option ObjId) (c : Client) : Client :=
  mkClient (ros c) (topicName c) (compression c) (continuous c) (tfClient c)
    (rootObject c) (offsetPose c) (options c) (currentMap c) (rosTopic c) n (microtasks c).
Definition set_microtasks (f : list (Tree * Msg) -> list (Tree * Msg)) (c : Client) : Client :=
  mkClient (ros c) (topicName c) (compression c) (continuous c) (tfClient c)
    (rootObject c) (offsetPose c) (options c) (currentMap c) (rosTopic c) (sceneNode c)
    (f (microtasks c)).

(** [if (typeof v !== 'undefined') { this.options[k] = v' }] *)
Definition append_when_set (v : Val) (k : string) (v' : Val) (o : Js.Object Val)
  : Js.Object Val :=
  if defined v then Js.set k v' o else o.

(** The options passed to the converter, as the constructor collects
    them. *)
Definition converter_options (o : Options.t) : Js.Object Val :=
  let opts := [] in
  let opts := append_when_set (Options.color o) "color" (Options.color o) opts in
  let opts := append_when_set (Options.opacity o) "opacity" (Options.opacity o) opts in
  let opts := append_when_set (Options.colorMode o) "colorMode" (Options.colorMode o) opts in
  let opts := append_when_set (Options.palette o) "palette" (Options.palette o) opts in
  let opts := append_when_set (Options.paletteScale o) "paletteScale" (Options.palette o) opts in
  let opts := append_when_set (Options.voxelRenderMode o) "voxelRenderMode"
                (Options.voxelRenderMode o) opts in
  opts.

Definition unsubscribe : M State unit :=
  rt <- this rosTopic ;;
  match rt with
  | Some t => Topic_unsubscribe t
  | None => ret tt
  end.

Definition _MESSAGE_TYPE : string := "octomap_msgs/Octomap".

Definition subscribe : M State unit :=
  unsubscribe ;;
  nm <- this topicName ;;
  cmp <- this compression ;;
  t <- new_Topic nm _MESSAGE_TYPE cmp (Some 1) ;;
  assign_this (set_rosTopic (Some t)) ;;
  Topic_subscribe t.

Definition ctorTable : Js.Object TreeClass :=
  [("OcTree", OcTree); ("ColorOcTree", ColorOcTree)].

(** [new cls(options)] followed by [readBinary(data)] or [read(data)]. *)
Definition construct_and_read (cls : TreeClass) (opts : Js.Object Val) (payload : Val)
  : M State Voxels :=
  if decodes cls payload then ret (mkVoxels cls opts payload)
  else throw "Error: the payload cannot be read".

(** The executor of the promise in [_loadOcTree]. *)
Definition executor (message : Msg) : M State Tree :=
  own <- this options ;;
  let options := Js.assign [("resolution", resolution message)] own in
  newOcTree <-
    (if binary message then
       v <- construct_and_read OcTreeBase options (data message) ;;
       ret (Some v)
     else if Js.in_ (id message) ctorTable then
       console_write (id message) ;;
       match Js.get (id message) ctorTable with
       | Some cls =>
           v <- construct_and_read cls options (data message) ;;
           ret (Some v)
       | None => throw "TypeError: an inherited property is not a tree constructor"
       end
     else ret None) ;;
  match newOcTree with
  | None => throw "TypeError: newOcTree is null"
  | Some v =>
      (* newOcTree.buildGeometry() *)
      obj <- new_Geometry v ;;
      ret (mkTree v obj)
  end.

(** [new Promise(executor)]: the executor runs at once; what it throws
    rejects the promise. *)
Definition new_Promise {A} (exec : M State A) : M State (Promise A) :=
  fun s => match exec s with
           | Ok a s' => Ok (Fulfilled a) s'
           | Throw e s' => Ok (Rejected e) s'
           end.

Definition _loadOcTree (message : Msg) : M State (Promise Tree) :=
  new_Promise (executor message).

(** The callback given to [then]: replace the geometry. *)
Definition install (newOcTree : Tree) (message : Msg) : M State unit :=
  oldNode <- this sceneNode ;;
  tf <- this tfClient ;;
  (if truthy tf then
     assign_this (set_currentMap (Some newOcTree)) ;;
     pose <- this offsetPose ;;
     n <- new_SceneNode (VStr (frame_id (header message))) tf (object newOcTree) pose ;;
     assign_this (set_sceneNode (Some n))
   else
     assign_this (set_sceneNode (Some (object newOcTree))) ;;
     assign_this (set_currentMap (Some newOcTree))) ;;
  root <- this rootObject ;;
  match oldNode with
  | Some o => Object3D_remove root o
  | None => ret tt
  end ;;
  sn <- this sceneNode ;;
  match sn with
  | Some n => Object3D_add root n
  | None => ret tt
  end ;;
  emit "change".

(** [promise.then(callback)]: the callback of a fulfilled promise is
    queued; a rejected promise has no rejection handler. *)
Definition _processMessagePrivate (message : Msg) : M State unit :=
  promise <- _loadOcTree message ;;
  match promise with
  | Fulfilled newOcTree =>
      assign_this (set_microtasks (fun q => q ++ [(newOcTree, message)]))
  | Rejected _ => ret tt
  end.

Definition rosTopic_unsubscribe : M State unit :=
  rt <- this rosTopic ;;
  match rt with
  | Some t => Topic_unsubscribe t
  | None => throw "TypeError: this.rosTopic is undefined"
  end.

Definition processMessage (message : Msg) : M State unit :=
  (* check for an old map *)
  cm <- this currentMap ;;
  match cm with
  | Some t =>
      when (truthy (Tree_tfClient t))
        (throw "TypeError: this.currentMap.unsubscribeTf is not a function")
  | None => ret tt
  end ;;
  _processMessagePrivate message ;;
  c <- this continuous ;;
  when (negb (truthy c)) rosTopic_unsubscribe.

(** The queued callbacks run once the handler has returned. *)
Definition run_microtasks : M State unit :=
  jobs <- this microtasks ;;
  assign_this (set_microtasks (fun _ => [])) ;;
  forEach jobs (fun j => install j.1 j.2).

(** [new OcTreeClient(options)] in a scene. *)
Definition constructor (o : Options.t) (scene : list (Obj Voxels)) : Res State unit :=
  let (root, scene') := root_or_new o scene in
  subscribe
    (mkSt scene' [] [] []
       (mkClient (Options.ros o)
          (Js.or (Options.topic o) (VStr "/octomap"))
          (Js.or (Options.compression o) (VStr "cbor"))
          (Options.continuous o)
          (Options.tfClient o)
          root
          (Js.or (Options.offsetPose o) identity_pose)
          (converter_options o)
          None None None [])).

(** A message published on a topic of this client: the handler runs, if
    the topic is subscribed, and then the queued callbacks. *)
Definition deliver (t : TopicId) (message : Msg) : M State unit :=
  fun s => run_microtasks (final (transport_deliver processMessage t message s)).

End Client.
End OcTreeClient.

(** ** Observations and sample data used by the statements below *)

(** Whether the client's recorded topic has a live subscription. *)
Definition active_subscription {G C} (rosTopic : C -> option TopicId) (s : St G C) : bool :=
  match rosTopic (self s) with
  | Some t => is_subscribed (topics s) t
  | None => false
  end.

(** The grid client showing the grid [g] with no TF client configured:
    [currentGrid] and [sceneNode] are both the renderable [g], a childless
    object in the store, and the root is another, allocated object. *)
Definition grid_alone (s : St OccupancyGridClient.OccupancyGrid OccupancyGridClient.Client)
    (g : ObjId) : Prop :=
  truthy (OccupancyGridClient.tfClient (self s)) = false /\
  OccupancyGridClient.currentGrid (self s) = Some g /\
  OccupancyGridClient.sceneNode (self s) = Some g /\
  OccupancyGridClient.rootObject (self s) < length (heap s) /\
  OccupancyGridClient.rootObject (self s) <> g /\
  exists gr par d, heap s !! g = Some (mkObj (Geometry gr) par [] d).

(** The three clients' [unsubscribe] is this computation on their own
    [rosTopic] field. *)
Definition unsubscribe_of {G C} (rosTopic : C -> option TopicId) : M (St G C) unit :=
  rt <- this rosTopic ;;
  match rt with
  | Some t => Topic_unsubscribe t
  | None => ret tt
  end.

(** The option object [o] with one key replaced. *)
Definition with_opacity (v : Val) (o : Options.t) : Options.t :=
  Options.mk (Options.ros o) (Options.topic o) (Options.continuous o) (Options.tfClient o)
    (Options.compression o) (Options.rootObject o) (Options.offsetPose o) (Options.color o)
    v (Options.colorMode o) (Options.palette o) (Options.paletteScale o)
    (Options.voxelRenderMode o) (Options.path o).

Definition with_color (v : Val) (o : Options.t) : Options.t :=
  Options.mk (Options.ros o) (Options.topic o) (Options.continuous o) (Options.tfClient o)
    (Options.compression o) (Options.rootObject o) (Options.offsetPose o) v
    (Options.opacity o) (Options.colorMode o) (Options.palette o) (Options.paletteScale o)
    (Options.voxelRenderMode o) (Options.path o).

Definition with_continuous (v : Val) (o : Options.t) : Options.t :=
  Options.mk (Options.ros o) (Options.topic o) v (Options.tfClient o)
    (Options.compression o) (Options.rootObject o) (Options.offsetPose o) (Options.color o)
    (Options.opacity o) (Options.colorMode o) (Options.palette o) (Options.paletteScale o)
    (Options.voxelRenderMode o) (Options.path o).

Definition with_tfClient (v : Val) (o : Options.t) : Options.t :=
  Options.mk (Options.ros o) (Options.topic o) (Options.continuous o) v
    (Options.compression o) (Options.rootObject o) (Options.offsetPose o) (Options.color o)
    (Options.opacity o) (Options.colorMode o) (Options.palette o) (Options.paletteScale o)
    (Options.voxelRenderMode o) (Options.path o).

Definition with_palette (pal scale : Val) (o : Options.t) : Options.t :=
  Options.mk (Options.ros o) (Options.topic o) (Options.continuous o) (Options.tfClient o)
    (Options.compression o) (Options.rootObject o) (Options.offsetPose o) (Options.color o)
    (Options.opacity o) (Options.colorMode o) pal scale
    (Options.voxelRenderMode o) (Options.path o).

Module Samples.

(** A marker builder whose renderables can never take an update in place,
    and one whose renderables always can. *)
Definition rebuilding : MarkerBuilder :=
  {| MarkerState := MarkerMsg;
     Marker_new m _ := m;
     Marker_update st m := (false, st) |}.

Definition updating : MarkerBuilder :=
  {| MarkerState := MarkerMsg;
     Marker_new m _ := m;
     Marker_update st m := (true, m) |}.

(** A decoder that reads every payload. *)
Definition reading : OcTreeDecoder := {| decodes _ _ := true |}.

Definition ros_handle : Val := VHandle 0.
Definition tf_handle : Val := VHandle 1.

(** [{ros, topic: '/markers', tfClient}] *)
Definition marker_options : Options.t :=
  Options.mk ros_handle (VStr "/markers") VUndefined tf_handle VUndefined None VUndefined
    VUndefined VUndefined VUndefined VUndefined VUndefined VUndefined VUndefined.

Definition marker (n : string) (i : Z) (act : Z) : MarkerMsg :=
  mkMarkerMsg (mkHeader "map") n i act VUndefined.

(** [{ros}] *)
Definition plain_options : Options.t :=
  Options.mk ros_handle VUndefined VUndefined VUndefined VUndefined None VUndefined
    VUndefined VUndefined VUndefined VUndefined VUndefined VUndefined VUndefined.

Definition grid_message : OccupancyGridClient.Msg :=
  OccupancyGridClient.mkMsg (mkHeader "map") VNull VNull.

Definition octree_message (binary : bool) (id : string) : OcTreeClient.Msg :=
  OcTreeClient.mkMsg (mkHeader "map") binary id (VNum 1) VNull.

End Samples.

(** ** Invariants of the clients *)

(** The marker client's Registry and its root in lockstep: the root is an
    allocated object whose child list is exactly the registered nodes, in
    the Registry's order; no key and no node is registered twice; every
    registered node is allocated. *)
Definition lockstep `{MarkerBuilder} (s : St MarkerState MarkerArrayClient.Client) : Prop :=
  let ms := MarkerArrayClient.markers (self s) in
  let root := MarkerArrayClient.rootObject (self s) in
  root < length (heap s) /\
  children_of (heap s) root = map snd ms /\
  NoDup (map fst ms) /\
  NoDup (map snd ms) /\
  Forall (fun n => n < length (heap s)) (map snd ms).

(** The renderable an object is, when a geometry builder made it. *)
Definition renderable {G} (o : Obj G) : option G :=
  match body o with Geometry g => Some g | _ => None end.

Definition is_renderable {G} (h : list (Obj G)) (c : ObjId) : Prop :=
  exists g, renderable <$> h !! c = Some (Some g).

(** Every registered node is an object other than the root whose only
    child is a marker. *)
Definition hosting `{MarkerBuilder} (s : St MarkerState MarkerArrayClient.Client) : Prop :=
  forall k n,
    Js.get k (MarkerArrayClient.markers (self s)) = Some n ->
    n <> MarkerArrayClient.rootObject (self s) /\
    exists c, children_of (heap s) n = [c] /\ is_renderable (heap s) c.

(** At most the topic the client records has a live subscription. *)
Definition only_recorded_live {G C} (rosTopic : C -> option TopicId) (s : St G C) : Prop :=
  forall t, is_subscribed (topics s) t = true -> rosTopic (self s) = Some t.

(** The grid client showing the grid [g] under its Scene Attachment node
    [n], a TF client being configured: [currentGrid] is the renderable [g],
    [sceneNode] is the node [n], and [g] is the only child of [n]. *)
Definition grid_hosted (s : St OccupancyGridClient.OccupancyGrid OccupancyGridClient.Client)
    (n g : ObjId) : Prop :=
  truthy (OccupancyGridClient.tfClient (self s)) = true /\
  OccupancyGridClient.currentGrid (self s) = Some g /\
  OccupancyGridClient.sceneNode (self s) = Some n /\
  (exists f tf p b par d, heap s !! n = Some (mkObj (SceneNode f tf p b) par [g] d)) /\
  (exists gr d, heap s !! g = Some (mkObj (Geometry gr) (Some n) [] d)).

(** The octree client shows at most its current top-level node: no install
    is pending, and the root's children are exactly [sceneNode], when there
    is one. *)
Definition octree_shown (s : St OcTreeClient.Voxels OcTreeClient.Client) : Prop :=
  OcTreeClient.rootObject (self s) < length (heap s) /\
  OcTreeClient.microtasks (self s) = [] /\
  children_of (heap s) (OcTreeClient.rootObject (self s))
  = match OcTreeClient.sceneNode (self s) with Some n => [n] | None => [] end /\
  (forall n, OcTreeClient.sceneNode (self s) = Some n -> n < length (heap s)).

(** A decoder that reads no payload. *)
Definition rejecting : OcTreeDecoder := {| decodes _ _ := false |}.

(** * Facts about the store *)

Section StoreFacts.
Context {G : Type}.
Implicit Types (h : list (Obj G)) (o : Obj G) (p c n i j : ObjId).

Lemma lookup_alter_preserved {A} (proj : Obj G -> A) (f : Obj G -> Obj G) i j h :
  (forall o, proj (f o) = proj o) ->
  proj <$> alter f i h !! j = proj <$> h !! j.
Proof.
  intros Hf. destruct (decide (i = j)) as [->|Hne].
  - rewrite list_lookup_alter_eq. destruct (h !! j) as [x|]; simpl; [by rewrite Hf | done].
  - by rewrite list_lookup_alter_ne.
Qed.

Lemma children_of_fmap h p : children_of h p = default [] (children <$> h !! p).
Proof. unfold children_of. by destruct (h !! p). Qed.

Lemma disposals_fmap h c : disposals h c = default 0 (disposeCalls <$> h !! c).
Proof. unfold disposals. by destruct (h !! c). Qed.

Lemma parent_of_fmap h c : parent_of h c = default None (parent <$> h !! c).
Proof. unfold parent_of. by destruct (h !! c). Qed.

Lemma tracking_fmap h n : tracking h n = default false (tracked <$> h !! n).
Proof. unfold tracking, tracked. destruct (h !! n) as [[[] ? ? ?]|]; done. Qed.

Lemma length_heap_remove p c h : length (heap_remove p c h) = length h.
Proof.
  unfold heap_remove. case_bool_decide; [|done]. by rewrite !length_alter.
Qed.

Lemma length_heap_add p c h : length (heap_add p c h) = length h.
Proof.
  unfold heap_add. rewrite !length_alter.
  destruct (parent_of h c); [apply length_heap_remove | done].
Qed.

(** Detaching touches parent pointers and child lists only. *)
Lemma heap_remove_preserved {A} (proj : Obj G -> A) p c h j :
  (forall o x, proj (set_parent x o) = proj o) ->
  (forall o f, proj (set_children f o) = proj o) ->
  proj <$> heap_remove p c h !! j = proj <$> h !! j.
Proof.
  intros Hp Hc. unfold heap_remove. case_bool_decide; [|done].
  rewrite lookup_alter_preserved; [|by intros; apply Hc].
  rewrite lookup_alter_preserved; [done | by intros; apply Hp].
Qed.

Lemma tracking_heap_remove p c h n : tracking (heap_remove p c h) n = tracking h n.
Proof. rewrite !tracking_fmap. by rewrite heap_remove_preserved. Qed.

Lemma disposals_heap_remove p c h x : disposals (heap_remove p c h) x = disposals h x.
Proof. rewrite !disposals_fmap. by rewrite heap_remove_preserved. Qed.

Lemma splice_first_NoDup c (l : list ObjId) : NoDup l -> c ∉ splice_first c l.
Proof.
  induction 1 as [|x l Hx Hl IH]; simpl; [apply not_elem_of_nil|].
  destruct (Nat.eqb_spec x c) as [->|Hne]; [done|].
  rewrite elem_of_cons. intros [->|Hc]; [done | by apply IH].
Qed.

Lemma splice_first_absent c (l : list ObjId) : c ∉ l -> splice_first c l = l.
Proof.
  induction l as [|x l IH]; simpl; [done|].
  rewrite not_elem_of_cons. intros [Hne Hl].
  destruct (Nat.eqb_spec x c) as [->|_]; [done | by rewrite IH].
Qed.

(** After [p.remove(c)] the child list of [p] has lost its first [c]. *)
Lemma children_of_heap_remove p c h :
  children_of (heap_remove p c h) p = splice_first c (children_of h p).
Proof.
  unfold heap_remove. case_bool_decide as Hin.
  - rewrite !children_of_fmap, list_lookup_alter_eq.
    rewrite <- option_fmap_compose.
    assert (Hc : children <$> alter (set_parent None) c h !! p = children <$> h !! p)
      by (by apply lookup_alter_preserved).
    destruct (alter (set_parent None) c h !! p) as [o|] eqn:E1;
      destruct (h !! p) as [o'|] eqn:E2; simpl in *; congruence.
  - by rewrite splice_first_absent.
Qed.

Lemma children_of_heap_remove_other p c h q :
  q ≠ p -> children_of (heap_remove p c h) q = children_of h q.
Proof.
  intros Hne. unfold heap_remove. case_bool_decide; [|done].
  rewrite !children_of_fmap, list_lookup_alter_ne by done.
  by rewrite lookup_alter_preserved.
Qed.

(** After [p.add(c)], [c] is the last child of an allocated [p]. *)
Lemma children_of_heap_add p c h :
  p < length h ->
  exists l, children_of (heap_add p c h) p = l ++ [c].
Proof.
  intros Hp. unfold heap_add.
  set (h1 := match parent_of h c with Some q => heap_remove q c h | None => h end).
  assert (Hlen : length h1 = length h).
  { subst h1. destruct (parent_of h c); [apply length_heap_remove | done]. }
  rewrite children_of_fmap, list_lookup_alter_eq.
  destruct (lookup_lt_is_Some_2 (alter (set_parent (Some p)) c h1) p) as [o Ho].
  { rewrite length_alter. lia. }
  rewrite Ho. simpl. by eexists.
Qed.

Lemma tracking_heap_add p c h n : tracking (heap_add p c h) n = tracking h n.
Proof.
  unfold heap_add. rewrite !tracking_fmap.
  rewrite !lookup_alter_preserved by done.
  destruct (parent_of h c); [|done].
  by rewrite <- !tracking_fmap, tracking_heap_remove.
Qed.

Lemma disposals_heap_add p c h x : disposals (heap_add p c h) x = disposals h x.
Proof.
  unfold heap_add. rewrite !disposals_fmap.
  rewrite !lookup_alter_preserved by done.
  destruct (parent_of h c); [|done].
  by rewrite <- !disposals_fmap, disposals_heap_remove.
Qed.

Lemma length_dispose_all cs h : length (dispose_all cs h) = length h.
Proof.
  revert h. induction cs as [|c cs IH]; intros h; simpl; [done|].
  unfold dispose_all in *. simpl. by rewrite IH, length_alter.
Qed.

Lemma dispose_all_preserved {A} (proj : Obj G -> A) cs h j :
  (forall o, proj (count_dispose o) = proj o) ->
  proj <$> dispose_all cs h !! j = proj <$> h !! j.
Proof.
  intros Hf. revert h. induction cs as [|c cs IH]; intros h; [done|].
  unfold dispose_all in *. simpl. rewrite IH. by apply lookup_alter_preserved.
Qed.

Lemma disposals_alter_count c h x :
  x < length h ->
  disposals (alter count_dispose c h) x
  = (if decide (c = x) then S (disposals h x) else disposals h x).
Proof.
  intros Hx. rewrite !disposals_fmap.
  destruct (lookup_lt_is_Some_2 h x Hx) as [o Ho].
  case_decide as Hc.
  - subst c. rewrite list_lookup_alter_eq, Ho. done.
  - by rewrite list_lookup_alter_ne.
Qed.

(** Each call of the hook is counted: an object listed once is disposed
    once. *)
Lemma disposals_dispose_all cs h x :
  x < length h -> NoDup cs ->
  disposals (dispose_all cs h) x
  = (if decide (x ∈ cs) then S (disposals h x) else disposals h x).
Proof.
  intros Hx Hnd. revert h Hx.
  induction Hnd as [|c cs Hc Hnd IH]; intros h Hx.
  - destruct (decide (x ∈ [])) as [Hin|_]; [by apply elem_of_nil in Hin | done].
  - change (dispose_all (c :: cs) h) with (dispose_all cs (alter count_dispose c h)).
    rewrite IH by (by rewrite length_alter).
    rewrite disposals_alter_count by done.
    pose proof (elem_of_cons cs x c) as Hcons.
    destruct (decide (x ∈ cs)), (decide (c = x)), (decide (x ∈ c :: cs));
      subst; try reflexivity; exfalso; intuition congruence.
Qed.

Lemma children_of_heap_add_exact p c h :
  p < length h -> parent_of h c = None ->
  children_of (heap_add p c h) p = children_of h p ++ [c].
Proof.
  intros Hp Hpar. unfold heap_add. rewrite Hpar.
  rewrite !children_of_fmap, list_lookup_alter_eq, <- option_fmap_compose.
  assert (Hc : children <$> alter (set_parent (Some p)) c h !! p = children <$> h !! p)
    by (by apply lookup_alter_preserved).
  destruct (lookup_lt_is_Some_2 h p Hp) as [o Ho]. rewrite Ho in *.
  destruct (alter (set_parent (Some p)) c h !! p) as [o'|]; simpl in *; [|done].
  by inversion Hc.
Qed.

Lemma children_of_heap_add_other p c h q :
  q <> p -> parent_of h c = None ->
  children_of (heap_add p c h) q = children_of h q.
Proof.
  intros Hq Hpar. unfold heap_add. rewrite Hpar.
  rewrite !children_of_fmap, list_lookup_alter_ne by done.
  by rewrite lookup_alter_preserved.
Qed.

Lemma parent_of_heap_add_other p c h x :
  x <> c -> parent_of h c = None -> parent_of (heap_add p c h) x = parent_of h x.
Proof.
  intros Hx Hpar. unfold heap_add. rewrite Hpar.
  rewrite !parent_of_fmap, lookup_alter_preserved by done.
  by rewrite list_lookup_alter_ne.
Qed.

Lemma children_of_app_l h l p : p < length h -> children_of (h ++ l) p = children_of h p.
Proof. intros Hp. unfold children_of. by rewrite lookup_app_l. Qed.

Lemma tracking_app_l h l n : n < length h -> tracking (h ++ l) n = tracking h n.
Proof. intros Hn. unfold tracking. by rewrite lookup_app_l. Qed.

Lemma children_of_allocated h p x l : children_of h p = x :: l -> p < length h.
Proof.
  unfold children_of. intros Hc. apply lookup_lt_is_Some.
  destruct (h !! p); [by eexists | done].
Qed.

(** Replacing an object by one with the same parent and children. *)
Lemma children_of_insert_same h c b b' par cs d q :
  h !! c = Some (mkObj b par cs d) ->
  children_of (<[c := mkObj b' par cs d]> h) q = children_of h q.
Proof.
  intros Hc. unfold children_of. destruct (decide (c = q)) as [->|Hne].
  - rewrite list_lookup_insert_eq by (by eapply lookup_lt_Some). by rewrite Hc.
  - by rewrite list_lookup_insert_ne.
Qed.

Lemma disposals_insert_same h c b b' par cs d x :
  h !! c = Some (mkObj b par cs d) ->
  disposals (<[c := mkObj b' par cs d]> h) x = disposals h x.
Proof.
  intros Hc. unfold disposals. destruct (decide (c = x)) as [->|Hne].
  - rewrite list_lookup_insert_eq by (by eapply lookup_lt_Some). by rewrite Hc.
  - by rewrite list_lookup_insert_ne.
Qed.

End StoreFacts.

(** * Facts about string-keyed objects and loops *)

Section ObjectFacts.
Context {V : Type}.
Implicit Types (o : Js.Object V) (k : string) (v : V).

Lemma get_set_eq k v o : Js.get k (Js.set k v o) = Some v.
Proof.
  induction o as [|[k' v'] o IH]; simpl.
  - by rewrite String.eqb_refl.
  - destruct (String.eqb k k') eqn:E; simpl; rewrite E; [done | apply IH].
Qed.

Lemma get_set_ne k k' v o : k <> k' -> Js.get k' (Js.set k v o) = Js.get k' o.
Proof.
  intros Hne. induction o as [|[k0 v0] o IH]; simpl.
  - destruct (String.eqb_spec k' k); [congruence | done].
  - destruct (String.eqb_spec k k0) as [->|]; simpl.
    + destruct (String.eqb_spec k' k0); [congruence | done].
    + by rewrite IH.
Qed.

Lemma get_delete_eq k o : Js.get k (Js.delete k o) = None.
Proof.
  induction o as [|[k' v'] o IH]; simpl; [done|].
  destruct (String.eqb k k') eqn:E; simpl; [done | by rewrite E].
Qed.

Lemma get_delete_ne k k' o : k <> k' -> Js.get k' (Js.delete k o) = Js.get k' o.
Proof.
  intros Hne. induction o as [|[k0 v0] o IH]; simpl; [done|].
  destruct (String.eqb_spec k k0) as [->|]; simpl.
  - rewrite IH. destruct (String.eqb_spec k' k0); [congruence | done].
  - by rewrite IH.
Qed.

End ObjectFacts.

Lemma forEach_dispose {G C} (cs : list ObjId) (s : St G C) :
  forEach cs dispose s = Ok tt (with_heap (dispose_all cs) s).
Proof.
  revert s. induction cs as [|c cs IH]; intros [h ts con em sf]; [done|].
  simpl. unfold bind. simpl. by rewrite IH.
Qed.

Lemma bind_Ok {S A B} (c : M S A) (k : A -> M S B) (s s' : S) (a : A) :
  c s = Ok a s' -> bind c k s = k a s'.
Proof. intros Hc. unfold bind. by rewrite Hc. Qed.

Lemma Object3D_add_distinct {G C} (p c : ObjId) (s : St G C) :
  p <> c -> Object3D_add p c s = Ok tt (with_heap (heap_add p c) s).
Proof. intros Hne. unfold Object3D_add. by rewrite (proj2 (Nat.eqb_neq p c) Hne). Qed.

(** ** Registry keys name no inherited property *)

Lemma ends_in_digit_uint (d : Decimal.uint) :
  d <> Decimal.Nil -> ends_in_digit (NilEmpty.string_of_uint d) = true.
Proof.
  induction d as [|d IH|d IH|d IH|d IH|d IH|d IH|d IH|d IH|d IH|d IH]; intros Hd;
    [done|..]; simpl;
    (destruct d; [done|apply IH; discriminate..]).
Qed.

Lemma ends_in_digit_string_of_Z (z : Z) : ends_in_digit (string_of_Z z) = true.
Proof.
  assert (Hu : forall d, ends_in_digit (NilZero.string_of_uint d) = true).
  { intros d. destruct d; [done|apply (ends_in_digit_uint _); discriminate..]. }
  unfold string_of_Z, NilZero.string_of_int.
  destruct (Z.to_int z) as [d|d]; [apply Hu|].
  change (ends_in_digit (String "-" (NilZero.string_of_uint d)) = true).
  specialize (Hu d). simpl. by destruct (NilZero.string_of_uint d).
Qed.

Lemma ends_in_digit_app (s1 s2 : string) :
  ends_in_digit s2 = true -> ends_in_digit (s1 +:+ s2) = true.
Proof.
  intros H2. induction s1 as [|a s1 IH]; [done|].
  change (ends_in_digit (String a (s1 +:+ s2)) = true).
  simpl. destruct (s1 +:+ s2); [done | exact IH].
Qed.

(** [ns + id] ends in a digit, and no property of [Object.prototype]
    does: the [in] test and the lookup on [this.markers] never reach the
    prototype. *)
Lemma key_not_inherited (m : MarkerMsg) :
  MarkerArrayClient.key_of m ∉ prototype_keys.
Proof.
  intros Hin.
  assert (Hk : ends_in_digit (MarkerArrayClient.key_of m) = true)
    by apply ends_in_digit_app, ends_in_digit_string_of_Z.
  assert (Hall : Forall (fun k => ends_in_digit k = false) prototype_keys)
    by (repeat constructor).
  rewrite Forall_forall in Hall. specialize (Hall _ Hin). congruence.
Qed.

Lemma disposals_unallocated {G} (h : list (Obj G)) x : length h <= x -> disposals h x = 0.
Proof. intros Hx. unfold disposals. by rewrite lookup_ge_None_2. Qed.

Lemma tracking_stop_tracking {G} (h : list (Obj G)) n :
  tracking (alter stop_tracking n h) n = false.
Proof.
  rewrite tracking_fmap, list_lookup_alter_eq.
  destruct (h !! n) as [[[] ? ? ?]|]; done.
Qed.

Lemma children_stop_tracking {G} (o : Obj G) : children (stop_tracking o) = children o.
Proof. unfold stop_tracking. by destruct (body o). Qed.

Lemma disposeCalls_stop_tracking {G} (o : Obj G) :
  disposeCalls (stop_tracking o) = disposeCalls o.
Proof. unfold stop_tracking. by destruct (body o). Qed.

(** * MarkerArrayClient: removal, rebuilding and the Registry key *)

Section MarkerFacts.
Context `{MarkerBuilder}.
Import MarkerArrayClient.
Local Abbreviation State := (St MarkerState Client).
Implicit Types (s : State) (m : MarkerMsg) (h : list (Obj MarkerState)).

Lemma removeMarker_absent key s :
  Js.get key (markers (self s)) = None -> removeMarker key s = Ok tt s.
Proof. intros Hk. unfold removeMarker, bind, this, gets. by rewrite Hk. Qed.

Lemma removeMarker_present key s node :
  Js.get key (markers (self s)) = Some node ->
  removeMarker key s
  = Ok tt (mkSt (destroyed (rootObject (self s)) node (heap s)) (topics s) (console s)
             (emitted s) (set_markers (Js.delete key) (self s))).
Proof.
  intros Hk. unfold removeMarker, bind, this, gets. rewrite Hk.
  destruct s as [h ts con em sf]. simpl. by rewrite forEach_dispose.
Qed.

Lemma length_destroyed root node h : length (destroyed root node h) = length h.
Proof.
  unfold destroyed. by rewrite length_dispose_all, length_heap_remove, length_alter.
Qed.

Lemma tracking_destroyed root node h : tracking (destroyed root node h) node = false.
Proof.
  unfold destroyed. rewrite tracking_fmap, dispose_all_preserved by done.
  rewrite <- tracking_fmap, tracking_heap_remove. apply tracking_stop_tracking.
Qed.

Lemma children_of_destroyed root node h q :
  children_of (destroyed root node h) q
  = (if decide (q = root) then splice_first node (children_of h root) else children_of h q).
Proof.
  unfold destroyed. rewrite children_of_fmap, dispose_all_preserved by done.
  rewrite <- children_of_fmap. case_decide as Hq.
  - subst q. rewrite children_of_heap_remove.
    f_equal. rewrite !children_of_fmap.
    by rewrite lookup_alter_preserved by apply children_stop_tracking.
  - rewrite children_of_heap_remove_other by done.
    rewrite !children_of_fmap.
    by rewrite lookup_alter_preserved by apply children_stop_tracking.
Qed.

Lemma disposals_destroyed root node h x :
  root <> node -> NoDup (children_of h node) -> x < length h ->
  disposals (destroyed root node h) x
  = (if decide (x ∈ children_of h node) then S (disposals h x) else disposals h x).
Proof.
  intros Hne Hnd Hx. unfold destroyed.
  assert (Hcs : children_of (heap_remove root node (alter stop_tracking node h)) node
                = children_of h node).
  { rewrite children_of_heap_remove_other by done.
    rewrite !children_of_fmap.
    by rewrite lookup_alter_preserved by apply children_stop_tracking. }
  rewrite Hcs, disposals_dispose_all; [|by rewrite length_heap_remove, length_alter|done].
  rewrite disposals_heap_remove, !disposals_fmap.
  by rewrite lookup_alter_preserved by apply disposeCalls_stop_tracking.
Qed.

Lemma add_block_runs m s :
  rootObject (self s) < length (heap s) ->
  add_block m s
  = Ok tt (mkSt (added m (rootObject (self s)) (path (self s)) (tfClient (self s)) (heap s))
             (topics s) (console s) (emitted s)
             (set_markers (Js.set (key_of m) (S (length (heap s)))) (self s))).
Proof.
  intros Hroot. destruct s as [h ts con em sf]. simpl in *.
  unfold add_block, new_SceneNode, new_Geometry, alloc, bind, this, gets, assign_this, modify.
  simpl.
  rewrite Object3D_add_distinct by (simpl; rewrite length_app; simpl; lia).
  simpl.
  rewrite Object3D_add_distinct by (simpl; rewrite length_app; simpl; lia).
  unfold with_heap, with_self, added. simpl.
  rewrite !length_app. simpl. by rewrite !Nat.add_1_r.
Qed.

(** The child list of the root once a node was added by [add_block]. *)
Lemma children_of_added m root pth tf h :
  root < length h ->
  children_of (added m root pth tf h) root = children_of h root ++ [S (length h)].
Proof.
  intros Hroot. unfold added.
  set (mk := mkObj (Geometry (Marker_new m pth)) None [] 0).
  set (nd := mkObj (SceneNode _ tf VUndefined (truthy tf)) None [] 0).
  assert (Hmk : ((h ++ [mk]) ++ [nd]) !! length h = Some mk).
  { rewrite lookup_app_l by (rewrite length_app; simpl; lia).
    by rewrite list_lookup_middle. }
  assert (Hnd : ((h ++ [mk]) ++ [nd]) !! S (length h) = Some nd).
  { rewrite (list_lookup_middle (h ++ [mk]) [] nd); [done|].
    rewrite length_app. simpl. lia. }
  assert (Hpar : parent_of ((h ++ [mk]) ++ [nd]) (length h) = None)
    by (unfold parent_of; by rewrite Hmk).
  rewrite children_of_heap_add_exact.
  - rewrite children_of_heap_add_other by (done || lia).
    by rewrite !children_of_app_l by (rewrite ?length_app; simpl; lia).
  - rewrite length_heap_add, !length_app. simpl. lia.
  - rewrite parent_of_heap_add_other by (done || lia).
    unfold parent_of. by rewrite Hnd.
Qed.

Lemma tracking_added m root pth tf h n :
  n < length h -> tracking (added m root pth tf h) n = tracking h n.
Proof.
  intros Hn. unfold added. rewrite !tracking_heap_add.
  by rewrite !tracking_app_l by (rewrite ?length_app; simpl; lia).
Qed.

Lemma length_added m root pth tf h :
  length (added m root pth tf h) = S (S (length h)).
Proof. unfold added. rewrite !length_heap_add, !length_app. simpl. lia. Qed.

Lemma added_lookup m root pth tf h :
  root < length h ->
  added m root pth tf h !! S (length h)
  = Some (mkObj (SceneNode (VStr (frame_id (header m))) tf VUndefined (truthy tf))
            (Some root) [length h] 0) /\
  added m root pth tf h !! length h
  = Some (mkObj (Geometry (Marker_new m pth)) (Some (S (length h))) [] 0).
Proof.
  intros Hroot. unfold added.
  set (mk := mkObj (Geometry (Marker_new m pth)) None [] 0).
  set (nd := mkObj (SceneNode _ tf VUndefined (truthy tf)) None [] 0).
  set (X := (h ++ [mk]) ++ [nd]).
  assert (Hmk : X !! length h = Some mk).
  { subst X. rewrite lookup_app_l by (rewrite length_app; simpl; lia).
    by rewrite list_lookup_middle. }
  assert (Hnd : X !! S (length h) = Some nd).
  { subst X. rewrite (list_lookup_middle (h ++ [mk]) [] nd); [done|].
    rewrite length_app. simpl. lia. }
  assert (Hpar : parent_of X (length h) = None) by (unfold parent_of; by rewrite Hmk).
  assert (Hpar' : parent_of (heap_add (S (length h)) (length h) X) (S (length h)) = None).
  { rewrite parent_of_heap_add_other by (done || lia). unfold parent_of. by rewrite Hnd. }
  assert (Hadd : heap_add root (S (length h)) (heap_add (S (length h)) (length h) X)
                 = alter (set_children (fun l => l ++ [S (length h)])) root
                     (alter (set_parent (Some root)) (S (length h))
                        (alter (set_children (fun l => l ++ [length h])) (S (length h))
                           (alter (set_parent (Some (S (length h)))) (length h) X)))).
  { unfold heap_add at 1. rewrite Hpar'. unfold heap_add. by rewrite Hpar. }
  rewrite Hadd. split.
  - rewrite list_lookup_alter_ne by lia. rewrite list_lookup_alter_eq.
    rewrite list_lookup_alter_eq. rewrite list_lookup_alter_ne by lia. by rewrite Hnd.
  - rewrite list_lookup_alter_ne by lia. rewrite list_lookup_alter_ne by lia.
    rewrite list_lookup_alter_ne by lia. rewrite list_lookup_alter_eq. by rewrite Hmk.
Qed.

Lemma disposals_added m root pth tf h x :
  x < length h -> disposals (added m root pth tf h) x = disposals h x.
Proof.
  intros Hx. unfold added. rewrite !disposals_heap_add. unfold disposals.
  by rewrite !lookup_app_l by (rewrite ?length_app; simpl; lia).
Qed.

(** An ADD/MODIFY directive whose in-place update succeeds touches the
    renderable only: Registry, child lists and the number of objects stay. *)
Lemma successful_update_in_place s m node c rest g par cs d :
  action m = 0%Z ->
  Js.get (key_of m) (markers (self s)) = Some node ->
  children_of (heap s) node = c :: rest ->
  heap s !! c = Some (mkObj (Geometry g) par cs d) ->
  (Marker_update g m).1 = true ->
  processMarker m s
  = Ok tt (with_heap (fun h => <[c := mkObj (Geometry (Marker_update g m).2) par cs d]> h) s).
Proof.
  intros Hact Hk Hcs Hc Hupd.
  unfold processMarker. rewrite Hact. simpl.
  rewrite (bind_Ok _ _ s s (markers (self s))) by reflexivity. rewrite Hk.
  erewrite (bind_Ok _ _ s _ true); [reflexivity|].
  erewrite (bind_Ok _ _ s _ true); [reflexivity|].
  unfold update_first_child. by rewrite Hcs, Hc, Hupd.
Qed.

(** An ADD/MODIFY directive for a key that is not in the Registry runs the
    ADD block. *)
Lemma add_directive_absent s m :
  action m = 0%Z ->
  Js.get (key_of m) (markers (self s)) = None ->
  processMarker m s = add_block m s.
Proof.
  intros Hact Hk. unfold processMarker. rewrite Hact. simpl.
  rewrite (bind_Ok _ _ s s (markers (self s))) by reflexivity. by rewrite Hk.
Qed.

End MarkerFacts.

Section MarkerDirectives.
Context `{MarkerBuilder}.
Import MarkerArrayClient.
Local Abbreviation State := (St MarkerState Client).
Implicit Types (s : State) (m : MarkerMsg).

(** C6.  A DELETE directive (action 2).  When the key [ns + id] is in the
    Registry, the directive returns normally and afterwards: the Registry
    has no entry for the key and its other entries are as before; the
    node's frame tracking is off; the node is no child of the root; the
    disposal hook of each child of the node was called exactly once more,
    and of no other object; topics and emitted events are untouched.  When
    the key is absent, the directive returns normally and the whole state
    is unchanged.  (The root's and the node's child lists are without
    repeats, the node is not the root, and objects are allocated, as in
    every scene built through [add].) *)
Theorem delete_directive s m :
  action m = 2%Z ->
  (Js.get (key_of m) (markers (self s)) = None -> processMarker m s = Ok tt s) /\
  (forall node,
      Js.get (key_of m) (markers (self s)) = Some node ->
      rootObject (self s) <> node ->
      NoDup (children_of (heap s) (rootObject (self s))) ->
      NoDup (children_of (heap s) node) ->
      let s' := final (processMarker m s) in
      returned (processMarker m s) = true /\
      Js.get (key_of m) (markers (self s')) = None /\
      (forall k, k <> key_of m ->
                 Js.get k (markers (self s')) = Js.get k (markers (self s))) /\
      tracking (heap s') node = false /\
      (node ∉ children_of (heap s') (rootObject (self s'))) /\
      (forall x, x < length (heap s) ->
                 disposals (heap s') x
                 = (if decide (x ∈ children_of (heap s) node)
                    then S (disposals (heap s) x) else disposals (heap s) x)) /\
      length (heap s') = length (heap s) /\
      topics s' = topics s /\ emitted s' = emitted s).
Proof.
  intros Hact. unfold processMarker. rewrite Hact. simpl. split.
  - apply removeMarker_absent.
  - intros node Hk Hroot Hnd_root Hnd_node.
    rewrite (removeMarker_present _ _ _ Hk). simpl.
    repeat split.
    + apply get_delete_eq.
    + intros k Hne. by apply get_delete_ne.
    + apply tracking_destroyed.
    + rewrite children_of_destroyed. rewrite decide_True by done.
      by apply splice_first_NoDup.
    + intros x Hx. by apply disposals_destroyed.
    + apply length_destroyed.
Qed.

(** C1, as the code has it.  An ADD/MODIFY directive (action 0) on a key
    already in the Registry whose in-place update reports failure, in a
    scene where the registered node is not the root and lists no child
    twice.  The old Displayed Entity is destroyed as by a DELETE: its
    tracking is off, its node is spliced out of the root's children (and is
    gone from them when the root listed no child twice), and the disposal
    hook of each of its children was called exactly once -- no other
    object's.  Then a fresh entity is inserted under the same key: a marker
    built from the directive and, after it, a node that hosts it, carries
    the directive's frame and the client's TF client, and is the last child
    of the root.  Neither object was allocated before; the key is bound to
    the new node and no other key changes; nothing is emitted and no topic
    is touched. *)
Theorem failed_update_rebuilds s m node c rest g par cs d :
  action m = 0%Z ->
  Js.get (key_of m) (markers (self s)) = Some node ->
  children_of (heap s) node = c :: rest ->
  heap s !! c = Some (mkObj (Geometry g) par cs d) ->
  (Marker_update g m).1 = false ->
  rootObject (self s) < length (heap s) ->
  rootObject (self s) <> node ->
  NoDup (children_of (heap s) node) ->
  let s' := final (processMarker m s) in
  let marker' := length (heap s) in
  let node' := S (length (heap s)) in
  returned (processMarker m s) = true /\
  heap s !! node' = None /\
  Js.get (key_of m) (markers (self s')) = Some node' /\
  children_of (heap s') (rootObject (self s'))
  = splice_first node (children_of (heap s) (rootObject (self s))) ++ [node'] /\
  tracking (heap s') node = false /\
  length (heap s') = S (S (length (heap s))) /\
  (forall k, k <> key_of m ->
             Js.get k (markers (self s')) = Js.get k (markers (self s))) /\
  (NoDup (children_of (heap s) (rootObject (self s))) ->
   node ∉ children_of (heap s') (rootObject (self s'))) /\
  (forall x, x < length (heap s) ->
             disposals (heap s') x
             = (if decide (x ∈ children_of (heap s) node)
                then S (disposals (heap s) x) else disposals (heap s) x)) /\
  heap s !! marker' = None /\
  heap s' !! marker'
  = Some (mkObj (Geometry (Marker_new m (path (self s)))) (Some node') [] 0) /\
  heap s' !! node'
  = Some (mkObj (SceneNode (VStr (frame_id (header m))) (tfClient (self s)) VUndefined
                   (truthy (tfClient (self s))))
            (Some (rootObject (self s))) [marker'] 0) /\
  emitted s' = emitted s /\ topics s' = topics s.
Proof.
  intros Hact Hk Hcs Hc Hupd Hroot Hne Hnd.
  set (h1 := <[c := mkObj (Geometry (Marker_update g m).2) par cs d]> (heap s)).
  set (h2 := destroyed (rootObject (self s)) node h1).
  assert (Hlen1 : length h1 = length (heap s)) by (subst h1; by rewrite length_insert).
  assert (Hlen : length h2 = length (heap s)).
  { subst h2. by rewrite length_destroyed. }
  assert (Hrun : processMarker m s
                 = Ok tt (mkSt (added m (rootObject (self s)) (path (self s))
                                  (tfClient (self s)) h2)
                            (topics s) (console s) (emitted s)
                            (set_markers (Js.set (key_of m) (S (length h2)))
                               (set_markers (Js.delete (key_of m)) (self s))))).
  { unfold processMarker. rewrite Hact. simpl.
    rewrite (bind_Ok _ _ s s (markers (self s))) by reflexivity. rewrite Hk.
    erewrite (bind_Ok _ _ s _ false); cycle 1.
    { erewrite (bind_Ok _ _ s _ false); cycle 1.
      { unfold update_first_child. rewrite Hcs, Hc, Hupd. reflexivity. }
      simpl. erewrite bind_Ok; [reflexivity|].
      by rewrite (removeMarker_present _ _ node). }
    simpl. rewrite add_block_runs
      by (simpl; rewrite length_destroyed, length_insert; lia).
    reflexivity. }
  intros s' marker' node'. subst s'. rewrite Hrun. simpl. rewrite Hlen.
  assert (Hnode : node < length (heap s)) by (by eapply children_of_allocated).
  assert (Hroot2 : rootObject (self s) < length h2) by lia.
  destruct (added_lookup m (rootObject (self s)) (path (self s)) (tfClient (self s)) h2 Hroot2)
    as [Hnew_node Hnew_marker].
  rewrite Hlen in Hnew_node, Hnew_marker.
  assert (Hcs1 : forall q, children_of h1 q = children_of (heap s) q).
  { intros q. subst h1. by rewrite (children_of_insert_same _ _ _ _ _ _ _ _ Hc). }
  assert (Hchildren :
            children_of (added m (rootObject (self s)) (path (self s)) (tfClient (self s)) h2)
              (rootObject (self s))
            = splice_first node (children_of (heap s) (rootObject (self s))) ++ [node']).
  { rewrite children_of_added by lia. rewrite Hlen.
    subst h2. rewrite children_of_destroyed, decide_True by done. by rewrite Hcs1. }
  split; [done|].
  split; [apply lookup_ge_None_2; subst node'; lia|].
  split; [apply get_set_eq|].
  split; [exact Hchildren|].
  split; [rewrite tracking_added by lia; apply tracking_destroyed|].
  split; [by rewrite length_added, Hlen|].
  split.
  { intros k Hk'. rewrite get_set_ne by done. by apply get_delete_ne. }
  split.
  { intros Hnd_root. rewrite Hchildren. rewrite elem_of_app. intros [Hin|Hin].
    - by apply (splice_first_NoDup node _ Hnd_root).
    - apply list_elem_of_singleton in Hin. subst node'. lia. }
  split.
  { intros x Hx. rewrite disposals_added by lia. subst h2.
    rewrite disposals_destroyed by (done || rewrite ?Hcs1; done || lia).
    rewrite Hcs1. subst h1. by rewrite (disposals_insert_same _ _ _ _ _ _ _ _ Hc). }
  split; [apply lookup_ge_None_2; subst marker'; lia|].
  split; [exact Hnew_marker|].
  split; [exact Hnew_node|]. done.
Qed.

End MarkerDirectives.

(** The Registry after [{ns: 'a', id: 1, action: 0}] on a fresh client holds
    the node 2 under ['a1']; the DELETE directive for the same pair then
    destroys it. *)
Lemma delete_directive_witness :
  let s := final (MarkerArrayClient.processMessage (H := Samples.rebuilding)
                    [Samples.marker "a" 1 0]
                    (final (MarkerArrayClient.constructor Samples.marker_options []))) in
  let s' := final (MarkerArrayClient.processMarker (Samples.marker "a" 1 2) s) in
  Js.get "a1" (MarkerArrayClient.markers (self s)) = Some 2 /\
  Js.get "a1" (MarkerArrayClient.markers (self s')) = None /\
  tracking (heap s) 2 = true /\
  tracking (heap s') 2 = false /\
  (2 ∉ children_of (heap s') 0) /\
  disposals (heap s') 1 = 1.
Proof.
  intros s s'.
  destruct (delete_directive (H := Samples.rebuilding) s (Samples.marker "a" 1 2) eq_refl)
    as [_ Hpresent].
  destruct (Hpresent 2) as (_ & Hgone & _ & Htr & Hdet & Hdisp & _).
  - reflexivity.
  - vm_compute. lia.
  - apply (bool_decide_unpack _). vm_compute. exact I.
  - apply (bool_decide_unpack _). vm_compute. exact I.
  - split; [reflexivity|]. split; [exact Hgone|]. split; [reflexivity|].
    split; [exact Htr|]. split; [exact Hdet|].
    exact (Hdisp 1 ltac:(vm_compute; lia)).
Defined.

(** On the client that shows the marker ['a', 1], a second ADD/MODIFY for
    the same pair with the rebuilding builder: the entity under ['a1'] is
    destroyed, its marker disposed once, and replaced by a new one. *)
Lemma failed_update_rebuilds_witness :
  let s := final (MarkerArrayClient.processMessage (H := Samples.rebuilding)
                    [Samples.marker "a" 1 0]
                    (final (MarkerArrayClient.constructor Samples.marker_options []))) in
  let s' := final (MarkerArrayClient.processMarker (Samples.marker "a" 1 0) s) in
  Js.get "a1" (MarkerArrayClient.markers (self s)) = Some 2 /\
  Js.get "a1" (MarkerArrayClient.markers (self s')) = Some 4 /\
  children_of (heap s') 0 = [4] /\
  tracking (heap s') 2 = false /\
  disposals (heap s) 1 = 0 /\
  disposals (heap s') 1 = 1 /\
  children_of (heap s') 4 = [3].
Proof.
  intros s s'.
  destruct (failed_update_rebuilds (H := Samples.rebuilding) s (Samples.marker "a" 1 0)
              2 1 [] (Samples.marker "a" 1 0) (Some 2) [] 0)
    as (_ & _ & Hkey & Hroot & Htr & _ & _ & _ & Hdisp & _).
  - reflexivity.
  - reflexivity.
  - reflexivity.
  - reflexivity.
  - reflexivity.
  - vm_compute. lia.
  - vm_compute. lia.
  - apply (bool_decide_unpack _). vm_compute. exact I.
  - split; [reflexivity|]. split; [exact Hkey|]. split; [exact Hroot|].
    split; [exact Htr|]. split; [reflexivity|].
    split; [exact (Hdisp 1 ltac:(vm_compute; lia)) | reflexivity].
Defined.

(** With a builder whose renderables take every update in place, the same
    second directive leaves the Registry, the root and the number of
    objects as they were. *)
Example update_in_place_example :
  let s := final (MarkerArrayClient.processMessage (H := Samples.updating)
                    [Samples.marker "a" 1 0]
                    (final (MarkerArrayClient.constructor Samples.marker_options []))) in
  let s' := final (MarkerArrayClient.processMarker (Samples.marker "a" 1 0) s) in
  MarkerArrayClient.markers (self s') = [("a1", 2)] /\
  children_of (heap s') 0 = [2] /\
  length (heap s') = 3 /\
  tracking (heap s') 2 = true.
Proof. vm_compute. by repeat split. Qed.

(** C1, as stated, fails: after a failed in-place update the key is not
    absent from the Registry, and a node that did not exist before the
    directive is attached to the root. *)
Lemma failed_update_reinserts :
  let s := final (MarkerArrayClient.processMessage (H := Samples.rebuilding)
                    [Samples.marker "a" 1 0]
                    (final (MarkerArrayClient.constructor Samples.marker_options []))) in
  let m := Samples.marker "a" 1 0 in
  let s' := final (MarkerArrayClient.processMarker m s) in
  Js.get (MarkerArrayClient.key_of m) (MarkerArrayClient.markers (self s)) = Some 2 /\
  MarkerArrayClient.update_first_child 2 m s = Ok false s /\
  ~ (Js.get (MarkerArrayClient.key_of m) (MarkerArrayClient.markers (self s')) = None /\
     children_of (heap s') (MarkerArrayClient.rootObject (self s')) = []) /\
  heap s !! 4 = None /\
  children_of (heap s') (MarkerArrayClient.rootObject (self s')) = [4].
Proof.
  vm_compute. repeat split; intros [Hk _]; discriminate Hk.
Qed.

(** C8.  The Registry key is the concatenation [ns + id], so the distinct
    pairs ('a1', 2) and ('a', 12) address the same entry: after an ADD for
    the first, a DELETE for the second empties the Registry and destroys
    the first pair's entity. *)
Theorem registry_key_collision :
  let add := Samples.marker "a1" 2 0 in
  let del := Samples.marker "a" 12 2 in
  let s0 := final (MarkerArrayClient.constructor (H := Samples.rebuilding)
                     Samples.marker_options []) in
  let s1 := final (MarkerArrayClient.processMessage [add] s0) in
  let s2 := final (MarkerArrayClient.processMessage [del] s1) in
  (ns add, id add) <> (ns del, id del) /\
  MarkerArrayClient.key_of add = MarkerArrayClient.key_of del /\
  MarkerArrayClient.markers (self s1) = [("a12", 2)] /\
  children_of (heap s1) (MarkerArrayClient.rootObject (self s1)) = [2] /\
  MarkerArrayClient.markers (self s2) = [] /\
  children_of (heap s2) (MarkerArrayClient.rootObject (self s2)) = [] /\
  disposals (heap s2) 1 = 1.
Proof.
  vm_compute. repeat split. intros Heq. discriminate Heq.
Qed.

(** * Topics and [unsubscribe] *)

Lemma is_subscribed_alter_false (ts : list Topic) (t t' : TopicId) :
  is_subscribed ts t' = false \/ t = t' ->
  is_subscribed (alter (set_subscribed false) t ts) t' = false.
Proof.
  unfold is_subscribed. intros [Hs| ->].
  - destruct (decide (t = t')) as [->|Hne].
    + rewrite list_lookup_alter_eq. by destruct (ts !! t').
    + by rewrite list_lookup_alter_ne.
  - rewrite list_lookup_alter_eq. by destruct (ts !! t').
Qed.

(** Tearing a topic down changes the topic table only, leaves [t]
    unsubscribed, subscribes nothing, and changes nothing when [t] was not
    subscribed. *)
Lemma Topic_unsubscribe_spec {G C} (t : TopicId) (s : St G C) :
  exists ts',
    Topic_unsubscribe t s = Ok tt (mkSt (heap s) ts' (console s) (emitted s) (self s)) /\
    is_subscribed ts' t = false /\
    (forall t', is_subscribed (topics s) t' = false -> is_subscribed ts' t' = false) /\
    (is_subscribed (topics s) t = false -> ts' = topics s).
Proof.
  destruct s as [h ts con em sf]. unfold Topic_unsubscribe. simpl.
  destruct (is_subscribed ts t) eqn:Hs.
  - exists (alter (set_subscribed false) t ts). repeat split.
    + apply is_subscribed_alter_false. by right.
    + intros t' Ht'. apply is_subscribed_alter_false. by left.
    + done.
  - exists ts. by repeat split.
Qed.

Section Unsubscribe.
Context {G C : Type} (rosTopic : C -> option TopicId).
Implicit Types s : St G C.

Lemma unsubscribe_of_spec s :
  let s1 := final (unsubscribe_of rosTopic s) in
  returned (unsubscribe_of rosTopic s) = true /\
  unsubscribe_of rosTopic s1 = Ok tt s1 /\
  active_subscription rosTopic s1 = false /\
  (active_subscription rosTopic s = false -> unsubscribe_of rosTopic s = Ok tt s) /\
  heap s1 = heap s /\ emitted s1 = emitted s /\ self s1 = self s.
Proof.
  unfold unsubscribe_of, active_subscription, bind, this, gets. simpl.
  destruct s as [h ts con em sf]. simpl.
  destruct (rosTopic sf) as [t|] eqn:Hrt; simpl; [|by rewrite Hrt].
  destruct (Topic_unsubscribe_spec t (mkSt h ts con em sf)) as (ts' & -> & Hoff & _ & Hsame).
  simpl in *. rewrite Hrt. repeat split; try done.
  - destruct (Topic_unsubscribe_spec t (mkSt h ts' con em sf)) as (ts'' & -> & _ & _ & Hsame').
    simpl in *. by rewrite (Hsame' Hoff).
  - intros Hs. by rewrite (Hsame Hs).
Qed.

(** What [unsubscribe()] does to the topic table: the recorded topic is not
    subscribed afterwards, every other topic is as it was, and no topic is
    created or dropped. *)
Lemma unsubscribe_of_topics s :
  let s1 := final (unsubscribe_of rosTopic s) in
  console s1 = console s /\
  length (topics s1) = length (topics s) /\
  (forall t, rosTopic (self s) = Some t -> is_subscribed (topics s1) t = false) /\
  (forall t', rosTopic (self s) <> Some t' -> topics s1 !! t' = topics s !! t').
Proof.
  unfold unsubscribe_of, bind, this, gets. simpl.
  destruct s as [h ts con em sf]. simpl.
  destruct (rosTopic sf) as [t|] eqn:Hrt; simpl; [|done].
  unfold Topic_unsubscribe. simpl.
  destruct (is_subscribed ts t) eqn:Hs; simpl.
  - split; [done|]. split; [apply length_alter|]. split.
    + intros t0 [= <-]. apply is_subscribed_alter_false. by right.
    + intros t' Hne. apply list_lookup_alter_ne. congruence.
  - split; [done|]. split; [done|]. split; [|done].
    by intros t0 [= <-].
Qed.

End Unsubscribe.

(** C7.  For each of the three clients and every client state:
    [unsubscribe()] returns normally; calling it again on the state it
    leaves changes nothing; afterwards the client's recorded topic has no
    live subscription; and when there was no live subscription to begin
    with, the call changes nothing.  The call touches the topic table only:
    the client's fields (the recorded topic among them), the scene, the
    emitted events and the console are what they were; in the table the
    recorded topic is not subscribed afterwards, every other topic is as it
    was, and no topic is created or dropped. *)
Theorem unsubscribe_idempotent :
  (forall (B : MarkerBuilder) (s : St MarkerState MarkerArrayClient.Client),
      let s1 := final (MarkerArrayClient.unsubscribe s) in
      returned (MarkerArrayClient.unsubscribe s) = true /\
      MarkerArrayClient.unsubscribe s1 = Ok tt s1 /\
      active_subscription MarkerArrayClient.rosTopic s1 = false /\
      (active_subscription MarkerArrayClient.rosTopic s = false ->
       MarkerArrayClient.unsubscribe s = Ok tt s) /\
      self s1 = self s /\ heap s1 = heap s /\ emitted s1 = emitted s /\
      console s1 = console s /\
      length (topics s1) = length (topics s) /\
      (forall t, MarkerArrayClient.rosTopic (self s) = Some t ->
                 is_subscribed (topics s1) t = false) /\
      (forall t', MarkerArrayClient.rosTopic (self s) <> Some t' ->
                  topics s1 !! t' = topics s !! t')) /\
  (forall (s : St OccupancyGridClient.OccupancyGrid OccupancyGridClient.Client),
      let s1 := final (OccupancyGridClient.unsubscribe s) in
      returned (OccupancyGridClient.unsubscribe s) = true /\
      OccupancyGridClient.unsubscribe s1 = Ok tt s1 /\
      active_subscription OccupancyGridClient.rosTopic s1 = false /\
      (active_subscription OccupancyGridClient.rosTopic s = false ->
       OccupancyGridClient.unsubscribe s = Ok tt s) /\
      self s1 = self s /\ heap s1 = heap s /\ emitted s1 = emitted s /\
      console s1 = console s /\
      length (topics s1) = length (topics s) /\
      (forall t, OccupancyGridClient.rosTopic (self s) = Some t ->
                 is_subscribed (topics s1) t = false) /\
      (forall t', OccupancyGridClient.rosTopic (self s) <> Some t' ->
                  topics s1 !! t' = topics s !! t')) /\
  (forall (s : St OcTreeClient.Voxels OcTreeClient.Client),
      let s1 := final (OcTreeClient.unsubscribe s) in
      returned (OcTreeClient.unsubscribe s) = true /\
      OcTreeClient.unsubscribe s1 = Ok tt s1 /\
      active_subscription OcTreeClient.rosTopic s1 = false /\
      (active_subscription OcTreeClient.rosTopic s = false ->
       OcTreeClient.unsubscribe s = Ok tt s) /\
      self s1 = self s /\ heap s1 = heap s /\ emitted s1 = emitted s /\
      console s1 = console s /\
      length (topics s1) = length (topics s) /\
      (forall t, OcTreeClient.rosTopic (self s) = Some t ->
                 is_subscribed (topics s1) t = false) /\
      (forall t', OcTreeClient.rosTopic (self s) <> Some t' ->
                  topics s1 !! t' = topics s !! t')).
Proof.
  split; [|split].
  - intros B s.
    destruct (unsubscribe_of_spec MarkerArrayClient.rosTopic s)
      as (H1 & H2 & H3 & H4 & H5 & H6 & H7).
    destruct (unsubscribe_of_topics MarkerArrayClient.rosTopic s) as (H8 & H9 & H10 & H11).
    exact (conj H1 (conj H2 (conj H3 (conj H4 (conj H7 (conj H5 (conj H6
             (conj H8 (conj H9 (conj H10 H11)))))))))).
  - intros s.
    destruct (unsubscribe_of_spec OccupancyGridClient.rosTopic s)
      as (H1 & H2 & H3 & H4 & H5 & H6 & H7).
    destruct (unsubscribe_of_topics OccupancyGridClient.rosTopic s) as (H8 & H9 & H10 & H11).
    exact (conj H1 (conj H2 (conj H3 (conj H4 (conj H7 (conj H5 (conj H6
             (conj H8 (conj H9 (conj H10 H11)))))))))).
  - intros s.
    destruct (unsubscribe_of_spec OcTreeClient.rosTopic s)
      as (H1 & H2 & H3 & H4 & H5 & H6 & H7).
    destruct (unsubscribe_of_topics OcTreeClient.rosTopic s) as (H8 & H9 & H10 & H11).
    exact (conj H1 (conj H2 (conj H3 (conj H4 (conj H7 (conj H5 (conj H6
             (conj H8 (conj H9 (conj H10 H11)))))))))).
Qed.

(** A grid client unsubscribes: its topic 0, live after construction, is
    torn down and still recorded; a further [unsubscribe()] leaves the
    state as it is. *)
Lemma unsubscribe_idempotent_witness :
  let s0 := final (OccupancyGridClient.constructor Samples.plain_options []) in
  let s := final (OccupancyGridClient.unsubscribe s0) in
  is_subscribed (topics s0) 0 = true /\
  is_subscribed (topics s) 0 = false /\
  OccupancyGridClient.rosTopic (self s) = Some 0 /\
  active_subscription OccupancyGridClient.rosTopic s = false /\
  OccupancyGridClient.unsubscribe s = Ok tt s.
Proof.
  intros s0 s.
  destruct unsubscribe_idempotent as (_ & Hgrid & _).
  destruct (Hgrid s0) as (_ & _ & _ & _ & _ & _ & _ & _ & _ & Hoff & _).
  destruct (Hgrid s) as (_ & _ & _ & Hnoop & _).
  split; [reflexivity|]. split; [apply Hoff; reflexivity|].
  split; [reflexivity|]. split; [reflexivity | apply Hnoop; reflexivity].
Defined.

(** * Single-shot clients *)

(** Unfold the monad's plumbing. *)
Ltac run :=
  unfold bind, this, gets, assign_this, modify, when, ret, throw, emit, new_Geometry,
    new_SceneNode, Object3D_add, Object3D_remove, unsubscribeTf, dispose,
    console_write, alloc, bind, modify; simpl.

Ltac split_eqb :=
  repeat match goal with
         | |- context [if Nat.eqb ?a ?b then _ else _] => destruct (Nat.eqb a b); simpl
         end.

Section GridFacts.
Import OccupancyGridClient.
#[local] Arguments truthy : simpl never.
#[local] Arguments heap_add : simpl never.
#[local] Arguments heap_remove : simpl never.
#[local] Arguments Nat.eqb : simpl never.
#[local] Arguments is_subscribed : simpl never.
Implicit Types (s : St OccupancyGrid Client) (m : Msg).



End GridFacts.

Section OcTreeFacts.
Context `{OcTreeDecoder}.
Import OcTreeClient.
#[local] Arguments truthy : simpl never.
#[local] Arguments heap_add : simpl never.
#[local] Arguments heap_remove : simpl never.
#[local] Arguments Nat.eqb : simpl never.
#[local] Arguments is_subscribed : simpl never.
#[local] Arguments Js.in_ : simpl never.
#[local] Arguments Js.get : simpl never.
#[local] Arguments Js.assign : simpl never.
Implicit Types (s : St Voxels Client) (m : Msg).

Lemma octree_constructor_state (o : Options.t) scene :
  exists h tp sf,
    constructor o scene = Ok tt (mkSt h [tp] [] [] sf) /\
    subscribed tp = true /\
    rosTopic sf = Some 0 /\ currentMap sf = None /\ sceneNode sf = None /\
    microtasks sf = [] /\
    continuous sf = Options.continuous o.
Proof.
  unfold constructor, root_or_new.
  destruct (Options.rootObject o); simpl; by do 3 eexists.
Qed.

Lemma install_spec tree msg s :
  exists s', install tree msg s = Ok tt s' /\
    topics s' = topics s /\
    microtasks (self s') = microtasks (self s) /\
    rosTopic (self s') = rosTopic (self s) /\
    emitted s' = emitted s ++ ["change"].
Proof.
  destruct s as [h ts con em [? ? ? cont tf root ? ? cm rt sn mt]].
  unfold install. run.
  destruct (truthy tf); simpl; run; split_eqb; destruct sn; simpl; run; split_eqb;
    by eexists.
Qed.

Lemma run_microtasks_idle s : microtasks (self s) = [] -> run_microtasks s = Ok tt s.
Proof.
  destruct s as [h ts con em [? ? ? ? ? ? ? ? ? ? ? mt]]. simpl. intros ->.
  reflexivity.
Qed.


End OcTreeFacts.




(** * OcTreeClient: a message no decoder matches *)

Section UnknownTree.
Context `{OcTreeDecoder}.
Import OcTreeClient.
#[local] Arguments truthy : simpl never.
#[local] Arguments is_subscribed : simpl never.
#[local] Arguments Js.in_ : simpl never.
#[local] Arguments Js.assign : simpl never.
#[local] Arguments Js.get : simpl never.
Implicit Types (s : St Voxels Client) (m : Msg).

Lemma ctorTable_unknown (k : string) :
  k <> "OcTree" -> k <> "ColorOcTree" -> Js.get k ctorTable = None.
Proof.
  intros H1 H2. unfold ctorTable, Js.get.
  by rewrite (proj2 (String.eqb_neq _ _) H1), (proj2 (String.eqb_neq _ _) H2).
Qed.

(** The executor throws before any tree exists; at most the console saw
    the discriminator. *)
Lemma executor_unknown s m :
  binary m = false -> Js.get (id m) ctorTable = None ->
  exists e con',
    executor m s = Throw e (mkSt (heap s) (topics s) con' (emitted s) (self s)).
Proof.
  intros Hb Hk. destruct s as [h ts con em sf].
  unfold executor. run. rewrite Hb, Hk.
  destruct (Js.in_ (id m) ctorTable); simpl; by do 2 eexists.
Qed.

Lemma handler_unknown s m :
  binary m = false -> Js.get (id m) ctorTable = None ->
  exists ts' con',
    final (processMessage m s) = mkSt (heap s) ts' con' (emitted s) (self s).
Proof.
  intros Hb Hk.
  unfold processMessage, _processMessagePrivate, _loadOcTree, new_Promise, Tree_tfClient.
  assert (Hguard : forall s0 : St Voxels Client,
             match currentMap (self s0) with
             | Some _ => when (truthy VUndefined)
                           (throw "TypeError: this.currentMap.unsubscribeTf is not a function")
             | None => ret tt
             end s0 = Ok tt s0).
  { intros s0. by destruct (currentMap (self s0)). }
  unfold bind at 1. unfold this at 1. unfold gets at 1.
  unfold bind at 1. rewrite Hguard.
  unfold bind at 1. unfold bind at 1.
  destruct (executor_unknown s m Hb Hk) as (e & con' & ->).
  destruct s as [h ts con em sf]. simpl.
  unfold rosTopic_unsubscribe. run.
  destruct (truthy (continuous sf)); simpl; [by do 2 eexists|].
  destruct (rosTopic sf) as [t|]; simpl; [|by do 2 eexists].
  match goal with
  | |- context [Topic_unsubscribe t ?s0] =>
      destruct (Topic_unsubscribe_spec t s0) as (ts' & -> & _)
  end.
  by do 2 eexists.
Qed.

(** C4.  A message with [binary] false whose [id] is neither 'OcTree' nor
    'ColorOcTree', handled in a state with no callback pending (as between
    any two deliveries).  Stage 1: the promise of [_loadOcTree] is
    rejected, and no object was created.  Stage 2: no install callback is
    queued by the handler.  After the delivery (handler, then queued
    callbacks) the Current Singleton [currentMap], the top-level node
    [sceneNode], the whole store of scene objects (root container
    included) and the list of emitted events are what they were before.
    On a freshly constructed client the singleton was null and stays
    null. *)
Theorem unknown_tree_type_changes_nothing s m (t : TopicId) :
  binary m = false -> id m <> "OcTree" -> id m <> "ColorOcTree" ->
  microtasks (self s) = [] ->
  (exists e s1, _loadOcTree m s = Ok (Rejected e) s1 /\ heap s1 = heap s /\ self s1 = self s) /\
  microtasks (self (final (processMessage m s))) = [] /\
  (let s' := final (deliver t m s) in
   currentMap (self s') = currentMap (self s) /\
   sceneNode (self s') = sceneNode (self s) /\
   heap s' = heap s /\
   emitted s' = emitted s) /\
  (forall o scene,
      currentMap (self (final (constructor o scene))) = None /\
      currentMap (self (final (deliver 0 m (final (constructor o scene))))) = None).
Proof.
  intros Hb Hn1 Hn2 Hmt.
  pose proof (ctorTable_unknown _ Hn1 Hn2) as Hk.
  assert (Hdeliver : forall s0 t0, microtasks (self s0) = [] ->
             let s' := final (deliver t0 m s0) in
             heap s' = heap s0 /\ self s' = self s0 /\ emitted s' = emitted s0).
  { intros s0 t0 Hq. unfold deliver, transport_deliver.
    destruct (is_subscribed (topics s0) t0).
    - destruct (handler_unknown s0 m Hb Hk) as (ts' & con' & ->).
      by rewrite run_microtasks_idle.
    - simpl. by rewrite run_microtasks_idle. }
  repeat split.
  - destruct (executor_unknown s m Hb Hk) as (e & con' & Hex).
    exists e. eexists. unfold _loadOcTree, new_Promise. rewrite Hex. by simpl.
  - by destruct (handler_unknown s m Hb Hk) as (ts' & con' & ->).
  - destruct (Hdeliver s t Hmt) as (_ & -> & _). done.
  - destruct (Hdeliver s t Hmt) as (_ & -> & _). done.
  - by destruct (Hdeliver s t Hmt) as (-> & _ & _).
  - by destruct (Hdeliver s t Hmt) as (_ & _ & ->).
  - destruct (octree_constructor_state o scene) as (h & tp & sf & -> & _ & _ & Hcm & _).
    done.
  - destruct (octree_constructor_state o scene)
      as (h & tp & sf & -> & _ & _ & Hcm & _ & Hq & _).
    simpl. destruct (Hdeliver (mkSt h [tp] [] [] sf) 0 Hq) as (_ & -> & _). done.
Qed.

End UnknownTree.

(** A fresh octree client receives a 'PointCloud' message in full encoding. *)
Lemma unknown_tree_type_changes_nothing_witness :
  let s0 := final (OcTreeClient.constructor Samples.plain_options []) in
  let s' := final (OcTreeClient.deliver (H := Samples.reading) 0
                     (Samples.octree_message false "PointCloud") s0) in
  OcTreeClient.currentMap (self s') = None /\
  heap s' = heap s0 /\
  emitted s' = [].
Proof.
  intros s0 s'.
  destruct (unknown_tree_type_changes_nothing (H := Samples.reading) s0
              (Samples.octree_message false "PointCloud") 0)
    as (_ & _ & (Hcm & _ & Hh & He) & _).
  - reflexivity.
  - simpl. discriminate.
  - simpl. discriminate.
  - reflexivity.
  - split; [exact Hcm|]. split; [exact Hh | exact He].
Defined.

(** * Construction defaults *)

Lemma truthy_zero : truthy (VNum 0) = false.
Proof. reflexivity. Qed.

Lemma or_falsy (v d : Val) : truthy v = false -> Js.or v d = d.
Proof. intros Hv. unfold Js.or. by rewrite Hv. Qed.

(** C10.  The grid client's defaults are applied with [||].  Constructed
    with [opacity: 0.0] the client has opacity 1.0, and the construction
    gives the very state it gives with [opacity] left out.  Likewise for
    every falsy value [v] (0, -0, NaN, '', null, false, undefined): an
    [opacity] or [color] of [v] is replaced by the default (1.0, white) and
    cannot be told from a missing one. *)
Theorem falsy_options_take_defaults (o : Options.t)
    (scene : list (Obj OccupancyGridClient.OccupancyGrid)) :
  let built o' := self (final (OccupancyGridClient.constructor o' scene)) in
  OccupancyGridClient.opacity (built (with_opacity (VNum 0) o)) = VNum 1 /\
  OccupancyGridClient.constructor (with_opacity (VNum 0) o) scene
  = OccupancyGridClient.constructor (with_opacity VUndefined o) scene /\
  (forall v, truthy v = false ->
     OccupancyGridClient.opacity (built (with_opacity v o)) = VNum 1 /\
     OccupancyGridClient.constructor (with_opacity v o) scene
     = OccupancyGridClient.constructor (with_opacity VUndefined o) scene /\
     OccupancyGridClient.color (built (with_color v o))
     = VRecord [("r", VNum 255); ("g", VNum 255); ("b", VNum 255)] /\
     OccupancyGridClient.constructor (with_color v o) scene
     = OccupancyGridClient.constructor (with_color VUndefined o) scene).
Proof.
  assert (Hgen : forall v, truthy v = false ->
     OccupancyGridClient.opacity
       (self (final (OccupancyGridClient.constructor (with_opacity v o) scene))) = VNum 1 /\
     OccupancyGridClient.constructor (with_opacity v o) scene
     = OccupancyGridClient.constructor (with_opacity VUndefined o) scene /\
     OccupancyGridClient.color
       (self (final (OccupancyGridClient.constructor (with_color v o) scene)))
     = VRecord [("r", VNum 255); ("g", VNum 255); ("b", VNum 255)] /\
     OccupancyGridClient.constructor (with_color v o) scene
     = OccupancyGridClient.constructor (with_color VUndefined o) scene).
  { intros v Hv. unfold OccupancyGridClient.constructor, root_or_new. simpl.
    rewrite !(or_falsy v) by done.
    destruct (Options.rootObject o); simpl; by repeat split. }
  intros built. subst built.
  destruct (Hgen (VNum 0) truthy_zero) as (H1 & H2 & _).
  split; [exact H1|]. split; [exact H2|]. exact Hgen.
Qed.

(** [{ros, opacity: 0, color: ''}] behaves as [{ros}]. *)
Lemma falsy_options_take_defaults_witness :
  OccupancyGridClient.constructor (with_opacity (VNum 0) Samples.plain_options) []
  = OccupancyGridClient.constructor Samples.plain_options [] /\
  OccupancyGridClient.constructor (with_color (VStr "") Samples.plain_options) []
  = OccupancyGridClient.constructor Samples.plain_options [].
Proof.
  destruct (falsy_options_take_defaults Samples.plain_options []) as (_ & H0 & Hv).
  destruct (Hv (VStr "") eq_refl) as (_ & _ & _ & Hc).
  split; [exact H0 | exact Hc].
Defined.

(** * OcTreeClient: the options handed to the converter *)

(** What the constructor collects under each of the four hint keys. *)
Lemma converter_options_keys (o : Options.t) :
  let opts := OcTreeClient.converter_options o in
  Js.get "colorMode" opts
  = (if defined (Options.colorMode o) then Some (Options.colorMode o) else None) /\
  Js.get "palette" opts
  = (if defined (Options.palette o) then Some (Options.palette o) else None) /\
  Js.get "voxelRenderMode" opts
  = (if defined (Options.voxelRenderMode o) then Some (Options.voxelRenderMode o) else None) /\
  Js.get "paletteScale" opts
  = (if defined (Options.paletteScale o) then Some (Options.palette o) else None).
Proof.
  unfold OcTreeClient.converter_options, OcTreeClient.append_when_set.
  destruct (defined (Options.color o)), (defined (Options.opacity o)),
    (defined (Options.colorMode o)), (defined (Options.palette o)),
    (defined (Options.paletteScale o)), (defined (Options.voxelRenderMode o));
    by repeat split.
Qed.

(** C9.  [paletteScale] is not passed through.  For every option object,
    [colorMode], [palette] and [voxelRenderMode] reach the converter with
    their own value when set and not at all otherwise, but under
    [paletteScale] the converter is given the value of [palette].  So with
    [{ros, paletteScale: 2}] it receives [paletteScale: undefined], and with
    [{ros, palette: P, paletteScale: 2}] it receives [P] under both keys --
    the tree built from a message carries these options. *)
Theorem paletteScale_takes_palette :
  (forall o : Options.t,
      let opts := OcTreeClient.converter_options o in
      Js.get "colorMode" opts
      = (if defined (Options.colorMode o) then Some (Options.colorMode o) else None) /\
      Js.get "palette" opts
      = (if defined (Options.palette o) then Some (Options.palette o) else None) /\
      Js.get "voxelRenderMode" opts
      = (if defined (Options.voxelRenderMode o)
         then Some (Options.voxelRenderMode o) else None) /\
      Js.get "paletteScale" opts
      = (if defined (Options.paletteScale o) then Some (Options.palette o) else None)) /\
  (let scale := VNum 2 in
   let P := VHandle 5 in
   let o1 := with_palette VUndefined scale Samples.plain_options in
   let o2 := with_palette P scale Samples.plain_options in
   let forwarded o :=
     OcTreeClient.tree_options
       <$> (OcTreeClient.voxels
              <$> OcTreeClient.currentMap
                    (self (final (OcTreeClient.deliver (H := Samples.reading) 0
                                    (Samples.octree_message false "OcTree")
                                    (final (OcTreeClient.constructor o [])))))) in
   Js.get "paletteScale" (OcTreeClient.converter_options o1) = Some VUndefined /\
   Js.get "paletteScale" (OcTreeClient.converter_options o2) = Some P /\
   forwarded o1 = Some [("resolution", VNum 1); ("paletteScale", VUndefined)] /\
   forwarded o2 = Some [("resolution", VNum 1); ("palette", P); ("paletteScale", P)]).
Proof.
  split.
  - apply converter_options_keys.
  - vm_compute. by repeat split.
Qed.

(** * Stores that release nothing *)

Section Unreleased.
Context {G : Type}.
Implicit Types (h : list (Obj G)) (o : Obj G).

Lemma unreleased_refl h : unreleased h h.
Proof. by repeat split. Qed.

Lemma unreleased_trans h1 h2 h3 : unreleased h1 h2 -> unreleased h2 h3 -> unreleased h1 h3.
Proof.
  intros (Hl1 & Hd1 & Ht1) (Hl2 & Hd2 & Ht2). repeat split.
  - lia.
  - intros x. by rewrite Hd2, Hd1.
  - intros x Hx. rewrite Ht2 by lia. by apply Ht1.
Qed.

Lemma unreleased_alloc h b :
  unreleased h (h ++ [mkObj b None [] 0]).
Proof.
  repeat split.
  - rewrite length_app. simpl. lia.
  - intros x. unfold disposals.
    destruct (decide (x < length h)) as [Hx|Hx].
    + by rewrite lookup_app_l.
    + rewrite (lookup_ge_None_2 h x) by lia.
      destruct (decide (x = length h)) as [->|Hne].
      * by rewrite list_lookup_middle.
      * rewrite lookup_ge_None_2; [done|]. rewrite length_app. simpl. lia.
  - intros x Hx. by apply tracking_app_l.
Qed.

Lemma unreleased_heap_add p c h : unreleased h (heap_add p c h).
Proof.
  repeat split.
  - by rewrite length_heap_add.
  - intros x. apply disposals_heap_add.
  - intros x _. apply tracking_heap_add.
Qed.

Lemma unreleased_heap_remove p c h : unreleased h (heap_remove p c h).
Proof.
  repeat split.
  - by rewrite length_heap_remove.
  - intros x. apply disposals_heap_remove.
  - intros x _. apply tracking_heap_remove.
Qed.

End Unreleased.

(** Chains of allocations, adds and removes release nothing. *)
Ltac unreleased :=
  repeat first
    [ apply unreleased_refl
    | eapply unreleased_trans; [|apply unreleased_heap_add]
    | eapply unreleased_trans; [|apply unreleased_heap_remove]
    | eapply unreleased_trans; [|apply unreleased_alloc] ].

Section OcTreeReleases.
Context `{OcTreeDecoder}.
Import OcTreeClient.
#[local] Arguments truthy : simpl never.
#[local] Arguments heap_add : simpl never.
#[local] Arguments heap_remove : simpl never.
#[local] Arguments Nat.eqb : simpl never.
#[local] Arguments is_subscribed : simpl never.
#[local] Arguments Js.in_ : simpl never.
#[local] Arguments Js.get : simpl never.
#[local] Arguments Js.assign : simpl never.
Implicit Types (s : St Voxels Client) (m : Msg).

Lemma install_unreleased tree msg s :
  unreleased (heap s) (heap (final (install tree msg s))).
Proof.
  destruct s as [h ts con em [? ? ? cont tf root ? ? cm rt sn mt]].
  unfold install. run.
  destruct (truthy tf); simpl; run; split_eqb; destruct sn; simpl; run; split_eqb;
    unreleased.
Qed.

Lemma forEach_install_unreleased (jobs : list (Tree * Msg)) s :
  unreleased (heap s) (heap (final (forEach jobs (fun j => install j.1 j.2) s))).
Proof.
  revert s. induction jobs as [|[tree msg] jobs IH]; intros s; simpl.
  - apply unreleased_refl.
  - unfold bind. destruct (install_spec tree msg s) as (s' & Hrun & _).
    pose proof (install_unreleased tree msg s) as Hfirst.
    simpl. rewrite Hrun in *. simpl in *.
    eapply unreleased_trans; [exact Hfirst | apply IH].
Qed.

Lemma handler_unreleased m s :
  unreleased (heap s) (heap (final (processMessage m s))).
Proof.
  destruct s as [h ts con em [? ? ? cont tf root ? ? cm rt sn mt]].
  unfold processMessage, _processMessagePrivate, _loadOcTree, new_Promise, executor,
    construct_and_read, rosTopic_unsubscribe, Tree_tfClient.
  run.
  destruct cm; simpl; destruct (binary m); simpl;
    repeat match goal with
      | |- context [if decodes ?a ?b then _ else _] => destruct (decodes a b); simpl
      | |- context [if Js.in_ ?a ?b then _ else _] => destruct (Js.in_ a b); simpl
      | |- context [match Js.get ?a ?b with _ => _ end] => destruct (Js.get a b); simpl
      end;
    destruct (truthy cont); simpl; destruct rt as [tp|]; simpl;
    try match goal with
      | |- context [Topic_unsubscribe tp ?s0] =>
          destruct (Topic_unsubscribe_spec tp s0) as (ts' & -> & _)
      end; simpl; unreleased.
Qed.

(** No delivery to an octree client ever calls a disposal hook or stops
    the frame tracking of a node. *)
Lemma octree_deliver_unreleased t m s :
  unreleased (heap s) (heap (final (deliver t m s))).
Proof.
  unfold deliver, transport_deliver, run_microtasks.
  set (s1 := final (if is_subscribed (topics s) t then processMessage m s else Ok tt s)).
  assert (H1 : unreleased (heap s) (heap s1)).
  { subst s1. destruct (is_subscribed (topics s) t); [apply handler_unreleased|].
    apply unreleased_refl. }
  run. eapply unreleased_trans; [exact H1|].
  apply (forEach_install_unreleased (microtasks (self s1))
           (with_self (set_microtasks (fun _ => [])) s1)).
Qed.

End OcTreeReleases.

(** * The grid client without a TF client *)

Section GridAlone.
Import OccupancyGridClient.
#[local] Arguments truthy : simpl never.
#[local] Arguments heap_add : simpl never.
#[local] Arguments heap_remove : simpl never.
#[local] Arguments Nat.eqb : simpl never.
#[local] Arguments is_subscribed : simpl never.
Implicit Types (s : St OccupancyGrid Client) (m : Msg).

Lemma grid_alone_step s m g :
  grid_alone s g ->
  let s' := final (processMessage m s) in
  let g' := length (heap s) in
  grid_alone s' g' /\
  rootObject (self s') = rootObject (self s) /\
  children_of (heap s') (rootObject (self s'))
  = children_of (heap s) (rootObject (self s)) ++ [g'] /\
  disposals (heap s') g = S (disposals (heap s) g) /\
  length (heap s') = S (length (heap s)).
Proof.
  destruct s as [h ts con em [? ? ? cont tf root ? col opa cg rt sn]].
  unfold grid_alone. simpl.
  intros (Htf & -> & -> & Hroot & Hne & gr & par & d & Hg).
  assert (Hglen : g < length h) by (by eapply lookup_lt_Some).
  set (h1 := alter count_dispose g h).
  set (new := mkObj (Geometry (mkGrid m col opa)) None [] 0).
  set (h2 := heap_add root (length h) (h1 ++ [new])).
  assert (Hlen1 : length h1 = length h) by (subst h1; by rewrite length_alter).
  assert (Hnew : (h1 ++ [new]) !! length h = Some new).
  { rewrite <- Hlen1. by rewrite list_lookup_middle. }
  assert (Hpar : parent_of (h1 ++ [new]) (length h) = None)
    by (unfold parent_of; by rewrite Hnew).
  assert (Hrun : exists ts' r,
             processMessage m (mkSt h ts con em
                (mkClient ros0 topicName0 compression0 cont tf root offsetPose0 col opa
                   (Some g) rt (Some g))) = r /\
             final r = mkSt h2 ts' con (em ++ ["change"])
                         (mkClient ros0 topicName0 compression0 cont tf root offsetPose0 col opa
                            (Some (length h)) rt (Some (length h)))).
  { unfold processMessage, rosTopic_unsubscribe. run.
    unfold tfClient_of. rewrite Hg. simpl.
    assert (Hself : heap_remove g g h = h).
    { unfold heap_remove, children_of. rewrite Hg.
      by rewrite bool_decide_eq_false_2 by apply not_elem_of_nil. }
    rewrite Htf. simpl. run. unfold with_heap, with_self. simpl.
    rewrite !Hself, !length_alter.
    rewrite (proj2 (Nat.eqb_neq root (length h))) by lia. simpl.
    rewrite ?Hself. fold h1 new h2.
    destruct (truthy cont); simpl; [by do 2 eexists|].
    destruct rt as [t|]; simpl; [|by do 2 eexists].
    match goal with
    | |- context [Topic_unsubscribe t ?s0] =>
        destruct (Topic_unsubscribe_spec t s0) as (ts' & -> & _)
    end.
    by do 2 eexists. }
  destruct Hrun as (ts' & r & <- & ->). simpl.
  assert (Hl2 : length h2 = S (length h)).
  { subst h2. rewrite length_heap_add, length_app, Hlen1. simpl. lia. }
  assert (Hlook : h2 !! length h = Some (set_parent (Some root) new)).
  { subst h2. unfold heap_add. rewrite Hpar.
    rewrite list_lookup_alter_ne by lia.
    by rewrite list_lookup_alter_eq, Hnew. }
  repeat split; try done.
  - lia.
  - lia.
  - rewrite Hlook. by do 3 eexists.
  - subst h2. rewrite children_of_heap_add_exact; [|rewrite length_app; lia|done].
    rewrite children_of_app_l by lia. subst h1.
    rewrite !children_of_fmap. by rewrite lookup_alter_preserved.
  - subst h2. rewrite disposals_heap_add. unfold disposals.
    rewrite lookup_app_l by lia. subst h1.
    by rewrite list_lookup_alter_eq, Hg.
Qed.

(** However many further messages the handler takes, every grid it ever
    built stays a child of the root. *)
Lemma grid_alone_accumulates (ms : list Msg) s g :
  grid_alone s g ->
  let s' := foldl (fun s0 m => final (processMessage m s0)) s ms in
  children_of (heap s') (rootObject (self s'))
  = children_of (heap s) (rootObject (self s)) ++ seq (length (heap s)) (length ms).
Proof.
  revert s g. induction ms as [|m ms IH]; intros s g Hinv; simpl.
  - by rewrite app_nil_r.
  - destruct (grid_alone_step s m g Hinv) as (Hinv' & Hroot & Hcs & _ & Hlen).
    rewrite (IH _ _ Hinv'). rewrite Hcs, Hlen. by rewrite <- app_assoc.
Qed.

End GridAlone.

(** * Replacement in the grid and octree clients *)

(** C2.  The octree client releases nothing, ever: whatever the state, the
    topic and the message, after a delivery (handler and queued installs)
    no disposal hook has been called and every node that tracked a frame
    still does.  In particular, with a TF client and two messages: the
    second install replaces the node 2 (hosting the renderable 1) by the
    node 4 (hosting 3); the replaced node is off the root, but its frame
    tracking is still subscribed and the disposal hook of its renderable
    was never called. *)
Theorem octree_replaced_entity_not_released :
  (forall (D : OcTreeDecoder) (s : St OcTreeClient.Voxels OcTreeClient.Client)
          (t : TopicId) (m : OcTreeClient.Msg),
      unreleased (heap s) (heap (final (OcTreeClient.deliver t m s)))) /\
  (let o := with_continuous (VBool true)
              (with_tfClient Samples.tf_handle Samples.plain_options) in
   let m := Samples.octree_message false "OcTree" in
   let s1 := final (OcTreeClient.deliver (H := Samples.reading) 0 m
                      (final (OcTreeClient.constructor o []))) in
   let s2 := final (OcTreeClient.deliver (H := Samples.reading) 0 m s1) in
   OcTreeClient.sceneNode (self s1) = Some 2 /\
   OcTreeClient.object <$> OcTreeClient.currentMap (self s1) = Some 1 /\
   children_of (heap s1) 2 = [1] /\
   OcTreeClient.sceneNode (self s2) = Some 4 /\
   OcTreeClient.object <$> OcTreeClient.currentMap (self s2) = Some 3 /\
   children_of (heap s2) (OcTreeClient.rootObject (self s2)) = [4] /\
   emitted s2 = ["change"; "change"] /\
   tracking (heap s2) 2 = true /\
   disposals (heap s2) 1 = 0).
Proof.
  split.
  - intros D s t m. apply octree_deliver_unreleased.
  - vm_compute. by repeat split.
Qed.

(** C3.  A continuous grid client without a TF client.  The old grid is
    asked to remove itself from itself, which detaches nothing: after the
    second message the root holds both grids, the first of them already
    disposed; and however many messages follow, each adds a child to the
    root and none is ever taken off. *)
Theorem grid_without_tf_keeps_old_grid_attached :
  let o := with_continuous (VBool true) Samples.plain_options in
  let m := Samples.grid_message in
  let s1 := final (OccupancyGridClient.deliver 0 m
                     (final (OccupancyGridClient.constructor o []))) in
  let s2 := final (OccupancyGridClient.deliver 0 m s1) in
  children_of (heap s1) (OccupancyGridClient.rootObject (self s1)) = [1] /\
  OccupancyGridClient.currentGrid (self s1) = Some 1 /\
  OccupancyGridClient.sceneNode (self s1) = Some 1 /\
  returned (OccupancyGridClient.deliver 0 m s1) = true /\
  children_of (heap s2) (OccupancyGridClient.rootObject (self s2)) = [1; 2] /\
  OccupancyGridClient.currentGrid (self s2) = Some 2 /\
  disposals (heap s2) 1 = 1 /\
  (forall ms : list OccupancyGridClient.Msg,
      let sn := foldl (fun s0 m' => final (OccupancyGridClient.processMessage m' s0)) s1 ms in
      children_of (heap sn) (OccupancyGridClient.rootObject (self sn))
      = 1 :: seq 2 (length ms)).
Proof.
  intros o m s1 s2.
  assert (Hinv : grid_alone s1 1).
  { vm_compute. repeat split; try lia; try discriminate. by do 3 eexists. }
  repeat split; try reflexivity.
  intros ms. exact (grid_alone_accumulates ms s1 1 Hinv).
Qed.

(** * The Registry as an association list *)

Section RegistryFacts.
Context {V : Type}.
Implicit Types (o : Js.Object V) (k : string) (v : V).

Lemma get_None_keys k o : Js.get k o = None <-> k ∉ map fst o.
Proof.
  induction o as [|[k' v'] o IH]; simpl.
  - split; [intros _; apply not_elem_of_nil | done].
  - rewrite not_elem_of_cons. destruct (String.eqb_spec k k') as [->|Hne].
    + split; [done | by intros [? _]].
    + rewrite IH. tauto.
Qed.

Lemma get_Some_elem k v o : Js.get k o = Some v -> k ∈ map fst o /\ v ∈ map snd o.
Proof.
  induction o as [|[k' v'] o IH]; simpl; [done|].
  rewrite !elem_of_cons. destruct (String.eqb_spec k k') as [->|Hne].
  - intros [= ->]. by split; left.
  - intros Hk. destruct (IH Hk). by split; right.
Qed.

Lemma delete_absent k o : k ∉ map fst o -> Js.delete k o = o.
Proof.
  induction o as [|[k' v'] o IH]; simpl; [done|].
  rewrite not_elem_of_cons. intros [Hne Hk].
  destruct (String.eqb_spec k k'); [done | by rewrite IH].
Qed.

Lemma elem_of_delete_fst k k' o : k' ∈ map fst (Js.delete k o) -> k' ∈ map fst o /\ k' <> k.
Proof.
  induction o as [|[k0 v0] o IH]; simpl; [by intros ?%elem_of_nil|].
  destruct (String.eqb_spec k k0) as [->|Hne]; simpl; rewrite ?elem_of_cons.
  - intros Hk. destruct (IH Hk). by split; [right|].
  - intros [->|Hk]; [by split; [left | congruence]|].
    destruct (IH Hk). by split; [right|].
Qed.

Lemma elem_of_delete_snd k v o : v ∈ map snd (Js.delete k o) -> v ∈ map snd o.
Proof.
  induction o as [|[k0 v0] o IH]; simpl; [done|].
  destruct (String.eqb_spec k k0) as [->|Hne]; simpl; rewrite ?elem_of_cons.
  - intros Hv. right. by apply IH.
  - intros [->|Hv]; [by left | right; by apply IH].
Qed.

Lemma NoDup_delete_fst k o : NoDup (map fst o) -> NoDup (map fst (Js.delete k o)).
Proof.
  induction o as [|[k0 v0] o IH]; simpl; [done|].
  rewrite NoDup_cons. intros [Hk0 Hnd].
  destruct (String.eqb_spec k k0) as [->|Hne]; simpl; [by apply IH|].
  rewrite NoDup_cons. split; [|by apply IH].
  intros Hin. by destruct (elem_of_delete_fst _ _ _ Hin).
Qed.

Lemma NoDup_delete_snd k o : NoDup (map snd o) -> NoDup (map snd (Js.delete k o)).
Proof.
  induction o as [|[k0 v0] o IH]; simpl; [done|].
  rewrite NoDup_cons. intros [Hv0 Hnd].
  destruct (String.eqb_spec k k0) as [->|Hne]; simpl; [by apply IH|].
  rewrite NoDup_cons. split; [|by apply IH].
  intros Hin. by apply Hv0, (elem_of_delete_snd k).
Qed.

(** Assigning under a new key appends the entry. *)
Lemma set_absent k v o : k ∉ map fst o -> Js.set k v o = o ++ [(k, v)].
Proof.
  induction o as [|[k' v'] o IH]; simpl; [done|].
  rewrite not_elem_of_cons. intros [Hne Hk].
  destruct (String.eqb_spec k k'); [done | by rewrite IH].
Qed.

(** [delete] after an assignment under a new key gives the object back. *)
Lemma delete_set_absent k v o : k ∉ map fst o -> Js.delete k (Js.set k v o) = o.
Proof.
  intros Hk. rewrite set_absent by done.
  induction o as [|[k' v'] o IH]; simpl.
  - by rewrite String.eqb_refl.
  - simpl in Hk. rewrite not_elem_of_cons in Hk. destruct Hk as [Hne Hk].
    destruct (String.eqb_spec k k'); [done | by rewrite IH].
Qed.

(** Deleting every key leaves the empty object. *)
Lemma delete_all_keys (ks : list string) o :
  (forall k, k ∈ map fst o -> k ∈ ks) ->
  foldl (fun o' k => Js.delete k o') o ks = [].
Proof.
  revert o. induction ks as [|k ks IH]; intros o Hall; simpl.
  - destruct o as [|[k v] o]; [done|].
    exfalso. apply (elem_of_nil k), Hall. simpl. by left.
  - apply IH. intros k' Hk'. destruct (elem_of_delete_fst _ _ _ Hk') as [Hin Hne].
    specialize (Hall _ Hin). rewrite elem_of_cons in Hall. by destruct Hall.
Qed.

Lemma elem_of_insert_sorted (n : N) k (l : list (N * string)) x :
  x ∈ insert_sorted n k l <-> x = (n, k) \/ x ∈ l.
Proof.
  induction l as [|[m k'] l IH]; simpl.
  - rewrite list_elem_of_singleton, elem_of_nil. tauto.
  - destruct (n <=? m)%N; rewrite !elem_of_cons; [tauto|].
    rewrite IH. tauto.
Qed.

(** [for (k in o)] visits every own key. *)
Lemma for_in_keys_complete o k : k ∈ map fst o -> k ∈ for_in_keys o.
Proof.
  intros Hk. unfold for_in_keys. rewrite elem_of_app.
  destruct (array_index k) as [n|] eqn:Hidx.
  - left.
    assert (Hin : (n, k) ∈ foldr (fun kv acc =>
                     match array_index kv.1 with
                     | Some n0 => insert_sorted n0 kv.1 acc
                     | None => acc
                     end) [] o).
    { induction o as [|[k' v'] o IH]; simpl in *; [by apply elem_of_nil in Hk|].
      rewrite elem_of_cons in Hk. destruct Hk as [->|Hk].
      - rewrite Hidx. apply elem_of_insert_sorted. by left.
      - destruct (array_index k'); [|by apply IH].
        apply elem_of_insert_sorted. right. by apply IH. }
    apply list_elem_of_In, in_map_iff. exists (n, k). split; [done|].
    by apply list_elem_of_In.
  - right. by apply list_elem_of_filter.
Qed.

End RegistryFacts.

(** With unique keys and unique nodes, deleting a key takes its node out
    of the list of nodes. *)
Lemma delete_splices (k : string) (n : ObjId) (o : Js.Object ObjId) :
  NoDup (map fst o) -> NoDup (map snd o) -> Js.get k o = Some n ->
  map snd (Js.delete k o) = splice_first n (map snd o).
Proof.
  induction o as [|[k' v'] o IH]; simpl; [done|].
  rewrite !NoDup_cons. intros [Hk' Hks] [Hv' Hvs].
  destruct (String.eqb_spec k k') as [->|Hne].
  - intros [= ->]. rewrite Nat.eqb_refl. by rewrite delete_absent.
  - intros Hget. destruct (get_Some_elem _ _ _ Hget) as [_ Hin].
    destruct (Nat.eqb_spec v' n) as [->|Hvn]; [done|].
    simpl. by rewrite IH.
Qed.

(** * MarkerArrayClient: what every directive keeps *)

Section MarkerLockstep.
Context `{MarkerBuilder}.
Import MarkerArrayClient.
Implicit Types (s : St MarkerState Client) (m : MarkerMsg) (h : list (Obj MarkerState)).

(** [removeMarker] always returns; it changes the store and the Registry
    only. *)
Lemma removeMarker_runs key s :
  removeMarker key s
  = Ok tt (mkSt (match Js.get key (markers (self s)) with
                 | Some node => destroyed (rootObject (self s)) node (heap s)
                 | None => heap s
                 end)
             (topics s) (console s) (emitted s)
             (set_markers (Js.delete key) (self s))).
Proof.
  destruct (Js.get key (markers (self s))) as [node|] eqn:Hk.
  - by apply removeMarker_present.
  - rewrite removeMarker_absent by done.
    destruct s as [h ts con em [? ? ? ? ? ms ?]]. simpl in *.
    unfold set_markers. simpl. rewrite delete_absent; [done|].
    by apply get_None_keys.
Qed.

Lemma tracking_destroyed_other root node h x :
  tracking (destroyed root node h) x
  = (if decide (x = node) then false else tracking h x).
Proof.
  case_decide as Hx; [subst; apply tracking_destroyed|].
  unfold destroyed. rewrite tracking_fmap, dispose_all_preserved by done.
  rewrite <- tracking_fmap, tracking_heap_remove.
  unfold tracking. by rewrite list_lookup_alter_ne.
Qed.

Lemma lockstep_removeMarker key s :
  lockstep s -> lockstep (final (removeMarker key s)).
Proof.
  intros (Hroot & Hcs & Hks & Hvs & Hall). rewrite removeMarker_runs.
  unfold lockstep. simpl.
  destruct (Js.get key (markers (self s))) as [node|] eqn:Hk.
  - rewrite length_destroyed, children_of_destroyed, decide_True by done.
    rewrite Hcs. repeat split.
    + done.
    + symmetry. by apply delete_splices.
    + by apply NoDup_delete_fst.
    + by apply NoDup_delete_snd.
    + rewrite Forall_forall in *. intros n Hn. apply Hall.
      by apply (elem_of_delete_snd key).
  - rewrite delete_absent by (by apply get_None_keys). by repeat split.
Qed.

(** The loop of DELETE ALL. *)
Lemma forEach_removeMarker (ks : list string) s :
  exists h',
    forEach ks removeMarker s
    = Ok tt (mkSt h' (topics s) (console s) (emitted s)
               (set_markers (fun ms => foldl (fun o k => Js.delete k o) ms ks) (self s))) /\
    length h' = length (heap s) /\
    (lockstep s -> lockstep (final (forEach ks removeMarker s))) /\
    (forall x, tracking (heap s) x = false -> tracking h' x = false) /\
    (forall k n, k ∈ ks -> Js.get k (markers (self s)) = Some n -> tracking h' n = false).
Proof.
  revert s. induction ks as [|k ks IH]; intros s.
  - exists (heap s). destruct s as [h ts con em [? ? ? ? ? ms ?]]. simpl.
    split; [done|]. split; [done|]. split; [done|]. split; [done|].
    intros k n Hk. by apply elem_of_nil in Hk.
  - simpl. unfold bind. rewrite removeMarker_runs.
    set (s1 := mkSt _ (topics s) (console s) (emitted s) (set_markers (Js.delete k) (self s))).
    destruct (IH s1) as (h' & Hrun & Hlen & Hinv & Hmono & Hoff).
    exists h'. rewrite Hrun. subst s1. simpl in *.
    split; [|split; [|split; [|split]]].
    + destruct (self s). reflexivity.
    + rewrite Hlen. destruct (Js.get k (markers (self s))); [apply length_destroyed | done].
    + intros Hs. pose proof (lockstep_removeMarker k s Hs) as Hs1.
      rewrite removeMarker_runs in Hs1. simpl in Hs1. specialize (Hinv Hs1).
      by rewrite Hrun in Hinv.
    + intros x Hx. apply Hmono.
      destruct (Js.get k (markers (self s))); [|done].
      rewrite tracking_destroyed_other. by case_decide.
    + intros k0 n Hk0 Hget. destruct (decide (k0 = k)) as [->|Hne].
      * apply Hmono. rewrite Hget. apply tracking_destroyed.
      * rewrite elem_of_cons in Hk0. destruct Hk0 as [?|Hk0]; [done|].
        apply (Hoff k0); [done|].
        destruct (self s). simpl in *. by rewrite get_delete_ne.
Qed.

(** [update] on the first child: it throws on a node without a marker
    child and leaves the state as it was, or it answers and has replaced the
    renderable's own state only. *)
Lemma update_first_child_cases node m s :
  (exists e, update_first_child node m s = Throw e s) \/
  (exists b c g par cs d g',
      heap s !! c = Some (mkObj (Geometry g) par cs d) /\
      update_first_child node m s
      = Ok b (with_heap (fun h => <[c := mkObj (Geometry g') par cs d]> h) s)).
Proof.
  unfold update_first_child.
  destruct (children_of (heap s) node) as [|c rest]; [left; by eexists|].
  destruct (heap s !! c) as [[[| |g] par cs d]|] eqn:Hc; try (left; by eexists).
  right. by do 7 eexists.
Qed.

Lemma lockstep_replace s c g g' par cs d :
  heap s !! c = Some (mkObj (Geometry g) par cs d) ->
  lockstep s ->
  lockstep (with_heap (fun h => <[c := mkObj (Geometry g') par cs d]> h) s).
Proof.
  intros Hc (Hroot & Hcs & Hks & Hvs & Hall). unfold lockstep. simpl.
  rewrite length_insert, (children_of_insert_same _ _ _ _ _ _ _ _ Hc).
  by repeat split.
Qed.

Lemma lockstep_add_block m s :
  lockstep s -> Js.get (key_of m) (markers (self s)) = None ->
  lockstep (final (add_block m s)).
Proof.
  intros (Hroot & Hcs & Hks & Hvs & Hall) Hk.
  rewrite add_block_runs by done. unfold lockstep. simpl.
  apply get_None_keys in Hk.
  rewrite length_added, children_of_added, Hcs by done.
  destruct (self s) as [? ? ? root ? ms ?]. simpl in *.
  rewrite set_absent by done. rewrite !map_app. simpl.
  rewrite Forall_forall in Hall.
  repeat split.
  - lia.
  - apply NoDup_app. repeat split; [done| |apply NoDup_singleton].
    intros k' Hk' ->%list_elem_of_singleton. done.
  - apply NoDup_app. repeat split; [done| |apply NoDup_singleton].
    intros n Hn ->%list_elem_of_singleton. specialize (Hall _ Hn). simpl in Hall. lia.
  - apply Forall_app. split.
    + apply Forall_forall. intros n Hn. specialize (Hall _ Hn). simpl in Hall. lia.
    + apply Forall_singleton. lia.
Qed.

Lemma lockstep_console s line :
  lockstep s -> lockstep (final (console_write line s)).
Proof. done. Qed.

Lemma lockstep_processMarker m s :
  lockstep s -> lockstep (final (processMarker m s)).
Proof.
  intros Hs. unfold processMarker.
  destruct (action m =? 0)%Z.
  - unfold bind at 1. unfold this at 1. unfold gets at 1.
    destruct (Js.get (key_of m) (markers (self s))) as [node|] eqn:Hk.
    + unfold bind at 1. unfold bind at 1.
      destruct (update_first_child_cases node m s)
        as [[e ->]|(b & c & g & par & cs & d & g' & Hc & ->)]; [done|].
      pose proof (lockstep_replace s c g g' par cs d Hc Hs) as Hs1.
      set (s1 := with_heap _ s) in *.
      destruct b; simpl; [done|].
      unfold bind at 1. rewrite removeMarker_runs.
      pose proof (lockstep_removeMarker (key_of m) s1 Hs1) as Hs2.
      rewrite removeMarker_runs in Hs2. simpl in Hs2. simpl.
      apply lockstep_add_block; [done|]. simpl.
      destruct (self s). apply get_delete_eq.
    + simpl. by apply lockstep_add_block.
  - destruct (action m =? 1)%Z; [by apply lockstep_console|].
    destruct (action m =? 2)%Z; [by apply lockstep_removeMarker|].
    destruct (action m =? 3)%Z; [|by apply lockstep_console].
    unfold bind at 1. unfold this at 1. unfold gets at 1. unfold bind at 1.
    destruct (forEach_removeMarker (Js.for_in_keys (markers (self s))) s)
      as (h' & Hrun & Hlen & Hinv & _).
    specialize (Hinv Hs). rewrite Hrun in *. simpl in *.
    destruct Hinv as (Hroot & Hcs & _).
    unfold lockstep. simpl in *.
    destruct (self s) as [? ? ? root ? ms ?]. simpl in *.
    rewrite delete_all_keys in Hcs by apply for_in_keys_complete.
    repeat split; try done; apply NoDup_nil_2.
Qed.

Lemma lockstep_forEach (batch : list MarkerMsg) s :
  lockstep s -> lockstep (final (forEach batch processMarker s)).
Proof.
  revert s. induction batch as [|m batch IH]; intros s Hs; [done|].
  simpl. unfold bind.
  pose proof (lockstep_processMarker m s Hs) as Hs1.
  destruct (processMarker m s) as [[] s1|e s1]; [by apply IH | done].
Qed.

End MarkerLockstep.

(** * MarkerArrayClient: the directives one by one *)

Lemma lookup_insert_preserved {G A} (proj : Obj G -> A) (h : list (Obj G)) c x o o' :
  h !! c = Some o -> proj o' = proj o ->
  proj <$> <[c := o']> h !! x = proj <$> h !! x.
Proof.
  intros Hc Hp. destruct (decide (c = x)) as [->|Hne].
  - rewrite list_lookup_insert_eq by (by eapply lookup_lt_Some). rewrite Hc. simpl.
    by rewrite Hp.
  - by rewrite list_lookup_insert_ne.
Qed.

Lemma splice_first_app_last (c : ObjId) (l : list ObjId) :
  c ∉ l -> splice_first c (l ++ [c]) = l.
Proof.
  induction l as [|x l IH]; simpl.
  - by rewrite Nat.eqb_refl.
  - rewrite not_elem_of_cons. intros [Hne Hl].
    destruct (Nat.eqb_spec x c); [congruence | by rewrite IH].
Qed.

Section MarkerDirectivesMore.
Context `{MarkerBuilder}.
Import MarkerArrayClient.
Implicit Types (s : St MarkerState Client) (m : MarkerMsg) (h : list (Obj MarkerState)).

(** The two objects [add_block] creates. *)
Lemma unreleased_added m root pth tf h : unreleased h (added m root pth tf h).
Proof. unfold added. unreleased. Qed.

(** X2.  An ADD/MODIFY directive for a key that is not in the Registry, on
    a client whose root is allocated.  It returns normally; two objects are
    created, the marker and, after it, its Scene Attachment node; the node
    hosts the marker, carries the message's frame and the client's TF
    client, tracks the frame exactly when that TF client is truthy, and is
    appended to the root's children; the key is bound to the node and no
    other key changes; no existing object is disposed or loses its
    tracking; nothing is emitted. *)
Theorem add_directive_inserts s m :
  action m = 0%Z ->
  Js.get (key_of m) (markers (self s)) = None ->
  rootObject (self s) < length (heap s) ->
  let s' := final (processMarker m s) in
  let marker := length (heap s) in
  let node := S (length (heap s)) in
  returned (processMarker m s) = true /\
  Js.get (key_of m) (markers (self s')) = Some node /\
  (forall k, k <> key_of m -> Js.get k (markers (self s')) = Js.get k (markers (self s))) /\
  children_of (heap s') (rootObject (self s'))
  = children_of (heap s) (rootObject (self s)) ++ [node] /\
  heap s' !! node
  = Some (mkObj (SceneNode (VStr (frame_id (header m))) (tfClient (self s)) VUndefined
                   (truthy (tfClient (self s))))
            (Some (rootObject (self s))) [marker] 0) /\
  heap s' !! marker
  = Some (mkObj (Geometry (Marker_new m (path (self s)))) (Some node) [] 0) /\
  length (heap s') = S (S (length (heap s))) /\
  unreleased (heap s) (heap s') /\
  emitted s' = emitted s /\ topics s' = topics s.
Proof.
  intros Hact Hk Hroot. rewrite add_directive_absent by done.
  rewrite add_block_runs by done. simpl.
  destruct (added_lookup m (rootObject (self s)) (path (self s)) (tfClient (self s))
              (heap s) Hroot) as [Hnode Hmarker].
  split; [done|]. split; [|split; [|split; [|split; [|split; [|split; [|split]]]]]].
  - destruct (self s). apply get_set_eq.
  - intros k Hne. destruct (self s). simpl. by apply get_set_ne.
  - destruct (self s). simpl in *. by apply children_of_added.
  - exact Hnode.
  - exact Hmarker.
  - apply length_added.
  - apply unreleased_added.
  - done.
Qed.

(** X7.  An ADD/MODIFY directive on a registered key whose in-place update
    succeeds.  It returns normally and touches nothing but the renderable's
    own state: the client's fields (Registry included) are the same, no
    object is created, and every object keeps its children, its parent, its
    tracking and its disposal count; nothing is emitted. *)
Theorem update_in_place_keeps_structure s m node c rest g par cs d :
  action m = 0%Z ->
  Js.get (key_of m) (markers (self s)) = Some node ->
  children_of (heap s) node = c :: rest ->
  heap s !! c = Some (mkObj (Geometry g) par cs d) ->
  (Marker_update g m).1 = true ->
  let s' := final (processMarker m s) in
  returned (processMarker m s) = true /\
  self s' = self s /\
  length (heap s') = length (heap s) /\
  heap s' !! c = Some (mkObj (Geometry (Marker_update g m).2) par cs d) /\
  (forall x, children_of (heap s') x = children_of (heap s) x /\
             parent_of (heap s') x = parent_of (heap s) x /\
             tracking (heap s') x = tracking (heap s) x /\
             disposals (heap s') x = disposals (heap s) x) /\
  emitted s' = emitted s /\ topics s' = topics s.
Proof.
  intros Hact Hk Hcs Hc Hupd.
  rewrite (successful_update_in_place s m node c rest g par cs d) by done. simpl.
  split; [done|]. split; [done|]. split; [apply length_insert|].
  split; [apply list_lookup_insert_eq; by eapply lookup_lt_Some|].
  split; [|done].
  intros x.
  rewrite !children_of_fmap, !parent_of_fmap, !tracking_fmap, !disposals_fmap.
  rewrite !(lookup_insert_preserved _ _ _ _ _ _ Hc) by done. done.
Qed.

(** X4.  A DELETE ALL directive (action 3) on a client whose Registry and
    root are in lockstep.  It returns normally; afterwards the Registry is
    empty, the root has no children, every node that was registered has its
    frame tracking off, no object was created, and Registry and root are in
    lockstep again; nothing is emitted. *)
Theorem delete_all_directive s m :
  action m = 3%Z ->
  lockstep s ->
  let s' := final (processMarker m s) in
  returned (processMarker m s) = true /\
  markers (self s') = [] /\
  children_of (heap s') (rootObject (self s')) = [] /\
  (forall n, n ∈ map snd (markers (self s)) -> tracking (heap s') n = false) /\
  length (heap s') = length (heap s) /\
  lockstep s' /\
  emitted s' = emitted s /\ topics s' = topics s.
Proof.
  intros Hact Hs.
  pose proof (lockstep_processMarker m s Hs) as Hs'.
  unfold processMarker in *. rewrite Hact in *. simpl in *.
  unfold bind, this, gets, assign_this, modify in *.
  destruct (forEach_removeMarker (Js.for_in_keys (markers (self s))) s)
    as (h' & Hrun & Hlen & _ & _ & Hoff).
  rewrite Hrun in *. simpl in *.
  assert (Hcs' : children_of h' (rootObject (self s)) = []).
  { destruct Hs' as (_ & Hcs' & _). simpl in Hcs'. by destruct (self s). }
  split; [done|]. split; [by destruct (self s)|].
  split; [by destruct (self s)|].
  split; [|done].
  intros n Hn.
  apply list_elem_of_In, in_map_iff in Hn. destruct Hn as [[k n'] [Heq Hin]].
  simpl in Heq. subst n'.
  destruct Hs as (_ & _ & Hks & _).
  apply (Hoff k).
  - apply for_in_keys_complete. apply list_elem_of_In, in_map_iff.
    by exists (k, n).
  - clear -Hks Hin. induction (markers (self s)) as [|[k' v'] o IH]; [done|].
    simpl in *. apply NoDup_cons in Hks. destruct Hks as [Hk' Hks].
    destruct Hin as [[= -> ->]|Hin]; [by rewrite String.eqb_refl|].
    destruct (String.eqb_spec k k') as [->|_]; [|by apply IH].
    exfalso. apply Hk'. apply list_elem_of_In, in_map_iff. by exists (k', n).
Qed.

End MarkerDirectivesMore.

Section MarkerBatches.
Context `{MarkerBuilder}.
Import MarkerArrayClient.
#[local] Arguments truthy : simpl never.
#[local] Arguments heap_add : simpl never.
#[local] Arguments heap_remove : simpl never.
#[local] Arguments Nat.eqb : simpl never.
Implicit Types (s : St MarkerState Client) (m : MarkerMsg) (h : list (Obj MarkerState)).

(** X3.  ADD then DELETE is a round trip for the Registry and the root.  On
    a client in lockstep, an ADD/MODIFY directive for an unregistered key
    followed by a DELETE directive for the same key returns normally and
    gives back the Registry and the root's child list as they were; the two
    objects the ADD created stay in the store, the node with its tracking
    off and the marker disposed exactly once; no older object is disposed
    or loses its tracking. *)
Theorem add_then_delete_restores s a d :
  action a = 0%Z -> action d = 2%Z -> key_of d = key_of a ->
  lockstep s ->
  Js.get (key_of a) (markers (self s)) = None ->
  let s1 := final (processMarker a s) in
  let s2 := final (processMarker d s1) in
  returned (processMarker d s1) = true /\
  markers (self s2) = markers (self s) /\
  children_of (heap s2) (rootObject (self s2)) = children_of (heap s) (rootObject (self s)) /\
  tracking (heap s2) (S (length (heap s))) = false /\
  disposals (heap s2) (length (heap s)) = 1 /\
  (forall x, x < length (heap s) ->
             disposals (heap s2) x = disposals (heap s) x /\
             tracking (heap s2) x = tracking (heap s) x) /\
  lockstep s2.
Proof.
  intros Ha Hd Hkey Hs Hk s1 s2.
  assert (Hs2 : lockstep s2) by (by do 2 apply lockstep_processMarker).
  destruct Hs as (Hroot & Hcs & Hks & Hvs & Hall).
  set (root := rootObject (self s)) in *.
  set (L := length (heap s)) in *.
  set (h1 := added a root (path (self s)) (tfClient (self s)) (heap s)).
  set (c1 := set_markers (Js.set (key_of a) (S L)) (self s)).
  assert (E1 : s1 = mkSt h1 (topics s) (console s) (emitted s) c1).
  { subst s1. by rewrite add_directive_absent, add_block_runs by done. }
  assert (Hget : Js.get (key_of a) (markers c1) = Some (S L)).
  { subst c1. destruct (self s). apply get_set_eq. }
  assert (Hroot' : rootObject c1 = root) by (subst c1 root; by destruct (self s)).
  assert (E2 : processMarker d s1
               = Ok tt (mkSt (destroyed root (S L) h1) (topics s) (console s) (emitted s)
                          (set_markers (Js.delete (key_of a)) c1))).
  { rewrite E1. unfold processMarker. rewrite Hd. simpl.
    rewrite removeMarker_runs. cbn [self heap topics console emitted].
    by rewrite Hkey, Hget, Hroot'. }
  assert (E3 : s2 = mkSt (destroyed root (S L) h1) (topics s) (console s) (emitted s)
                      (set_markers (Js.delete (key_of a)) c1))
    by (subst s2; by rewrite E2).
  rewrite E2. clearbody s2. subst s2.
  cbn [self heap topics console emitted returned final].
  assert (Hroot2 : rootObject (set_markers (Js.delete (key_of a)) c1) = root)
    by (subst c1 root; by destruct (self s)).
  rewrite Hroot2.
  destruct (added_lookup a root (path (self s)) (tfClient (self s)) (heap s) Hroot)
    as [Hnode Hmarker].
  fold L h1 in Hnode, Hmarker.
  assert (Hlen1 : length h1 = S (S L)) by apply length_added.
  assert (Hfresh : S L ∉ map snd (markers (self s))).
  { intros Hin. rewrite Forall_forall in Hall. specialize (Hall _ Hin). simpl in Hall.
    subst L. lia. }
  assert (Hch : children_of h1 (S L) = [L]) by (unfold children_of; by rewrite Hnode).
  split; [done|]. split; [|split; [|split; [|split; [|split]]]].
  - subst c1. destruct (self s) as [? ? ? ? ? ms ?]. simpl in *.
    rewrite delete_set_absent; [done|]. by apply get_None_keys.
  - rewrite children_of_destroyed, decide_True by done.
    subst h1. rewrite children_of_added by done. fold L. rewrite Hcs.
    by apply splice_first_app_last.
  - apply tracking_destroyed.
  - rewrite disposals_destroyed; [|subst root L; lia|rewrite Hch; apply NoDup_singleton|lia].
    rewrite Hch, decide_True by (by apply list_elem_of_singleton).
    unfold disposals. by rewrite Hmarker.
  - intros x Hx. destruct (unreleased_added a root (path (self s)) (tfClient (self s)) (heap s))
      as (_ & Hd1 & Ht1). fold h1 in Hd1, Ht1. split.
    + rewrite disposals_destroyed; [|subst root L; lia|rewrite Hch; apply NoDup_singleton|lia].
      rewrite Hch, decide_False; [apply Hd1|].
      rewrite list_elem_of_singleton. subst L. lia.
    + rewrite tracking_destroyed_other, decide_False by (subst L; lia). by apply Ht1.
  - exact Hs2.
Qed.

(** The ADD block always returns, and emits and subscribes nothing. *)
Lemma add_block_frame m s :
  exists s', add_block m s = Ok tt s' /\ emitted s' = emitted s /\ topics s' = topics s /\
    rosTopic (self s') = rosTopic (self s).
Proof.
  destruct s as [h ts con em sf]. unfold add_block. run. split_eqb; by eexists.
Qed.

Lemma processMarker_frame_gen m s (P : St MarkerState Client -> Prop) :
  (forall s', emitted s' = emitted s -> topics s' = topics s ->
              rosTopic (self s') = rosTopic (self s) -> P s') ->
  P (final (processMarker m s)).
Proof.
  intros HP. unfold processMarker.
  destruct (action m =? 0)%Z.
  - unfold bind at 1. unfold this at 1. unfold gets at 1.
    destruct (Js.get (key_of m) (markers (self s))) as [node|] eqn:Hk.
    + unfold bind at 1. unfold bind at 1.
      destruct (update_first_child_cases node m s)
        as [[e ->]|(b & c & g & par & cs & d & g' & Hc & ->)]; [by apply HP|].
      destruct b; unfold when, ret; simpl; [by apply HP|].
      unfold bind at 1. rewrite removeMarker_runs. cbn [negb].
      match goal with
      | |- context [add_block m ?s0] =>
          destruct (add_block_frame m s0) as (s' & -> & Hem & Hts & Hrt)
      end.
      by apply HP.
    + unfold bind, ret, when. cbn [negb].
      destruct (add_block_frame m s) as (s' & -> & Hem & Hts & Hrt). by apply HP.
  - destruct (action m =? 1)%Z; [by apply HP|].
    destruct (action m =? 2)%Z; [rewrite removeMarker_runs; by apply HP|].
    destruct (action m =? 3)%Z; [|by apply HP].
    unfold bind at 1. unfold this at 1. unfold gets at 1. unfold bind at 1.
    destruct (forEach_removeMarker (Js.for_in_keys (markers (self s))) s)
      as (h' & -> & _).
    by apply HP.
Qed.

Lemma processMarker_frame m s :
  emitted (final (processMarker m s)) = emitted s /\
  topics (final (processMarker m s)) = topics s /\
  rosTopic (self (final (processMarker m s))) = rosTopic (self s).
Proof. by apply processMarker_frame_gen. Qed.

Lemma forEach_processMarker_frame (batch : list MarkerMsg) s :
  emitted (final (forEach batch processMarker s)) = emitted s /\
  topics (final (forEach batch processMarker s)) = topics s /\
  rosTopic (self (final (forEach batch processMarker s))) = rosTopic (self s).
Proof.
  revert s. induction batch as [|m batch IH]; intros s; [done|].
  simpl. unfold bind.
  destruct (processMarker_frame m s) as (Hem & Hts & Hrt).
  destruct (processMarker m s) as [[] s1|e s1]; simpl in *.
  - destruct (IH s1) as (-> & -> & ->). done.
  - done.
Qed.

(** X5.  One notification per batch.  Whatever the state and the batch:
    when [processMessage] returns, exactly one 'change' was emitted, after
    all directives; when a directive throws, the batch stops there and
    nothing is emitted.  No directive touches the topics. *)
Theorem one_change_per_batch s (batch : list MarkerMsg) :
  let r := processMessage batch s in
  emitted (final r) = emitted s ++ (if returned r then ["change"] else []) /\
  topics (final r) = topics s /\
  returned r = returned (forEach batch processMarker s).
Proof.
  unfold processMessage, bind.
  destruct (forEach_processMarker_frame batch s) as (Hem & Hts & _).
  destruct (forEach batch processMarker s) as [[] s1|e s1]; simpl in *.
  - by rewrite Hem, Hts.
  - by rewrite Hem, Hts, app_nil_r.
Qed.

End MarkerBatches.

(** * MarkerArrayClient: batches that cannot throw *)

Section RenderableFacts.
Context {G : Type}.
Implicit Types (h : list (Obj G)) (o : Obj G).

Lemma renderable_stop_tracking o : renderable (stop_tracking o) = renderable o.
Proof. by destruct o as [[| |] ? ? ?]. Qed.

Lemma heap_add_preserved {A} (proj : Obj G -> A) p c h j :
  (forall o x, proj (set_parent x o) = proj o) ->
  (forall o f, proj (set_children f o) = proj o) ->
  proj <$> heap_add p c h !! j = proj <$> h !! j.
Proof.
  intros Hp Hc. unfold heap_add.
  rewrite lookup_alter_preserved; [|by intros; apply Hc].
  rewrite lookup_alter_preserved; [|by intros; apply Hp].
  destruct (parent_of h c); [by apply heap_remove_preserved | done].
Qed.

Lemma is_renderable_destroyed root node h c :
  is_renderable h c -> is_renderable (destroyed root node h) c.
Proof.
  intros [g Hg]. exists g. unfold destroyed.
  rewrite dispose_all_preserved, heap_remove_preserved by done.
  by rewrite lookup_alter_preserved by apply renderable_stop_tracking.
Qed.

Lemma is_renderable_allocated h c : is_renderable h c -> c < length h.
Proof.
  intros [g Hg]. apply lookup_lt_is_Some. destruct (h !! c); [by eexists | done].
Qed.

Lemma is_renderable_lookup h c :
  is_renderable h c -> exists g par cs d, h !! c = Some (mkObj (Geometry g) par cs d).
Proof.
  intros [g Hg]. destruct (h !! c) as [[[| |g'] par cs d]|]; try done.
  by do 4 eexists.
Qed.

Lemma is_renderable_replace h c0 g g' par cs d c :
  h !! c0 = Some (mkObj (Geometry g) par cs d) ->
  is_renderable h c ->
  is_renderable (<[c0 := mkObj (Geometry g') par cs d]> h) c.
Proof.
  intros Hc0 [g0 Hg0]. destruct (decide (c0 = c)) as [->|Hne].
  - exists g'. by rewrite list_lookup_insert_eq by (by eapply lookup_lt_Some).
  - exists g0. by rewrite list_lookup_insert_ne.
Qed.

End RenderableFacts.

Section MarkerHosting.
Context `{MarkerBuilder}.
Import MarkerArrayClient.
Implicit Types (s : St MarkerState Client) (m : MarkerMsg) (h : list (Obj MarkerState)).

Lemma children_of_added_other m root pth tf h n :
  root < length h -> n < length h -> n <> root ->
  children_of (added m root pth tf h) n = children_of h n.
Proof.
  intros Hroot Hn Hne. unfold added.
  set (mk := mkObj (Geometry (Marker_new m pth)) None [] 0).
  set (nd := mkObj (SceneNode _ tf VUndefined (truthy tf)) None [] 0).
  set (X := (h ++ [mk]) ++ [nd]).
  assert (Hmk : X !! length h = Some mk).
  { subst X. rewrite lookup_app_l by (rewrite length_app; simpl; lia).
    by rewrite list_lookup_middle. }
  assert (Hnd : X !! S (length h) = Some nd).
  { subst X. rewrite (list_lookup_middle (h ++ [mk]) [] nd); [done|].
    rewrite length_app. simpl. lia. }
  assert (Hpar : parent_of X (length h) = None) by (unfold parent_of; by rewrite Hmk).
  rewrite children_of_heap_add_other; [|done|].
  - rewrite children_of_heap_add_other by (done || lia).
    subst X. by rewrite !children_of_app_l by (rewrite ?length_app; simpl; lia).
  - rewrite parent_of_heap_add_other by (done || lia). unfold parent_of. by rewrite Hnd.
Qed.

Lemma is_renderable_added m root pth tf h c :
  is_renderable h c -> is_renderable (added m root pth tf h) c.
Proof.
  intros Hc. pose proof (is_renderable_allocated _ _ Hc) as Hlt.
  destruct Hc as [g Hg]. exists g. unfold added.
  rewrite !heap_add_preserved by done.
  by rewrite !lookup_app_l by (rewrite ?length_app; simpl; lia).
Qed.

Lemma hosting_removeMarker key s :
  hosting s -> hosting (final (removeMarker key s)).
Proof.
  intros Hs k n. rewrite removeMarker_runs.
  destruct s as [h ts con em [? ? ? root ? ms ?]]. unfold hosting in Hs.
  cbn [final self heap markers rootObject set_markers] in *.
  intros Hk.
  assert (Hk' : Js.get k ms = Some n).
  { destruct (decide (key = k)) as [->|Hne].
    - by rewrite get_delete_eq in Hk.
    - by rewrite get_delete_ne in Hk. }
  destruct (Hs k n Hk') as (Hne & c & Hcs & Hc).
  split; [done|]. exists c.
  destruct (Js.get key ms) as [node|]; [|done].
  rewrite children_of_destroyed, decide_False by done.
  split; [done | by apply is_renderable_destroyed].
Qed.

Lemma hosting_add_block m s :
  lockstep s -> hosting s -> hosting (final (add_block m s)).
Proof.
  intros (Hroot & _ & _ & _ & Hall) Hs k n.
  rewrite add_block_runs by done.
  destruct s as [h ts con em [? ? tf root pth ms ?]]. unfold hosting in Hs.
  cbn [final self heap markers rootObject path tfClient set_markers] in *.
  destruct (added_lookup m root pth tf h Hroot) as [Hnode Hmarker].
  destruct (decide (key_of m = k)) as [<-|Hne].
  - rewrite get_set_eq. intros [= <-]. split; [lia|].
    exists (length h). unfold children_of, is_renderable.
    rewrite Hnode, Hmarker. split; [done | by eexists].
  - rewrite get_set_ne by done. intros Hk.
    destruct (Hs k n Hk) as (Hnr & c & Hcs & Hc).
    split; [done|]. exists c.
    rewrite Forall_forall in Hall.
    rewrite children_of_added_other; [|done| |done].
    + split; [done | by apply is_renderable_added].
    + apply Hall. by destruct (get_Some_elem _ _ _ Hk).
Qed.

Lemma hosting_replace s c g g' par cs d :
  heap s !! c = Some (mkObj (Geometry g) par cs d) ->
  hosting s ->
  hosting (with_heap (fun h => <[c := mkObj (Geometry g') par cs d]> h) s).
Proof.
  intros Hc Hs k n Hk. simpl in *.
  destruct (Hs k n Hk) as (Hne & c' & Hcs & Hc').
  split; [done|]. exists c'.
  rewrite (children_of_insert_same _ _ _ _ _ _ _ _ Hc).
  split; [done | by eapply is_renderable_replace].
Qed.

(** With Registry and root in lockstep and every registered node hosting
    its marker, no directive throws. *)
Lemma processMarker_completes m s :
  lockstep s -> hosting s ->
  exists s', processMarker m s = Ok tt s' /\ lockstep s' /\ hosting s'.
Proof.
  intros Hl Hh.
  pose proof (lockstep_processMarker m s Hl) as Hl'.
  unfold processMarker in *.
  destruct (action m =? 0)%Z.
  - unfold bind at 1 in Hl'. unfold this at 1 in Hl'. unfold gets at 1 in Hl'.
    unfold bind at 1. unfold this at 1. unfold gets at 1.
    destruct (Js.get (key_of m) (markers (self s))) as [node|] eqn:Hk.
    + destruct (Hh _ _ Hk) as (Hnr & c & Hcs & Hc).
      destruct (is_renderable_lookup _ _ Hc) as (g & par & cs & d & Hlook).
      assert (Hupd : update_first_child node m s
                     = Ok (Marker_update g m).1
                         (with_heap (fun h =>
                            <[c := mkObj (Geometry (Marker_update g m).2) par cs d]> h) s)).
      { unfold update_first_child. by rewrite Hcs, Hlook. }
      pose proof (lockstep_replace s c g (Marker_update g m).2 par cs d Hlook Hl) as Hl1.
      pose proof (hosting_replace s c g (Marker_update g m).2 par cs d Hlook Hh) as Hh1.
      set (s1 := with_heap _ s) in *.
      unfold bind at 1 in Hl'. unfold bind at 1 in Hl'. rewrite Hupd in Hl'.
      unfold bind at 1. unfold bind at 1. rewrite Hupd.
      destruct (Marker_update g m).1; unfold when, ret in *; cbn [negb] in *.
      * by exists s1.
      * unfold bind at 1 in Hl'. unfold bind at 1.
        pose proof (lockstep_removeMarker (key_of m) s1 Hl1) as Hl2.
        pose proof (hosting_removeMarker (key_of m) s1 Hh1) as Hh2.
        rewrite removeMarker_runs in *.
        cbn [final] in Hl2, Hh2.
        set (s2 := mkSt _ _ _ _ _) in *.
        unfold when in *. cbn [negb] in *.
        pose proof (hosting_add_block m s2 Hl2 Hh2) as Hh3.
        destruct Hl2 as (Hroot2 & _).
        rewrite add_block_runs in * by done.
        eexists. split; [reflexivity|]. by split.
    + unfold bind, ret, when in *. cbn [negb] in *.
      pose proof (hosting_add_block m s Hl Hh) as Hh3.
      destruct Hl as (Hroot & _).
      rewrite add_block_runs in * by done.
      eexists. split; [reflexivity|]. by split.
  - destruct (action m =? 1)%Z; [by eexists|].
    destruct (action m =? 2)%Z.
    { pose proof (hosting_removeMarker (key_of m) s Hh) as Hh2.
      rewrite removeMarker_runs in *. eexists. split; [reflexivity|]. by split. }
    destruct (action m =? 3)%Z; [|by eexists].
    unfold bind at 1 in Hl'. unfold this at 1 in Hl'. unfold gets at 1 in Hl'.
    unfold bind at 1 in Hl'.
    unfold bind at 1. unfold this at 1. unfold gets at 1. unfold bind at 1.
    destruct (forEach_removeMarker (Js.for_in_keys (markers (self s))) s)
      as (h' & Hrun & _).
    rewrite Hrun in *. unfold assign_this, modify in *.
    eexists. split; [reflexivity|]. split; [exact Hl'|].
    intros k n Hk. simpl in Hk. by destruct (self s).
Qed.

Lemma forEach_processMarker_completes (batch : list MarkerMsg) s :
  lockstep s -> hosting s ->
  exists s', forEach batch processMarker s = Ok tt s' /\ lockstep s' /\ hosting s'.
Proof.
  revert s. induction batch as [|m batch IH]; intros s Hl Hh; [by exists s|].
  simpl. unfold bind.
  destruct (processMarker_completes m s Hl Hh) as (s1 & -> & Hl1 & Hh1).
  by apply IH.
Qed.

End MarkerHosting.

(** * Subscriptions of the three clients *)

Section Subscriptions.
Context {G C : Type} (rosTopic : C -> option TopicId).
Implicit Types (s : St G C) (ts : list Topic).

(** What [unsubscribe()] leaves live was live before and is not the
    recorded topic. *)
Lemma unsubscribe_of_runs s :
  exists ts',
    unsubscribe_of rosTopic s = Ok tt (mkSt (heap s) ts' (console s) (emitted s) (self s)) /\
    length ts' = length (topics s) /\
    (forall t, is_subscribed ts' t = true ->
               is_subscribed (topics s) t = true /\ rosTopic (self s) <> Some t).
Proof.
  destruct s as [h ts con em sf]. unfold unsubscribe_of, bind, this, gets. simpl.
  destruct (rosTopic sf) as [t0|] eqn:Hrt.
  - unfold Topic_unsubscribe. simpl. destruct (is_subscribed ts t0) eqn:Hs.
    + exists (alter (set_subscribed false) t0 ts). split; [done|].
      split; [apply length_alter|]. intros t Ht.
      destruct (decide (t0 = t)) as [->|Hne].
      * rewrite is_subscribed_alter_false in Ht by (by right). done.
      * unfold is_subscribed in *. rewrite list_lookup_alter_ne in Ht by done.
        split; [done | congruence].
    + exists ts. split; [done|]. split; [done|]. intros t Ht.
      split; [done|]. intros [= ->]. congruence.
  - exists ts. split; [done|]. split; [done|]. intros t Ht. by split.
Qed.

(** Subscribing a topic that was just created. *)
Lemma is_subscribed_fresh ts tp t :
  is_subscribed (alter (set_subscribed true) (length ts) (ts ++ [tp])) t
  = (is_subscribed ts t || Nat.eqb t (length ts)).
Proof.
  unfold is_subscribed. destruct (decide (t = length ts)) as [->|Hne].
  - rewrite list_lookup_alter_eq, list_lookup_middle by done.
    rewrite Nat.eqb_refl, orb_true_r. done.
  - rewrite list_lookup_alter_ne by done.
    rewrite (proj2 (Nat.eqb_neq _ _) Hne), orb_false_r.
    destruct (decide (t < length ts)).
    + by rewrite lookup_app_l.
    + rewrite !lookup_ge_None_2; [done | lia | rewrite length_app; simpl; lia].
Qed.

Lemma only_recorded_live_quiet s s' :
  rosTopic (self s') = rosTopic (self s) ->
  (forall t, is_subscribed (topics s') t = true -> is_subscribed (topics s) t = true) ->
  only_recorded_live rosTopic s -> only_recorded_live rosTopic s'.
Proof. intros Hrt Hq Hs t Ht. rewrite Hrt. by apply Hs, Hq. Qed.

Lemma only_recorded_live_unsubscribe s :
  only_recorded_live rosTopic s ->
  forall t, is_subscribed (topics (final (unsubscribe_of rosTopic s))) t = false.
Proof.
  intros Hs t. destruct (unsubscribe_of_runs s) as (ts' & -> & _ & Hl). simpl.
  destruct (is_subscribed ts' t) eqn:Ht; [|done].
  destruct (Hl t Ht) as [Hwas Hnot]. by apply Hs in Hwas.
Qed.

End Subscriptions.

Section SubscribeRuns.
#[local] Arguments is_subscribed : simpl never.

Lemma marker_subscribe_runs `{MarkerBuilder} (s : St MarkerState MarkerArrayClient.Client) :
  exists ts1,
    MarkerArrayClient.subscribe s
    = Ok tt (mkSt (heap s)
               (alter (set_subscribed true) (length (topics s))
                  (ts1 ++ [mkTopic (MarkerArrayClient.topicName (self s))
                             "visualization_msgs/MarkerArray" (VStr "png") None false]))
               (console s) (emitted s)
               (MarkerArrayClient.set_rosTopic (Some (length (topics s))) (self s))) /\
    length ts1 = length (topics s) /\
    (forall t, is_subscribed ts1 t = true ->
               is_subscribed (topics s) t = true /\
               MarkerArrayClient.rosTopic (self s) <> Some t).
Proof.
  destruct (unsubscribe_of_runs MarkerArrayClient.rosTopic s) as (ts1 & E & Hlen & Hl).
  exists ts1. split; [|by split].
  unfold MarkerArrayClient.subscribe. unfold bind at 1.
  change MarkerArrayClient.unsubscribe with (unsubscribe_of (G := MarkerState) MarkerArrayClient.rosTopic).
  rewrite E. unfold new_Topic, Topic_subscribe. run. by rewrite Hlen.
Qed.

Lemma grid_subscribe_runs (s : St OccupancyGridClient.OccupancyGrid OccupancyGridClient.Client) :
  exists ts1,
    OccupancyGridClient.subscribe s
    = Ok tt (mkSt (heap s)
               (alter (set_subscribed true) (length (topics s))
                  (ts1 ++ [mkTopic (OccupancyGridClient.topicName (self s))
                             "nav_msgs/OccupancyGrid"
                             (OccupancyGridClient.compression (self s)) (Some 1) false]))
               (console s) (emitted s)
               (OccupancyGridClient.set_sceneNode None
                  (OccupancyGridClient.set_rosTopic (Some (length (topics s))) (self s)))) /\
    length ts1 = length (topics s) /\
    (forall t, is_subscribed ts1 t = true ->
               is_subscribed (topics s) t = true /\
               OccupancyGridClient.rosTopic (self s) <> Some t).
Proof.
  destruct (unsubscribe_of_runs OccupancyGridClient.rosTopic s) as (ts1 & E & Hlen & Hl).
  exists ts1. split; [|by split].
  unfold OccupancyGridClient.subscribe. unfold bind at 1.
  change OccupancyGridClient.unsubscribe
    with (unsubscribe_of (G := OccupancyGridClient.OccupancyGrid) OccupancyGridClient.rosTopic).
  rewrite E. unfold new_Topic, Topic_subscribe. run. by rewrite Hlen.
Qed.

Lemma octree_subscribe_runs (s : St OcTreeClient.Voxels OcTreeClient.Client) :
  exists ts1,
    OcTreeClient.subscribe s
    = Ok tt (mkSt (heap s)
               (alter (set_subscribed true) (length (topics s))
                  (ts1 ++ [mkTopic (OcTreeClient.topicName (self s))
                             "octomap_msgs/Octomap"
                             (OcTreeClient.compression (self s)) (Some 1) false]))
               (console s) (emitted s)
               (OcTreeClient.set_rosTopic (Some (length (topics s))) (self s))) /\
    length ts1 = length (topics s) /\
    (forall t, is_subscribed ts1 t = true ->
               is_subscribed (topics s) t = true /\
               OcTreeClient.rosTopic (self s) <> Some t).
Proof.
  destruct (unsubscribe_of_runs OcTreeClient.rosTopic s) as (ts1 & E & Hlen & Hl).
  exists ts1. split; [|by split].
  unfold OcTreeClient.subscribe. unfold bind at 1.
  change OcTreeClient.unsubscribe
    with (unsubscribe_of (G := OcTreeClient.Voxels) OcTreeClient.rosTopic).
  rewrite E. unfold new_Topic, Topic_subscribe. run. by rewrite Hlen.
Qed.

(** After [subscribe()], when only the recorded topic could be live
    before: exactly the new topic is live. *)
Lemma resubscribed_exactly (ts1 ts : list Topic) (tp : Topic) (t : TopicId) :
  length ts1 = length ts ->
  (forall t', is_subscribed ts1 t' = false) ->
  is_subscribed (alter (set_subscribed true) (length ts) (ts1 ++ [tp])) t
  = Nat.eqb t (length ts).
Proof.
  intros Hlen Hoff. rewrite <- Hlen, is_subscribed_fresh. by rewrite Hoff.
Qed.

Lemma resubscribed_lookup (ts1 ts : list Topic) (tp : Topic) :
  length ts1 = length ts ->
  alter (set_subscribed true) (length ts) (ts1 ++ [tp]) !! length ts
  = Some (set_subscribed true tp).
Proof.
  intros Hlen. rewrite <- Hlen. by rewrite list_lookup_alter_eq, list_lookup_middle.
Qed.

Lemma quiet_before {C G} (rosTopic : C -> option TopicId) (s : St G C) (ts1 : list Topic) :
  only_recorded_live rosTopic s ->
  (forall t, is_subscribed ts1 t = true ->
             is_subscribed (topics s) t = true /\ rosTopic (self s) <> Some t) ->
  forall t, is_subscribed ts1 t = false.
Proof.
  intros Hs Hl t. destruct (is_subscribed ts1 t) eqn:Ht; [|done].
  destruct (Hl t Ht) as [Hwas Hnot]. by apply Hs in Hwas.
Qed.

End SubscribeRuns.

(** X9.  Re-subscribing moves the subscription.  For each of the three
    clients, in a state where no topic other than the recorded one is live:
    [subscribe()] returns, creates one topic with the client's topic name
    (and, for the grid and octree clients, its compression and a queue
    length of 1; 'png' and no queue length for the marker client), records
    it and subscribes it; afterwards that topic is the only live one.  The
    scene and the emitted events are unchanged; the grid client's
    [sceneNode] is reset to null, its [currentGrid] is kept. *)
Theorem resubscribe_moves_subscription :
  (forall (B : MarkerBuilder) (s : St MarkerState MarkerArrayClient.Client),
     only_recorded_live MarkerArrayClient.rosTopic s ->
     let r := MarkerArrayClient.subscribe s in
     let t := length (topics s) in
     returned r = true /\
     MarkerArrayClient.rosTopic (self (final r)) = Some t /\
     topics (final r) !! t
     = Some (mkTopic (MarkerArrayClient.topicName (self s)) "visualization_msgs/MarkerArray"
               (VStr "png") None true) /\
     (forall t', is_subscribed (topics (final r)) t' = Nat.eqb t' t) /\
     heap (final r) = heap s /\ emitted (final r) = emitted s /\
     MarkerArrayClient.markers (self (final r)) = MarkerArrayClient.markers (self s)) /\
  (forall (s : St OccupancyGridClient.OccupancyGrid OccupancyGridClient.Client),
     only_recorded_live OccupancyGridClient.rosTopic s ->
     let r := OccupancyGridClient.subscribe s in
     let t := length (topics s) in
     returned r = true /\
     OccupancyGridClient.rosTopic (self (final r)) = Some t /\
     topics (final r) !! t
     = Some (mkTopic (OccupancyGridClient.topicName (self s)) "nav_msgs/OccupancyGrid"
               (OccupancyGridClient.compression (self s)) (Some 1) true) /\
     (forall t', is_subscribed (topics (final r)) t' = Nat.eqb t' t) /\
     heap (final r) = heap s /\ emitted (final r) = emitted s /\
     OccupancyGridClient.sceneNode (self (final r)) = None /\
     OccupancyGridClient.currentGrid (self (final r)) = OccupancyGridClient.currentGrid (self s)) /\
  (forall (D : OcTreeDecoder) (s : St OcTreeClient.Voxels OcTreeClient.Client),
     only_recorded_live OcTreeClient.rosTopic s ->
     let r := OcTreeClient.subscribe s in
     let t := length (topics s) in
     returned r = true /\
     OcTreeClient.rosTopic (self (final r)) = Some t /\
     topics (final r) !! t
     = Some (mkTopic (OcTreeClient.topicName (self s)) "octomap_msgs/Octomap"
               (OcTreeClient.compression (self s)) (Some 1) true) /\
     (forall t', is_subscribed (topics (final r)) t' = Nat.eqb t' t) /\
     heap (final r) = heap s /\ emitted (final r) = emitted s /\
     OcTreeClient.currentMap (self (final r)) = OcTreeClient.currentMap (self s) /\
     OcTreeClient.sceneNode (self (final r)) = OcTreeClient.sceneNode (self s)).
Proof.
  split; [|split].
  - intros B s Hs.
    destruct (marker_subscribe_runs s) as (ts1 & -> & Hlen & Hl).
    pose proof (quiet_before _ s ts1 Hs Hl) as Hoff.
    cbn [returned final self heap topics emitted].
    split; [done|]. split; [by destruct (self s)|].
    split; [by apply resubscribed_lookup|].
    split; [intros t'; by apply resubscribed_exactly|].
    by destruct (self s).
  - intros s Hs.
    destruct (grid_subscribe_runs s) as (ts1 & -> & Hlen & Hl).
    pose proof (quiet_before _ s ts1 Hs Hl) as Hoff.
    cbn [returned final self heap topics emitted].
    split; [done|]. split; [by destruct (self s)|].
    split; [by apply resubscribed_lookup|].
    split; [intros t'; by apply resubscribed_exactly|].
    by destruct (self s).
  - intros D s Hs.
    destruct (octree_subscribe_runs s) as (ts1 & -> & Hlen & Hl).
    pose proof (quiet_before _ s ts1 Hs Hl) as Hoff.
    cbn [returned final self heap topics emitted].
    split; [done|]. split; [by destruct (self s)|].
    split; [by apply resubscribed_lookup|].
    split; [intros t'; by apply resubscribed_exactly|].
    by destruct (self s).
Qed.

Section QuietHandlers.
#[local] Arguments is_subscribed : simpl never.
#[local] Arguments truthy : simpl never.
#[local] Arguments heap_add : simpl never.
#[local] Arguments heap_remove : simpl never.
#[local] Arguments Nat.eqb : simpl never.

(** Tearing the recorded topic down, unguarded, as the handlers do. *)
Lemma Topic_unsubscribe_quiet {G C} (t0 : TopicId) (s : St G C) :
  exists ts', Topic_unsubscribe t0 s = Ok tt (mkSt (heap s) ts' (console s) (emitted s) (self s)) /\
    length ts' = length (topics s) /\
    is_subscribed ts' t0 = false /\
    (forall t, is_subscribed ts' t = true -> is_subscribed (topics s) t = true).
Proof.
  destruct s as [h ts con em sf]. unfold Topic_unsubscribe. simpl.
  destruct (is_subscribed ts t0) eqn:Hs.
  - exists (alter (set_subscribed false) t0 ts). split; [done|]. split; [apply length_alter|].
    split; [apply is_subscribed_alter_false; by right|].
    intros t Ht. destruct (decide (t0 = t)) as [->|Hne]; [done|].
    unfold is_subscribed in *. by rewrite list_lookup_alter_ne in Ht.
  - by exists ts.
Qed.

(** The grid handler creates no topic, records no other topic and
    subscribes nothing. *)
Lemma grid_processMessage_quiet m s :
  let s' := final (OccupancyGridClient.processMessage m s) in
  OccupancyGridClient.rosTopic (self s') = OccupancyGridClient.rosTopic (self s) /\
  length (topics s') = length (topics s) /\
  (forall t, is_subscribed (topics s') t = true -> is_subscribed (topics s) t = true).
Proof.
  destruct s as [h ts con em [f1 f2 f3 cont tf root f7 f8 f9 cg rt sn]].
  unfold OccupancyGridClient.processMessage, OccupancyGridClient.rosTopic_unsubscribe.
  run.
  repeat match goal with
         | |- context [match ?x with _ => _ end] =>
             first [is_var x; destruct x
                   | match x with
                     | truthy _ => destruct x
                     | Nat.eqb _ _ => destruct x
                     | negb (truthy ?c) => destruct (truthy c)
                     end]; simpl
         end;
    try (by repeat split);
    match goal with
    | |- context [Topic_unsubscribe ?t ?s0] =>
        destruct (Topic_unsubscribe_quiet t s0) as (ts' & -> & Hlen & _ & Hq)
    end; by repeat split.
Qed.

Ltac case_split :=
  repeat match goal with
         | |- context [match ?x with _ => _ end] =>
             lazymatch x with
             | context [match _ with _ => _ end] => fail
             | negb (truthy ?c) => destruct (truthy c)
             | _ => destruct x
             end; simpl
         end.

Lemma octree_processMessage_quiet `{OcTreeDecoder} m s :
  let s' := final (OcTreeClient.processMessage m s) in
  OcTreeClient.rosTopic (self s') = OcTreeClient.rosTopic (self s) /\
  length (topics s') = length (topics s) /\
  (forall t, is_subscribed (topics s') t = true -> is_subscribed (topics s) t = true).
Proof.
  destruct s as [h ts con em [f1 f2 f3 cont tf root f7 opts cm rt sn q]].
  unfold OcTreeClient.processMessage, OcTreeClient._processMessagePrivate,
    OcTreeClient._loadOcTree, OcTreeClient.new_Promise, OcTreeClient.executor,
    OcTreeClient.construct_and_read, OcTreeClient.rosTopic_unsubscribe,
    OcTreeClient.Tree_tfClient.
  run. case_split;
    try (by repeat split);
    match goal with
    | |- context [Topic_unsubscribe ?t ?s0] =>
        destruct (Topic_unsubscribe_quiet t s0) as (ts' & -> & Hlen & _ & Hq)
    end; by repeat split.
Qed.

Lemma forEach_install_quiet `{OcTreeDecoder} (jobs : list (OcTreeClient.Tree * OcTreeClient.Msg)) s :
  let s' := final (forEach jobs (fun j => OcTreeClient.install j.1 j.2) s) in
  returned (forEach jobs (fun j => OcTreeClient.install j.1 j.2) s) = true /\
  OcTreeClient.rosTopic (self s') = OcTreeClient.rosTopic (self s) /\
  topics s' = topics s.
Proof.
  revert s. induction jobs as [|[tree msg] jobs IH]; intros s; [done|].
  simpl. unfold bind.
  destruct (install_spec tree msg s) as (s1 & -> & Hts & _ & Hrt & _).
  destruct (IH s1) as (Hret & Hrt' & Hts'). simpl in *.
  by rewrite Hret, Hrt', Hts', Hrt, Hts.
Qed.

Lemma run_microtasks_quiet `{OcTreeDecoder} s :
  let s' := final (OcTreeClient.run_microtasks s) in
  returned (OcTreeClient.run_microtasks s) = true /\
  OcTreeClient.rosTopic (self s') = OcTreeClient.rosTopic (self s) /\
  topics s' = topics s.
Proof.
  unfold OcTreeClient.run_microtasks. unfold bind, this, gets, assign_this, modify.
  match goal with
  | |- context [forEach ?jobs _ ?s0] =>
      destruct (forEach_install_quiet jobs s0) as (Hret & Hrt & Hts)
  end.
  simpl in *. rewrite Hret, Hrt, Hts. by destruct (self s).
Qed.

Lemma octree_deliver_quiet `{OcTreeDecoder} t m s :
  let s' := final (OcTreeClient.deliver t m s) in
  OcTreeClient.rosTopic (self s') = OcTreeClient.rosTopic (self s) /\
  length (topics s') = length (topics s) /\
  (forall t, is_subscribed (topics s') t = true -> is_subscribed (topics s) t = true).
Proof.
  unfold OcTreeClient.deliver.
  match goal with
  | |- context [OcTreeClient.run_microtasks ?s0] =>
      destruct (run_microtasks_quiet s0) as (_ & -> & ->)
  end.
  unfold transport_deliver. destruct (is_subscribed (topics s) t); [|done].
  apply octree_processMessage_quiet.
Qed.

Lemma grid_deliver_quiet t m s :
  let s' := final (OccupancyGridClient.deliver t m s) in
  OccupancyGridClient.rosTopic (self s') = OccupancyGridClient.rosTopic (self s) /\
  length (topics s') = length (topics s) /\
  (forall t, is_subscribed (topics s') t = true -> is_subscribed (topics s) t = true).
Proof.
  unfold OccupancyGridClient.deliver, transport_deliver.
  destruct (is_subscribed (topics s) t); [|done].
  apply grid_processMessage_quiet.
Qed.

End QuietHandlers.

Section OneLiveSubscription.
#[local] Arguments is_subscribed : simpl never.

Lemma only_recorded_live_fresh {G C} (rosTopic : C -> option TopicId)
    (h : list (Obj G)) con em (sf : C) :
  only_recorded_live rosTopic (mkSt h [] con em sf).
Proof. intros t Ht. by destruct t. Qed.

Lemma marker_subscribe_live `{MarkerBuilder} (s : St MarkerState MarkerArrayClient.Client) :
  only_recorded_live MarkerArrayClient.rosTopic s ->
  only_recorded_live MarkerArrayClient.rosTopic (final (MarkerArrayClient.subscribe s)).
Proof.
  intros Hs. destruct (marker_subscribe_runs s) as (ts1 & -> & Hlen & Hl).
  pose proof (quiet_before _ s ts1 Hs Hl) as Hoff.
  intros t. cbn [final self topics]. rewrite (resubscribed_exactly ts1) by done.
  intros ->%Nat.eqb_eq. by destruct (self s).
Qed.

Lemma grid_subscribe_live (s : St OccupancyGridClient.OccupancyGrid OccupancyGridClient.Client) :
  only_recorded_live OccupancyGridClient.rosTopic s ->
  only_recorded_live OccupancyGridClient.rosTopic (final (OccupancyGridClient.subscribe s)).
Proof.
  intros Hs. destruct (grid_subscribe_runs s) as (ts1 & -> & Hlen & Hl).
  pose proof (quiet_before _ s ts1 Hs Hl) as Hoff.
  intros t. cbn [final self topics]. rewrite (resubscribed_exactly ts1) by done.
  intros ->%Nat.eqb_eq. by destruct (self s).
Qed.

Lemma octree_subscribe_live (s : St OcTreeClient.Voxels OcTreeClient.Client) :
  only_recorded_live OcTreeClient.rosTopic s ->
  only_recorded_live OcTreeClient.rosTopic (final (OcTreeClient.subscribe s)).
Proof.
  intros Hs. destruct (octree_subscribe_runs s) as (ts1 & -> & Hlen & Hl).
  pose proof (quiet_before _ s ts1 Hs Hl) as Hoff.
  intros t. cbn [final self topics]. rewrite (resubscribed_exactly ts1) by done.
  intros ->%Nat.eqb_eq. by destruct (self s).
Qed.

Lemma unsubscribe_of_live {G C} (rosTopic : C -> option TopicId) (s : St G C) :
  only_recorded_live rosTopic s ->
  only_recorded_live rosTopic (final (unsubscribe_of rosTopic s)).
Proof.
  intros Hs t Ht. by rewrite only_recorded_live_unsubscribe in Ht.
Qed.

Lemma marker_deliver_quiet `{MarkerBuilder} t batch (s : St MarkerState MarkerArrayClient.Client) :
  let s' := final (MarkerArrayClient.deliver t batch s) in
  MarkerArrayClient.rosTopic (self s') = MarkerArrayClient.rosTopic (self s) /\
  topics s' = topics s.
Proof.
  unfold MarkerArrayClient.deliver, transport_deliver.
  destruct (is_subscribed (topics s) t); [|done].
  unfold MarkerArrayClient.processMessage, bind.
  destruct (forEach_processMarker_frame batch s) as (_ & Hts & Hrt).
  destruct (forEach batch MarkerArrayClient.processMarker s) as [[] s1|e s1]; simpl in *; done.
Qed.

End OneLiveSubscription.

(** X10.  No client ever holds two live subscriptions.  For each of the
    three clients: after construction no topic other than the recorded one
    is live, and [subscribe()], [unsubscribe()] and the delivery of any
    message on any topic keep it so, whether they return or throw. *)
Theorem single_live_subscription :
  (forall (B : MarkerBuilder),
     (forall o scene,
        only_recorded_live MarkerArrayClient.rosTopic
          (final (MarkerArrayClient.constructor o scene))) /\
     (forall s : St MarkerState MarkerArrayClient.Client,
        only_recorded_live MarkerArrayClient.rosTopic s ->
        only_recorded_live MarkerArrayClient.rosTopic (final (MarkerArrayClient.subscribe s)) /\
        only_recorded_live MarkerArrayClient.rosTopic (final (MarkerArrayClient.unsubscribe s)) /\
        forall t batch,
          only_recorded_live MarkerArrayClient.rosTopic
            (final (MarkerArrayClient.deliver t batch s)))) /\
  ((forall o scene,
      only_recorded_live OccupancyGridClient.rosTopic
        (final (OccupancyGridClient.constructor o scene))) /\
   (forall s : St OccupancyGridClient.OccupancyGrid OccupancyGridClient.Client,
      only_recorded_live OccupancyGridClient.rosTopic s ->
      only_recorded_live OccupancyGridClient.rosTopic (final (OccupancyGridClient.subscribe s)) /\
      only_recorded_live OccupancyGridClient.rosTopic (final (OccupancyGridClient.unsubscribe s)) /\
      forall t m,
        only_recorded_live OccupancyGridClient.rosTopic
          (final (OccupancyGridClient.deliver t m s)))) /\
  (forall (D : OcTreeDecoder),
     (forall o scene,
        only_recorded_live OcTreeClient.rosTopic (final (OcTreeClient.constructor o scene))) /\
     (forall s : St OcTreeClient.Voxels OcTreeClient.Client,
        only_recorded_live OcTreeClient.rosTopic s ->
        only_recorded_live OcTreeClient.rosTopic (final (OcTreeClient.subscribe s)) /\
        only_recorded_live OcTreeClient.rosTopic (final (OcTreeClient.unsubscribe s)) /\
        forall t m,
          only_recorded_live OcTreeClient.rosTopic (final (OcTreeClient.deliver t m s)))).
Proof.
  split; [|split].
  - intros B. split.
    + intros o scene. unfold MarkerArrayClient.constructor.
      destruct (root_or_new o scene) as [root scene'].
      apply marker_subscribe_live, only_recorded_live_fresh.
    + intros s Hs. split; [by apply marker_subscribe_live|].
      split; [by apply (unsubscribe_of_live MarkerArrayClient.rosTopic)|].
      intros t batch. destruct (marker_deliver_quiet t batch s) as [Hrt Hts].
      apply (only_recorded_live_quiet _ s); [done | by rewrite Hts | done].
  - split.
    + intros o scene. unfold OccupancyGridClient.constructor.
      destruct (root_or_new o scene) as [root scene'].
      apply grid_subscribe_live, only_recorded_live_fresh.
    + intros s Hs. split; [by apply grid_subscribe_live|].
      split; [by apply (unsubscribe_of_live OccupancyGridClient.rosTopic)|].
      intros t m. destruct (grid_deliver_quiet t m s) as (Hrt & _ & Hq).
      by apply (only_recorded_live_quiet _ s).
  - intros D. split.
    + intros o scene. unfold OcTreeClient.constructor.
      destruct (root_or_new o scene) as [root scene'].
      apply octree_subscribe_live, only_recorded_live_fresh.
    + intros s Hs. split; [by apply octree_subscribe_live|].
      split; [by apply (unsubscribe_of_live OcTreeClient.rosTopic)|].
      intros t m. destruct (octree_deliver_quiet t m s) as (Hrt & _ & Hq).
      by apply (only_recorded_live_quiet _ s).
Qed.

(** * MarkerArrayClient: the invariants over the client's life *)

Section MarkerLife.
Context `{MarkerBuilder}.
Import MarkerArrayClient.
#[local] Arguments is_subscribed : simpl never.
Implicit Types (s : St MarkerState Client) (m : MarkerMsg).

Lemma lockstep_same s s' :
  heap s' = heap s -> markers (self s') = markers (self s) ->
  rootObject (self s') = rootObject (self s) ->
  lockstep s -> lockstep s'.
Proof. unfold lockstep. by intros -> -> ->. Qed.

Lemma hosting_same s s' :
  heap s' = heap s -> markers (self s') = markers (self s) ->
  rootObject (self s') = rootObject (self s) ->
  hosting s -> hosting s'.
Proof. unfold hosting. by intros -> -> ->. Qed.

Lemma subscribe_same s :
  let s' := final (subscribe s) in
  returned (subscribe s) = true /\
  heap s' = heap s /\ markers (self s') = markers (self s) /\
  rootObject (self s') = rootObject (self s) /\ emitted s' = emitted s.
Proof.
  destruct (marker_subscribe_runs s) as (ts1 & -> & _). simpl. by destruct (self s).
Qed.

Lemma unsubscribe_same s :
  let s' := final (unsubscribe s) in
  returned (unsubscribe s) = true /\
  heap s' = heap s /\ self s' = self s /\ emitted s' = emitted s.
Proof.
  change unsubscribe with (unsubscribe_of (G := MarkerState) rosTopic).
  by destruct (unsubscribe_of_runs rosTopic s) as (ts1 & -> & _).
Qed.

Lemma constructor_fresh (o : Options.t) scene :
  Options.rootObject o = None ->
  let s := final (constructor o scene) in
  returned (constructor o scene) = true /\
  heap s = scene ++ [mkObj Object3D None [] 0] /\
  markers (self s) = [] /\ rootObject (self s) = length scene /\ emitted s = [].
Proof.
  intros Ho. unfold constructor, root_or_new. rewrite Ho.
  match goal with
  | |- context [subscribe ?s0] => destruct (subscribe_same s0) as (Hret & Hh & Hms & Hr & Hem)
  end.
  split; [exact Hret|]. rewrite Hh, Hms, Hr, Hem. done.
Qed.

Lemma lockstep_constructor (o : Options.t) scene :
  Options.rootObject o = None -> lockstep (final (constructor o scene)).
Proof.
  intros Ho. destruct (constructor_fresh o scene Ho) as (_ & Hh & Hms & Hr & _).
  unfold lockstep. rewrite Hh, Hms, Hr. unfold children_of.
  rewrite list_lookup_middle by done. rewrite length_app. simpl.
  split; [lia|]. split; [done|]. split; [apply NoDup_nil_2|].
  split; [apply NoDup_nil_2 | apply Forall_nil_2].
Qed.

Lemma hosting_constructor (o : Options.t) scene :
  Options.rootObject o = None -> hosting (final (constructor o scene)).
Proof.
  intros Ho. destruct (constructor_fresh o scene Ho) as (_ & _ & Hms & _).
  intros k n. by rewrite Hms.
Qed.

Lemma lockstep_processMessage batch s :
  lockstep s -> lockstep (final (processMessage batch s)).
Proof.
  intros Hs. pose proof (lockstep_forEach batch s Hs) as Hs'.
  unfold processMessage, bind.
  by destruct (forEach batch processMarker s) as [[] s1|e s1].
Qed.

(** X6.  No batch throws on a client that only ever received batches.  In
    a state where Registry and root are in lockstep and every registered
    node hosts a marker as its only child (the state after construction
    without a [rootObject] option is one), any batch returns normally,
    leaves such a state, emits exactly one 'change' and touches no topic. *)
Theorem batches_complete batch s :
  lockstep s -> hosting s ->
  exists s', processMessage batch s = Ok tt s' /\ lockstep s' /\ hosting s' /\
    emitted s' = emitted s ++ ["change"] /\ topics s' = topics s.
Proof.
  intros Hl Hh.
  destruct (forEach_processMarker_completes batch s Hl Hh) as (s1 & E & Hl1 & Hh1).
  destruct (forEach_processMarker_frame batch s) as (Hem & Hts & _).
  unfold processMessage, bind. rewrite E in *. simpl in *.
  eexists. split; [reflexivity|]. simpl. by rewrite Hem, Hts.
Qed.

End MarkerLife.

(** X1.  Registry and scene stay in lockstep.  A marker client constructed
    without a [rootObject] option starts with an allocated root whose
    children are exactly the nodes the Registry holds, in insertion order,
    no key and no node registered twice.  Every batch keeps this, whatever
    its directives and whether it returns or throws; so do the delivery of
    a batch on any topic, [subscribe()] and [unsubscribe()]. *)
Theorem registry_scene_lockstep (B : MarkerBuilder) :
  (forall o scene, Options.rootObject o = None ->
     lockstep (final (MarkerArrayClient.constructor o scene))) /\
  (forall s, lockstep s ->
     (forall batch, lockstep (final (MarkerArrayClient.processMessage batch s))) /\
     (forall t batch, lockstep (final (MarkerArrayClient.deliver t batch s))) /\
     lockstep (final (MarkerArrayClient.subscribe s)) /\
     lockstep (final (MarkerArrayClient.unsubscribe s))).
Proof.
  split; [apply lockstep_constructor|].
  intros s Hs. split; [intros batch; by apply lockstep_processMessage|].
  split.
  - intros t batch. unfold MarkerArrayClient.deliver, transport_deliver.
    destruct (is_subscribed (topics s) t); [by apply lockstep_processMessage | done].
  - destruct (subscribe_same s) as (_ & Hh & Hms & Hr & _).
    destruct (unsubscribe_same s) as (_ & Hh' & Hsf & _).
    split; [by apply (lockstep_same s) | apply (lockstep_same s); by rewrite ?Hsf].
Qed.

(** A fresh client takes a batch that adds, replaces, warns and deletes
    all. *)
Lemma batches_complete_witness :
  let s := final (MarkerArrayClient.constructor (H := Samples.rebuilding)
                    Samples.marker_options []) in
  let batch := [Samples.marker "a" 1 0; Samples.marker "a" 1 0; Samples.marker "b" 2 1;
                Samples.marker "c" 3 3] in
  exists s', MarkerArrayClient.processMessage batch s = Ok tt s' /\ emitted s' = ["change"].
Proof.
  intros s batch.
  destruct (batches_complete (H := Samples.rebuilding) batch s) as (s' & E & _ & _ & Hem & _).
  - by apply lockstep_constructor.
  - by apply hosting_constructor.
  - exists s'. split; [exact E | exact Hem].
Defined.

(** A first ADD on a fresh client. *)
Lemma add_directive_inserts_witness :
  let s := final (MarkerArrayClient.constructor (H := Samples.rebuilding)
                    Samples.marker_options []) in
  let s' := final (MarkerArrayClient.processMarker (Samples.marker "a" 1 0) s) in
  Js.get "a1" (MarkerArrayClient.markers (self s')) = Some 2 /\
  children_of (heap s') 0 = [2] /\
  length (heap s') = 3.
Proof.
  intros s s'.
  destruct (add_directive_inserts (H := Samples.rebuilding) s (Samples.marker "a" 1 0))
    as (_ & Hk & _ & Hcs & _ & _ & Hlen & _).
  - reflexivity.
  - reflexivity.
  - vm_compute. lia.
  - split; [exact Hk|]. split; [exact Hcs | exact Hlen].
Defined.

(** The marker ['a', 1] shown by a client whose builder updates in place
    takes a second ADD/MODIFY. *)
Lemma update_in_place_keeps_structure_witness :
  let s := final (MarkerArrayClient.processMessage (H := Samples.updating)
                    [Samples.marker "a" 1 0]
                    (final (MarkerArrayClient.constructor Samples.marker_options []))) in
  let s' := final (MarkerArrayClient.processMarker (Samples.marker "a" 1 0) s) in
  self s' = self s /\ length (heap s') = 3 /\ children_of (heap s') 0 = [2].
Proof.
  intros s s'.
  destruct (update_in_place_keeps_structure (H := Samples.updating) s (Samples.marker "a" 1 0)
              2 1 [] (Samples.marker "a" 1 0) (Some 2) [] 0)
    as (_ & Hself & Hlen & _ & Hall & _).
  - reflexivity.
  - reflexivity.
  - reflexivity.
  - reflexivity.
  - reflexivity.
  - split; [exact Hself|]. split; [exact Hlen|]. exact (proj1 (Hall 0)).
Defined.

(** DELETE ALL on the client that shows the marker ['a', 1]. *)
Lemma delete_all_directive_witness :
  let s := final (MarkerArrayClient.processMessage (H := Samples.rebuilding)
                    [Samples.marker "a" 1 0]
                    (final (MarkerArrayClient.constructor Samples.marker_options []))) in
  let s' := final (MarkerArrayClient.processMarker (Samples.marker "x" 0 3) s) in
  MarkerArrayClient.markers (self s') = [] /\
  children_of (heap s') 0 = [] /\
  tracking (heap s') 2 = false.
Proof.
  intros s s'.
  destruct (delete_all_directive (H := Samples.rebuilding) s (Samples.marker "x" 0 3))
    as (_ & Hms & Hcs & Hoff & _).
  - reflexivity.
  - apply lockstep_processMessage. by apply lockstep_constructor.
  - split; [exact Hms|]. split; [exact Hcs|]. apply Hoff.
    apply (bool_decide_unpack _). vm_compute. exact I.
Defined.

(** ADD then DELETE of ['a', 1] on a fresh client. *)
Lemma add_then_delete_restores_witness :
  let s := final (MarkerArrayClient.constructor (H := Samples.rebuilding)
                    Samples.marker_options []) in
  let s1 := final (MarkerArrayClient.processMarker (Samples.marker "a" 1 0) s) in
  let s2 := final (MarkerArrayClient.processMarker (Samples.marker "a" 1 2) s1) in
  MarkerArrayClient.markers (self s2) = [] /\
  children_of (heap s2) 0 = [] /\
  disposals (heap s2) 1 = 1.
Proof.
  intros s s1 s2.
  destruct (add_then_delete_restores (H := Samples.rebuilding) s
              (Samples.marker "a" 1 0) (Samples.marker "a" 1 2))
    as (_ & Hms & Hcs & _ & Hd & _).
  - reflexivity.
  - reflexivity.
  - reflexivity.
  - by apply lockstep_constructor.
  - reflexivity.
  - split; [exact Hms|]. split; [exact Hcs | exact Hd].
Defined.

(** * The grid client with a TF client *)

(** A renderable and, after it, the node that hosts it, the node added to
    [root]: the store after the two allocations and the two [add]s. *)
Lemma hosted_pair {G} (h : list (Obj G)) (bm bn : Body G) (root : ObjId) :
  root < length h ->
  let L := length h in
  let X := heap_add root (S L)
             (heap_add (S L) L ((h ++ [mkObj bm None [] 0]) ++ [mkObj bn None [] 0])) in
  X !! S L = Some (mkObj bn (Some root) [L] 0) /\
  X !! L = Some (mkObj bm (Some (S L)) [] 0) /\
  children_of X root = children_of h root ++ [S L] /\
  length X = S (S L) /\
  unreleased h X.
Proof.
  intros Hroot L X0. subst L X0.
  set (mk := mkObj bm None [] 0). set (nd := mkObj bn None [] 0).
  set (X := (h ++ [mk]) ++ [nd]).
  assert (Hmk : X !! length h = Some mk).
  { subst X. rewrite lookup_app_l by (rewrite length_app; simpl; lia).
    by rewrite list_lookup_middle. }
  assert (Hnd : X !! S (length h) = Some nd).
  { subst X. rewrite (list_lookup_middle (h ++ [mk]) [] nd); [done|].
    rewrite length_app. simpl. lia. }
  assert (Hpar : parent_of X (length h) = None) by (unfold parent_of; by rewrite Hmk).
  assert (Hpar' : parent_of (heap_add (S (length h)) (length h) X) (S (length h)) = None).
  { rewrite parent_of_heap_add_other by (done || lia). unfold parent_of. by rewrite Hnd. }
  assert (Hadd : heap_add root (S (length h)) (heap_add (S (length h)) (length h) X)
                 = alter (set_children (fun l => l ++ [S (length h)])) root
                     (alter (set_parent (Some root)) (S (length h))
                        (alter (set_children (fun l => l ++ [length h])) (S (length h))
                           (alter (set_parent (Some (S (length h)))) (length h) X)))).
  { unfold heap_add at 1. rewrite Hpar'. unfold heap_add. by rewrite Hpar. }
  split; [|split; [|split; [|split]]].
  - rewrite Hadd. rewrite list_lookup_alter_ne by lia. rewrite list_lookup_alter_eq.
    rewrite list_lookup_alter_eq. rewrite list_lookup_alter_ne by lia. by rewrite Hnd.
  - rewrite Hadd. rewrite list_lookup_alter_ne by lia. rewrite list_lookup_alter_ne by lia.
    rewrite list_lookup_alter_ne by lia. rewrite list_lookup_alter_eq. by rewrite Hmk.
  - rewrite children_of_heap_add_exact; [|by rewrite length_heap_add; subst X;
                                            rewrite !length_app; simpl; lia|done].
    rewrite children_of_heap_add_other by (done || lia).
    subst X. by rewrite !children_of_app_l by (rewrite ?length_app; simpl; lia).
  - rewrite !length_heap_add. subst X. rewrite !length_app. simpl. lia.
  - subst X. unreleased.
Qed.

Section GridHosted.
Import OccupancyGridClient.
#[local] Arguments truthy : simpl never.
#[local] Arguments heap_add : simpl never.
#[local] Arguments heap_remove : simpl never.
#[local] Arguments Nat.eqb : simpl never.
#[local] Arguments is_subscribed : simpl never.
Implicit Types (s : St OccupancyGrid Client) (m : Msg).

(** The handler's last step, on any state. *)
Lemma grid_epilogue s :
  exists ts' r,
    (c <- this continuous ;; when (negb (truthy c)) rosTopic_unsubscribe) s = r /\
    final r = mkSt (heap s) ts' (console s) (emitted s) (self s) /\
    (is_Some (rosTopic (self s)) -> returned r = true).
Proof.
  destruct s as [h ts con em sf]. unfold rosTopic_unsubscribe. run.
  destruct (truthy (continuous sf)); simpl; [by do 2 eexists|].
  destruct (rosTopic sf) as [t|]; simpl.
  - match goal with
    | |- context [Topic_unsubscribe t ?s0] =>
        destruct (Topic_unsubscribe_spec t s0) as (ts' & -> & _)
    end.
    by do 2 eexists.
  - do 2 eexists. split; [done|]. split; [done|]. by intros [? ?].
Qed.

(** X12.  With a TF client the Scene Attachment node is reused.  On a grid
    client showing the grid [g] under the node [n], a message disposes [g]
    exactly once and detaches it from [n], builds a new grid and makes it
    the only child of the same node [n], which stays where it is and keeps
    its tracking; no other object's children or disposal count change; one
    object is created; 'change' is emitted once.  The handler returns when
    a topic is recorded. *)
Theorem grid_scene_node_reused s m n g :
  grid_hosted s n g ->
  let r := processMessage m s in
  let s' := final r in
  let g' := length (heap s) in
  (is_Some (rosTopic (self s)) -> returned r = true) /\
  grid_hosted s' n g' /\
  disposals (heap s') g = S (disposals (heap s) g) /\
  parent_of (heap s') g = None /\
  tracking (heap s') n = tracking (heap s) n /\
  (forall x, x <> n -> children_of (heap s') x = children_of (heap s) x) /\
  (forall x, x <> g -> disposals (heap s') x = disposals (heap s) x) /\
  length (heap s') = S (length (heap s)) /\
  emitted s' = emitted s ++ ["change"].
Proof.
  destruct s as [h ts con em [ros0 topicName0 compression0 cont tf root offsetPose0 col opa cg rt sn]].
  unfold grid_hosted. simpl.
  intros (Htf & -> & -> & (f & tf0 & p & b & par & d & Hn) & gr & dg & Hg).
  assert (Hne : n <> g) by (intros ->; congruence).
  assert (Hnlen : n < length h) by (by eapply lookup_lt_Some).
  assert (Hglen : g < length h) by (by eapply lookup_lt_Some).
  set (h0 := alter (set_children (splice_first g)) n (alter (set_parent None) g h)).
  set (h1 := alter count_dispose g h0).
  set (new := mkObj (Geometry (mkGrid m col opa)) None [] 0).
  set (h2 := alter (set_children (fun l => l ++ [length h])) n
               (alter (set_parent (Some n)) (length h) (h1 ++ [new]))).
  assert (Hrem : heap_remove n g h = h0).
  { unfold heap_remove, children_of. rewrite Hn.
    by rewrite bool_decide_eq_true_2 by (by apply list_elem_of_singleton). }
  assert (Hlen1 : length h1 = length h) by (subst h1 h0; by rewrite !length_alter).
  assert (Hnew : (h1 ++ [new]) !! length h = Some new).
  { rewrite <- Hlen1. by rewrite list_lookup_middle. }
  assert (Hadd : heap_add n (length h) (h1 ++ [new]) = h2).
  { unfold heap_add, parent_of. by rewrite Hnew. }
  set (sf' := mkClient ros0 topicName0 compression0 cont tf root offsetPose0 col opa
                (Some (length h)) rt (Some n)).
  assert (Hrun : exists ts' r,
             processMessage m (mkSt h ts con em
                (mkClient ros0 topicName0 compression0 cont tf root offsetPose0 col opa
                   (Some g) rt (Some n))) = r /\
             final r = mkSt h2 ts' con (em ++ ["change"]) sf' /\
             (is_Some rt -> returned r = true)).
  { unfold processMessage.
    destruct (grid_epilogue (mkSt h2 ts con (em ++ ["change"]) sf'))
      as (ts' & r & Hr & Hfin & Hret).
    exists ts', r. split; [|by split].
    rewrite <- Hr. unfold rosTopic_unsubscribe. run.
    unfold tfClient_of. rewrite Hg. simpl.
    run.
    unfold with_heap, with_self. simpl.
    rewrite Htf. simpl. run. rewrite Hrem. fold h1. rewrite Hlen1.
    rewrite (proj2 (Nat.eqb_neq n (length h))) by lia. simpl.
    fold new. rewrite Hadd. done. }
  destruct Hrun as (ts' & r & <- & -> & Hret). cbn [final heap self emitted].
  assert (Hl2 : length h2 = S (length h)).
  { subst h2. rewrite !length_alter, length_app, Hlen1. simpl. lia. }
  assert (Hn0 : h0 !! n = Some (mkObj (SceneNode f tf0 p b) par [] d)).
  { subst h0. rewrite list_lookup_alter_eq, list_lookup_alter_ne, Hn by done.
    simpl. unfold set_children. simpl. by rewrite Nat.eqb_refl. }
  assert (Hn2 : h2 !! n = Some (mkObj (SceneNode f tf0 p b) par [length h] d)).
  { subst h2. rewrite list_lookup_alter_eq, list_lookup_alter_ne by lia.
    rewrite lookup_app_l by lia. subst h1.
    by rewrite list_lookup_alter_ne, Hn0 by done. }
  assert (Hg2 : h2 !! g = Some (mkObj (Geometry gr) None [] (S dg))).
  { subst h2. rewrite !list_lookup_alter_ne by (done || lia).
    rewrite lookup_app_l by lia. subst h1 h0.
    rewrite list_lookup_alter_eq, list_lookup_alter_ne, list_lookup_alter_eq, Hg by done.
    done. }
  assert (HL2 : h2 !! length h = Some (mkObj (Geometry (mkGrid m col opa)) (Some n) [] 0)).
  { subst h2. rewrite list_lookup_alter_ne by lia.
    by rewrite list_lookup_alter_eq, Hnew. }
  split; [done|].
  split; [|split; [|split; [|split; [|split; [|split; [|split]]]]]].
  - split; [done|]. split; [done|]. split; [done|].
    split; [by do 6 eexists | by do 2 eexists].
  - unfold disposals. by rewrite Hg2, Hg.
  - unfold parent_of. by rewrite Hg2.
  - unfold tracking. by rewrite Hn2, Hn.
  - intros x Hx. subst h2. rewrite !children_of_fmap.
    rewrite list_lookup_alter_ne by done.
    rewrite lookup_alter_preserved by done.
    destruct (decide (x < length h)).
    + rewrite lookup_app_l by lia. subst h1 h0.
      rewrite lookup_alter_preserved by done.
      rewrite list_lookup_alter_ne by done.
      by rewrite lookup_alter_preserved by done.
    + destruct (decide (x = length h)) as [->|].
      * rewrite Hnew. by rewrite (lookup_ge_None_2 h) by lia.
      * rewrite !lookup_ge_None_2; [done | lia | rewrite length_app; simpl; lia].
  - intros x Hx. subst h2. rewrite !disposals_fmap.
    rewrite !lookup_alter_preserved by done.
    destruct (decide (x < length h)).
    + rewrite lookup_app_l by lia. subst h1 h0.
      rewrite list_lookup_alter_ne by done.
      by rewrite !lookup_alter_preserved by done.
    + destruct (decide (x = length h)) as [->|].
      * rewrite Hnew. by rewrite (lookup_ge_None_2 h) by lia.
      * rewrite !lookup_ge_None_2; [done | lia | rewrite length_app; simpl; lia].
  - exact Hl2.
  - done.
Qed.

(** X11.  The first grid with a TF client.  On a grid client with a truthy
    [tfClient], no grid yet, [sceneNode] null and an allocated root, a
    message builds the grid from the message and the client's colour and
    opacity, then a Scene Attachment node with the message's frame, the
    client's TF client and offset pose, which hosts the grid and tracks the
    frame; the node is appended to the root's children; 'change' is emitted
    once; nothing is released.  The handler returns when a topic is
    recorded. *)
Theorem grid_first_message_hosted s m :
  truthy (tfClient (self s)) = true ->
  currentGrid (self s) = None -> sceneNode (self s) = None ->
  rootObject (self s) < length (heap s) ->
  let r := processMessage m s in
  let s' := final r in
  let g' := length (heap s) in
  let n' := S (length (heap s)) in
  (is_Some (rosTopic (self s)) -> returned r = true) /\
  grid_hosted s' n' g' /\
  heap s' !! n'
  = Some (mkObj (SceneNode (VStr (frame_id (header m))) (tfClient (self s))
                   (offsetPose (self s)) true)
            (Some (rootObject (self s))) [g'] 0) /\
  heap s' !! g'
  = Some (mkObj (Geometry (mkGrid m (color (self s)) (opacity (self s)))) (Some n') [] 0) /\
  children_of (heap s') (rootObject (self s'))
  = children_of (heap s) (rootObject (self s)) ++ [n'] /\
  unreleased (heap s) (heap s') /\
  length (heap s') = S (S (length (heap s))) /\
  emitted s' = emitted s ++ ["change"].
Proof.
  destruct s as [h ts con em [ros0 topicName0 compression0 cont tf root offsetPose0 col opa cg rt sn]].
  simpl. intros Htf -> -> Hroot.
  set (bm := Geometry (mkGrid m col opa)).
  set (bn := SceneNode (VStr (frame_id (header m))) tf offsetPose0 true).
  destruct (hosted_pair h bm bn root Hroot) as (Hn & Hg & Hcs & Hlen & Hun).
  set (h2 := heap_add root (S (length h))
               (heap_add (S (length h)) (length h)
                  ((h ++ [mkObj bm None [] 0]) ++ [mkObj bn None [] 0]))) in *.
  set (sf' := mkClient ros0 topicName0 compression0 cont tf root offsetPose0 col opa
                (Some (length h)) rt (Some (S (length h)))).
  assert (Hrun : exists ts' r,
             processMessage m (mkSt h ts con em
                (mkClient ros0 topicName0 compression0 cont tf root offsetPose0 col opa
                   None rt None)) = r /\
             final r = mkSt h2 ts' con (em ++ ["change"]) sf' /\
             (is_Some rt -> returned r = true)).
  { unfold processMessage.
    destruct (grid_epilogue (mkSt h2 ts con (em ++ ["change"]) sf'))
      as (ts' & r & Hr & Hfin & Hret).
    exists ts', r. split; [|by split].
    rewrite <- Hr. unfold rosTopic_unsubscribe. run.
    rewrite Htf. simpl. run. unfold with_heap, with_self. simpl.
    rewrite !length_app. simpl.
    rewrite (proj2 (Nat.eqb_neq (length h + 1) (length h))) by lia. simpl.
    rewrite (proj2 (Nat.eqb_neq root (length h + 1))) by lia. simpl.
    replace (length h + 1) with (S (length h)) by lia. done. }
  destruct Hrun as (ts' & r & <- & -> & Hret). cbn [final heap self emitted rootObject].
  split; [done|]. split.
  { split; [done|]. split; [done|]. split; [done|].
    split; [by do 6 eexists | by do 2 eexists]. }
  done.
Qed.

(** With a grid displayed and [sceneNode] null, the handler throws before
    it builds anything, and leaves both as they are. *)
Lemma grid_stuck_step s m g :
  currentGrid (self s) = Some g -> sceneNode (self s) = None ->
  let r := processMessage m s in
  returned r = false /\
  currentGrid (self (final r)) = Some g /\ sceneNode (self (final r)) = None /\
  topics (final r) = topics s /\ emitted (final r) = emitted s /\
  length (heap (final r)) = length (heap s) /\
  (forall x, children_of (heap (final r)) x = children_of (heap s) x /\
             disposals (heap (final r)) x = disposals (heap s) x).
Proof.
  destruct s as [h ts con em [ros0 topicName0 compression0 cont tf root offsetPose0 col opa cg rt sn]].
  simpl. intros -> ->. unfold processMessage. run.
  destruct (truthy (tfClient_of h g)); simpl; [|done].
  rewrite length_alter. do 6 (split; [done|]). intros x.
  rewrite !children_of_fmap, !disposals_fmap.
  by rewrite !lookup_alter_preserved by (intros [[] ? ? ?]; done).
Qed.

End GridHosted.

Section GridResubscribed.
Import OccupancyGridClient.
#[local] Arguments is_subscribed : simpl never.
Implicit Types (s : St OccupancyGrid Client) (m : Msg).

(** X13.  Re-subscribing while a grid is shown stops the display for good.
    [subscribe()] resets [sceneNode] to null and keeps [currentGrid]; from
    then on every message delivered on the new topic throws (the old grid
    is to be removed from a null [sceneNode]) before anything is built:
    nothing is emitted, no object is created, attached, detached or
    disposed, and the topic stays subscribed, however many messages
    follow. *)
Theorem grid_stuck_after_resubscribe s g (ms : list Msg) :
  currentGrid (self s) = Some g ->
  let t := length (topics s) in
  let s' := foldl (fun s0 m => final (deliver t m s0)) (final (subscribe s)) ms in
  is_subscribed (topics s') t = true /\
  (forall m, returned (deliver t m s') = false) /\
  emitted s' = emitted s /\
  currentGrid (self s') = Some g /\ sceneNode (self s') = None /\
  length (heap s') = length (heap s) /\
  (forall x, children_of (heap s') x = children_of (heap s) x /\
             disposals (heap s') x = disposals (heap s) x).
Proof.
  intros Hcg t.
  destruct (grid_subscribe_runs s) as (ts1 & Hrun & Hlen & _).
  set (s1 := final (subscribe s)).
  assert (Hinv : is_subscribed (topics s1) t = true /\
                 emitted s1 = emitted s /\
                 currentGrid (self s1) = Some g /\ sceneNode (self s1) = None /\
                 length (heap s1) = length (heap s) /\
                 (forall x, children_of (heap s1) x = children_of (heap s) x /\
                            disposals (heap s1) x = disposals (heap s) x)).
  { subst s1 t. rewrite Hrun. cbn [final topics emitted self heap].
    rewrite <- Hlen at 1 2. rewrite is_subscribed_fresh, Nat.eqb_refl, orb_true_r.
    destruct (self s). simpl in *. by rewrite Hcg. }
  clearbody s1. clear Hrun. revert s1 Hinv.
  induction ms as [|m ms IH]; intros s1 (Hsub & Hem & Hg & Hsn & Hl & Hx); simpl.
  - split; [done|]. split; [|done].
    intros m. unfold deliver, transport_deliver. rewrite Hsub.
    by destruct (grid_stuck_step s1 m g Hg Hsn) as (-> & _).
  - apply IH. unfold deliver, transport_deliver. rewrite Hsub.
    destruct (grid_stuck_step s1 m g Hg Hsn) as (_ & Hg' & Hsn' & Hts' & Hem' & Hl' & Hx').
    rewrite Hts', Hem', Hl'. do 4 (split; [done|]). split; [done|].
    intros x. destruct (Hx' x) as [-> ->]. apply Hx.
Qed.

End GridResubscribed.

(** A fresh continuous grid client with a TF client takes its first
    message. *)
Lemma grid_first_message_hosted_witness :
  let o := with_continuous (VBool true)
             (with_tfClient Samples.tf_handle Samples.plain_options) in
  let s := final (OccupancyGridClient.constructor o []) in
  let s' := final (OccupancyGridClient.processMessage Samples.grid_message s) in
  grid_hosted s' 2 1 /\ children_of (heap s') 0 = [2] /\ emitted s' = ["change"].
Proof.
  intros o s s'.
  destruct (grid_first_message_hosted s Samples.grid_message)
    as (_ & Hh & _ & _ & Hcs & _ & _ & Hem).
  - reflexivity.
  - reflexivity.
  - reflexivity.
  - vm_compute. lia.
  - split; [exact Hh|]. split; [exact Hcs | exact Hem].
Defined.

(** The second message of a continuous grid client with a TF client. *)
Lemma grid_scene_node_reused_witness :
  let o := with_continuous (VBool true)
             (with_tfClient Samples.tf_handle Samples.plain_options) in
  let s := final (OccupancyGridClient.processMessage Samples.grid_message
                    (final (OccupancyGridClient.constructor o []))) in
  let s' := final (OccupancyGridClient.processMessage Samples.grid_message s) in
  grid_hosted s' 2 3 /\ disposals (heap s') 1 = 1 /\ children_of (heap s') 0 = [2].
Proof.
  intros o s s'.
  destruct (grid_scene_node_reused s Samples.grid_message 2 1)
    as (_ & Hh & Hd & _ & _ & Hcs & _).
  - split; [reflexivity|]. split; [reflexivity|]. split; [reflexivity|].
    split; [do 6 eexists; reflexivity | do 2 eexists; reflexivity].
  - split; [exact Hh|]. split; [exact Hd|]. exact (Hcs 0 ltac:(lia)).
Defined.

(** A continuous grid client that showed one grid and re-subscribed: both
    further messages throw. *)
Lemma grid_stuck_after_resubscribe_witness :
  let o := with_continuous (VBool true) Samples.plain_options in
  let s := final (OccupancyGridClient.deliver 0 Samples.grid_message
                    (final (OccupancyGridClient.constructor o []))) in
  let s' := foldl (fun s0 m => final (OccupancyGridClient.deliver 1 m s0))
              (final (OccupancyGridClient.subscribe s))
              [Samples.grid_message; Samples.grid_message] in
  emitted s' = ["change"] /\
  returned (OccupancyGridClient.deliver 1 Samples.grid_message s') = false.
Proof.
  intros o s s'.
  destruct (grid_stuck_after_resubscribe s 1 [Samples.grid_message; Samples.grid_message])
    as (_ & Hthrow & Hem & _).
  - reflexivity.
  - split; [exact Hem | apply Hthrow].
Defined.

(** * The octree client: what the root shows *)

Lemma parent_of_heap_remove_other {G} p c (h : list (Obj G)) x :
  x <> c -> parent_of (heap_remove p c h) x = parent_of h x.
Proof.
  intros Hx. unfold heap_remove. case_bool_decide; [|done].
  rewrite !parent_of_fmap, lookup_alter_preserved by done.
  by rewrite list_lookup_alter_ne.
Qed.

(** Replacing the root's only child [old] (if any) by [n]. *)
Lemma root_child_replaced {G} (h : list (Obj G)) (root n : ObjId) (old : option ObjId) :
  root < length h -> root <> n ->
  parent_of h n = None ->
  (forall o, old = Some o -> o <> n) ->
  children_of h root = match old with Some o => [o] | None => [] end ->
  children_of (heap_add root n (match old with Some o => heap_remove root o h | None => h end))
    root = [n].
Proof.
  intros Hroot Hne Hpar Hold Hcs.
  rewrite children_of_heap_add_exact.
  - destruct old as [o|]; [|by rewrite Hcs].
    rewrite children_of_heap_remove, Hcs. simpl. by rewrite Nat.eqb_refl.
  - destruct old; by rewrite ?length_heap_remove.
  - destruct old as [o|]; [|done].
    rewrite parent_of_heap_remove_other; [done|]. intros E. by apply (Hold o eq_refl).
Qed.

Lemma parent_of_heap_add_same {G} p c (h : list (Obj G)) :
  c < length h -> parent_of (heap_add p c h) c = Some p.
Proof.
  intros Hc. unfold heap_add.
  set (h1 := match parent_of h c with Some q => heap_remove q c h | None => h end).
  assert (Hlen : length h1 = length h)
    by (subst h1; destruct (parent_of h c); by rewrite ?length_heap_remove).
  rewrite parent_of_fmap, lookup_alter_preserved by done.
  rewrite list_lookup_alter_eq.
  destruct (lookup_lt_is_Some_2 h1 c) as [o ->]; [lia | done].
Qed.

Lemma lookup_heap_remove_other {G} p c (h : list (Obj G)) j :
  j <> p -> j <> c -> heap_remove p c h !! j = h !! j.
Proof.
  intros Hp Hc. unfold heap_remove. case_bool_decide; [|done].
  by rewrite !list_lookup_alter_ne.
Qed.

Section OcTreeShown.
Context `{OcTreeDecoder}.
Import OcTreeClient.
#[local] Arguments truthy : simpl never.
#[local] Arguments heap_add : simpl never.
#[local] Arguments heap_remove : simpl never.
#[local] Arguments Nat.eqb : simpl never.
#[local] Arguments is_subscribed : simpl never.
#[local] Arguments Js.in_ : simpl never.
#[local] Arguments Js.assign : simpl never.
#[local] Arguments Js.get : simpl never.
Implicit Types (s : St Voxels Client) (m : Msg).

(** The callback of [then], on a tree whose renderable was just built. *)
Lemma install_shown tree msg s :
  rootObject (self s) < length (heap s) ->
  object tree < length (heap s) ->
  object tree <> rootObject (self s) ->
  parent_of (heap s) (object tree) = None ->
  (forall n, sceneNode (self s) = Some n -> n < length (heap s) /\ n <> object tree) ->
  children_of (heap s) (rootObject (self s))
  = match sceneNode (self s) with Some n => [n] | None => [] end ->
  let n' := if truthy (tfClient (self s)) then length (heap s) else object tree in
  exists s',
    install tree msg s = Ok tt s' /\
    currentMap (self s') = Some tree /\
    sceneNode (self s') = Some n' /\
    rootObject (self s') = rootObject (self s) /\
    microtasks (self s') = microtasks (self s) /\
    children_of (heap s') (rootObject (self s)) = [n'] /\
    parent_of (heap s') n' = Some (rootObject (self s)) /\
    (truthy (tfClient (self s)) = true ->
     heap s' !! n'
     = Some (mkObj (SceneNode (VStr (frame_id (header msg))) (tfClient (self s))
                      (offsetPose (self s)) true)
               (Some (rootObject (self s))) [object tree] 0)) /\
    length (heap s') = (if truthy (tfClient (self s)) then S (length (heap s))
                        else length (heap s)) /\
    (forall j, j < length (heap s) ->
               renderable <$> heap s' !! j = renderable <$> heap s !! j) /\
    topics s' = topics s /\
    emitted s' = emitted s ++ ["change"].
Proof.
  destruct s as [h ts con em [ros0 tn0 cmp0 cont tf root pose opts cm rt sn mt]].
  simpl. intros Hroot Hobj Hne Hpar Hsn Hcs.
  unfold install. run.
  destruct (truthy tf) eqn:Htf; simpl; run.
  - rewrite (proj2 (Nat.eqb_neq (length h) (object tree))) by lia. simpl.
    unfold with_heap, with_self. simpl.
    set (node := mkObj (SceneNode (VStr (frame_id (header msg))) tf pose true) None [] 0).
    set (Y := heap_add (length h) (object tree) (h ++ [node])).
    assert (HparY0 : parent_of (h ++ [node]) (object tree) = None).
    { unfold parent_of in *. by rewrite lookup_app_l. }
    assert (HY : Y = alter (set_children (fun l => l ++ [object tree])) (length h)
                       (alter (set_parent (Some (length h))) (object tree) (h ++ [node]))).
    { subst Y. unfold heap_add. by rewrite HparY0. }
    assert (HYL : Y !! length h
                  = Some (mkObj (SceneNode (VStr (frame_id (header msg))) tf pose true)
                            None [object tree] 0)).
    { rewrite HY, list_lookup_alter_eq, list_lookup_alter_ne by lia.
      by rewrite list_lookup_middle. }
    assert (HlenY : length Y = S (length h)).
    { subst Y. rewrite length_heap_add, length_app. simpl. lia. }
    assert (HparY : parent_of Y (length h) = None) by (unfold parent_of; by rewrite HYL).
    assert (HcsY : children_of Y root = match sn with Some n => [n] | None => [] end).
    { subst Y. rewrite children_of_heap_add_other by (done || lia).
      by rewrite children_of_app_l. }
    set (X := match sn with Some o => heap_remove root o Y | None => Y end).
    assert (HlenX : length X = S (length h)).
    { subst X. destruct sn; by rewrite ?length_heap_remove. }
    assert (HparX : parent_of X (length h) = None).
    { subst X. destruct sn as [o|] eqn:Eo; [|done].
      rewrite parent_of_heap_remove_other; [done|].
      destruct (Hsn o eq_refl). lia. }
    assert (HXL : X !! length h = Y !! length h).
    { subst X. destruct sn as [o|] eqn:Eo; [|done].
      apply lookup_heap_remove_other; [lia|]. destruct (Hsn o eq_refl). lia. }
    exists (mkSt (heap_add root (length h) X) ts con (em ++ ["change"])
              (set_sceneNode (Some (length h))
                 (set_currentMap (Some tree)
                    (mkClient ros0 tn0 cmp0 cont tf root pose opts cm rt sn mt)))).
    split.
    { subst X. destruct sn as [o|]; simpl;
        rewrite (proj2 (Nat.eqb_neq root (length h))) by lia; done. }
    simpl. do 4 (split; [done|]).
    split.
    { subst X. apply root_child_replaced; try done; try lia.
      intros o Eo. destruct (Hsn o Eo). lia. }
    split; [apply parent_of_heap_add_same; lia|].
    split.
    { intros _. unfold heap_add. rewrite HparX.
      rewrite list_lookup_alter_ne by lia.
      by rewrite list_lookup_alter_eq, HXL, HYL. }
    split; [by rewrite length_heap_add|].
    split; [|done].
    intros j Hj. rewrite heap_add_preserved by done.
    subst X. assert (HYj : renderable <$> Y !! j = renderable <$> h !! j).
    { subst Y. rewrite heap_add_preserved by done. by rewrite lookup_app_l. }
    destruct sn; [by rewrite heap_remove_preserved|done].
  - set (X := match sn with Some o => heap_remove root o h | None => h end).
    assert (HlenX : length X = length h).
    { subst X. destruct sn; by rewrite ?length_heap_remove. }
    exists (mkSt (heap_add root (object tree) X) ts con (em ++ ["change"])
              (set_currentMap (Some tree)
                 (set_sceneNode (Some (object tree))
                    (mkClient ros0 tn0 cmp0 cont tf root pose opts cm rt sn mt)))).
    split.
    { subst X. unfold with_heap, with_self. destruct sn as [o|]; simpl;
        rewrite (proj2 (Nat.eqb_neq root (object tree))) by lia; done. }
    simpl. do 4 (split; [done|]).
    split.
    { subst X. apply root_child_replaced; try done; try lia.
      intros o Eo. by destruct (Hsn o Eo). }
    split; [apply parent_of_heap_add_same; lia|].
    split; [done|].
    split; [by rewrite length_heap_add|].
    split; [|done].
    intros j Hj. rewrite heap_add_preserved by done.
    subst X. destruct sn; [by rewrite heap_remove_preserved|done].
Qed.

(** What the executor of [_loadOcTree] does with a message whose tree
    class is [cls]. *)
Lemma executor_reads s m cls :
  (binary m = true /\ cls = OcTreeBase) \/
  (binary m = false /\ Js.get (id m) ctorTable = Some cls) ->
  let v := mkVoxels cls (Js.assign [("resolution", resolution m)] (options (self s)))
             (data m) in
  exists con',
    executor m s
    = if decodes cls (data m)
      then Ok (mkTree v (length (heap s)))
             (mkSt (heap s ++ [mkObj (Geometry v) None [] 0]) (topics s) con' (emitted s)
                (self s))
      else Throw "Error: the payload cannot be read"
             (mkSt (heap s) (topics s) con' (emitted s) (self s)).
Proof.
  destruct s as [h ts con em sf]. simpl.
  intros [[Hb ->]|[Hb Hk]]; unfold executor, construct_and_read; run; rewrite Hb.
  - destruct (decodes OcTreeBase (data m)); simpl; by eexists.
  - assert (Hin : Js.in_ (id m) ctorTable = true)
      by (unfold Js.in_, Js.has; by rewrite Hk).
    rewrite Hin, Hk. simpl.
    destruct (decodes cls (data m)); simpl; by eexists.
Qed.

Lemma executor_cases s m :
  (exists e con',
     executor m s = Throw e (mkSt (heap s) (topics s) con' (emitted s) (self s))) \/
  (exists v con',
     executor m s
     = Ok (mkTree v (length (heap s)))
         (mkSt (heap s ++ [mkObj (Geometry v) None [] 0]) (topics s) con' (emitted s)
            (self s))).
Proof.
  destruct (binary m) eqn:Hb.
  - destruct (executor_reads s m OcTreeBase) as (con' & ->); [by left|].
    destruct (decodes OcTreeBase (data m)); [right | left]; by do 2 eexists.
  - destruct (Js.get (id m) ctorTable) as [cls|] eqn:Hk.
    + destruct (executor_reads s m cls) as (con' & ->); [by right|].
      destruct (decodes cls (data m)); [right | left]; by do 2 eexists.
    + left. by apply executor_unknown.
Qed.

(** The handler around the executor: nothing pending is run, the tree (if
    one was read) is queued for its install, and the topic may be torn
    down. *)
Lemma handler_after_executor s m :
  exists ts',
    final (processMessage m s)
    = match executor m s with
      | Ok tree s1 =>
          mkSt (heap s1) ts' (console s1) (emitted s1)
            (set_microtasks (fun q => q ++ [(tree, m)]) (self s1))
      | Throw _ s1 => mkSt (heap s1) ts' (console s1) (emitted s1) (self s1)
      end.
Proof.
  unfold processMessage, _processMessagePrivate, _loadOcTree, new_Promise, Tree_tfClient.
  assert (Hguard : forall s0 : St Voxels Client,
             match currentMap (self s0) with
             | Some _ => when (truthy VUndefined)
                           (throw "TypeError: this.currentMap.unsubscribeTf is not a function")
             | None => ret tt
             end s0 = Ok tt s0).
  { intros s0. by destruct (currentMap (self s0)). }
  unfold bind at 1. unfold this at 1. unfold gets at 1.
  unfold bind at 1. rewrite Hguard.
  unfold bind at 1. unfold bind at 1.
  destruct (executor_cases s m) as [(e & con' & ->)|(v & con' & ->)];
    destruct s as [h ts con em sf]; simpl;
    unfold rosTopic_unsubscribe; run.
  - destruct (truthy (continuous sf)); simpl; [by eexists|].
    destruct (rosTopic sf) as [t|]; simpl; [|by eexists].
    match goal with
    | |- context [Topic_unsubscribe t ?s0] =>
        destruct (Topic_unsubscribe_spec t s0) as (ts' & -> & _)
    end.
    by eexists.
  - assert (Hc : continuous (set_microtasks (fun q => q ++ [(mkTree v (length h), m)]) sf)
                 = continuous sf) by (by destruct sf).
    assert (Hr : rosTopic (set_microtasks (fun q => q ++ [(mkTree v (length h), m)]) sf)
                 = rosTopic sf) by (by destruct sf).
    unfold with_self. simpl. rewrite ?Hc.
    destruct (truthy (continuous sf)); simpl; [by eexists|].
    rewrite ?Hr.
    destruct (rosTopic sf) as [t|]; simpl; [|by eexists].
    match goal with
    | |- context [Topic_unsubscribe t ?s0] =>
        destruct (Topic_unsubscribe_spec t s0) as (ts' & -> & _)
    end.
    by eexists.
Qed.

(** The handler returns whatever the executor did, as long as a topic is
    recorded: what the executor throws only rejects the promise. *)
Lemma handler_returns s m :
  is_Some (rosTopic (self s)) -> returned (processMessage m s) = true.
Proof.
  unfold processMessage, _processMessagePrivate, _loadOcTree, new_Promise, Tree_tfClient.
  assert (Hguard : forall s0 : St Voxels Client,
             match currentMap (self s0) with
             | Some _ => when (truthy VUndefined)
                           (throw "TypeError: this.currentMap.unsubscribeTf is not a function")
             | None => ret tt
             end s0 = Ok tt s0).
  { intros s0. by destruct (currentMap (self s0)). }
  unfold bind at 1. unfold this at 1. unfold gets at 1.
  unfold bind at 1. rewrite Hguard.
  unfold bind at 1. unfold bind at 1.
  destruct (executor_cases s m) as [(e & con' & ->)|(v & con' & ->)];
    destruct s as [h ts con em sf]; simpl;
    unfold rosTopic_unsubscribe; run.
  - destruct (truthy (continuous sf)); simpl; [done|].
    destruct (rosTopic sf) as [t|]; simpl; [|by intros [? ?]].
    match goal with
    | |- context [Topic_unsubscribe t ?s0] =>
        destruct (Topic_unsubscribe_spec t s0) as (ts' & -> & _)
    end.
    done.
  - assert (Hc : continuous (set_microtasks (fun q => q ++ [(mkTree v (length h), m)]) sf)
                 = continuous sf) by (by destruct sf).
    assert (Hr : rosTopic (set_microtasks (fun q => q ++ [(mkTree v (length h), m)]) sf)
                 = rosTopic sf) by (by destruct sf).
    unfold with_self. simpl. rewrite ?Hc.
    destruct (truthy (continuous sf)); simpl; [done|].
    rewrite ?Hr.
    destruct (rosTopic sf) as [t|]; simpl; [|by intros [? ?]].
    match goal with
    | |- context [Topic_unsubscribe t ?s0] =>
        destruct (Topic_unsubscribe_spec t s0) as (ts' & -> & _)
    end.
    done.
Qed.

Lemma octree_deliver_outcome t m s :
  octree_shown s -> is_subscribed (topics s) t = true ->
  let s' := final (deliver t m s) in
  match executor m s with
  | Throw _ _ => heap s' = heap s /\ self s' = self s /\ emitted s' = emitted s
  | Ok tree _ =>
      let n' := if truthy (tfClient (self s)) then S (length (heap s))
                else length (heap s) in
      currentMap (self s') = Some tree /\
      sceneNode (self s') = Some n' /\
      children_of (heap s') (rootObject (self s')) = [n'] /\
      parent_of (heap s') n' = Some (rootObject (self s)) /\
      (truthy (tfClient (self s)) = true ->
       heap s' !! n'
       = Some (mkObj (SceneNode (VStr (frame_id (header m))) (tfClient (self s))
                        (offsetPose (self s)) true)
                 (Some (rootObject (self s))) [length (heap s)] 0)) /\
      length (heap s') = S n' /\
      renderable <$> heap s' !! length (heap s) = Some (Some (voxels tree)) /\
      emitted s' = emitted s ++ ["change"] /\
      octree_shown s'
  end.
Proof.
  intros (Hroot & Hmt & Hcs & Hsn) Hsub.
  unfold deliver, transport_deliver. rewrite Hsub.
  destruct (handler_after_executor s m) as (ts' & ->).
  destruct (executor_cases s m) as [(e & con' & ->)|(v & con' & ->)].
  - by rewrite run_microtasks_idle.
  - destruct s as [h ts con em [ros0 tn0 cmp0 cont tf root pose opts cm rt sn mt]].
    simpl in *. subst mt.
    unfold run_microtasks. run. run.
    set (tree := mkTree v (length h)).
    match goal with
    | |- context [install tree m ?s0] =>
        destruct (install_shown tree m s0)
          as (s' & -> & Hcm & Hsn' & Hr & Hq & Hcs' & Hpar' & Hnode & Hlen & Hrend & Hts & Hem)
    end; simpl.
    + rewrite length_app. simpl. lia.
    + rewrite length_app. simpl. lia.
    + lia.
    + unfold parent_of. by rewrite list_lookup_middle.
    + intros n Hn. pose proof (Hsn n Hn). rewrite length_app. simpl. lia.
    + by rewrite children_of_app_l.
    + simpl in *. rewrite length_app in *. simpl in *.
      replace (length h + 1) with (S (length h)) in * by lia.
      rewrite Hr. split; [done|]. split; [exact Hsn'|]. split; [exact Hcs'|].
      split; [exact Hpar'|]. split; [exact Hnode|].
      split; [by destruct (truthy tf)|].
      split; [rewrite Hrend by lia; by rewrite list_lookup_middle|].
      split; [done|].
      unfold octree_shown. rewrite Hr, Hq, Hsn', Hcs', Hlen.
      split; [destruct (truthy tf); lia|]. split; [done|]. split; [done|].
      intros n [= <-]. destruct (truthy tf); lia.
Qed.

Lemma octree_shown_same s s' :
  heap s' = heap s -> rootObject (self s') = rootObject (self s) ->
  microtasks (self s') = microtasks (self s) -> sceneNode (self s') = sceneNode (self s) ->
  octree_shown s -> octree_shown s'.
Proof. unfold octree_shown. by intros -> -> -> ->. Qed.

Lemma octree_shown_deliver t m s : octree_shown s -> octree_shown (final (deliver t m s)).
Proof.
  intros Hs. destruct (is_subscribed (topics s) t) eqn:Hsub.
  - pose proof (octree_deliver_outcome t m s Hs Hsub) as Hout.
    destruct (executor m s) as [tree s1|e s1].
    + apply Hout.
    + destruct Hout as (Hh & Hsf & _). apply (octree_shown_same s); by rewrite ?Hsf.
  - unfold deliver, transport_deliver. rewrite Hsub. simpl.
    destruct Hs as (? & Hmt & ?). by rewrite run_microtasks_idle.
Qed.

Lemma octree_shown_constructor (o : Options.t) scene :
  Options.rootObject o = None -> octree_shown (final (constructor o scene)).
Proof.
  intros Ho. unfold constructor, root_or_new. rewrite Ho.
  match goal with
  | |- context [subscribe ?s0] => destruct (octree_subscribe_runs s0) as (ts1 & -> & _)
  end.
  unfold octree_shown. simpl. rewrite length_app. simpl.
  split; [lia|]. split; [done|]. split; [|done].
  unfold children_of. by rewrite list_lookup_middle.
Qed.


(** X16.  An unreadable payload is dropped silently.  When the selected
    tree class cannot read the payload, the promise of [_loadOcTree] is
    rejected with the reader's error and no object was created; the
    handler itself still returns (a topic being recorded), and after the
    delivery the scene, the client's fields and the emitted events are
    what they were: nobody is told. *)
Theorem octree_unreadable_message_dropped s t m cls :
  microtasks (self s) = [] ->
  (binary m = true /\ cls = OcTreeBase) \/
  (binary m = false /\ Js.get (id m) ctorTable = Some cls) ->
  decodes cls (data m) = false ->
  (exists s1, _loadOcTree m s = Ok (Rejected "Error: the payload cannot be read") s1 /\
     heap s1 = heap s /\ self s1 = self s) /\
  (is_Some (rosTopic (self s)) -> returned (processMessage m s) = true) /\
  (let s' := final (deliver t m s) in
   heap s' = heap s /\ self s' = self s /\ emitted s' = emitted s).
Proof.
  intros Hmt Hcls Hdec.
  destruct (executor_reads s m cls Hcls) as (con' & E). rewrite Hdec in E.
  split; [|split; [apply handler_returns|]].
  - unfold _loadOcTree, new_Promise. rewrite E. by eexists.
  - unfold deliver, transport_deliver.
    destruct (is_subscribed (topics s) t); simpl; [|by rewrite run_microtasks_idle].
    destruct (handler_after_executor s m) as (ts' & ->). rewrite E.
    by rewrite run_microtasks_idle.
Qed.

End OcTreeShown.

(** X14.  The root of an octree client shows the current map and nothing
    else.  A client constructed without a [rootObject] option starts with
    an allocated, childless root and no install pending.  From any state in
    which the root's children are exactly the client's [sceneNode] (none
    when null) and no install is pending, the delivery of any message on
    any topic, [subscribe()] and [unsubscribe()] lead to such a state
    again: replaced nodes never pile up under the root. *)
Theorem octree_root_shows_current_node (D : OcTreeDecoder) :
  (forall o scene, Options.rootObject o = None ->
     octree_shown (final (OcTreeClient.constructor o scene))) /\
  (forall s, octree_shown s ->
     (forall t m, octree_shown (final (OcTreeClient.deliver t m s))) /\
     octree_shown (final (OcTreeClient.subscribe s)) /\
     octree_shown (final (OcTreeClient.unsubscribe s))).
Proof.
  split; [apply octree_shown_constructor|].
  intros s Hs. split; [intros t m; by apply octree_shown_deliver|]. split.
  - destruct (octree_subscribe_runs s) as (ts1 & -> & _).
    apply (octree_shown_same s); try done; by destruct (self s).
  - change (OcTreeClient.unsubscribe)
      with (unsubscribe_of (G := OcTreeClient.Voxels) OcTreeClient.rosTopic).
    destruct (unsubscribe_of_runs OcTreeClient.rosTopic s) as (ts1 & -> & _).
    by apply (octree_shown_same s).
Qed.


(** An unreadable 'OcTree' message on a fresh client. *)
Lemma octree_unreadable_message_dropped_witness :
  let s := final (OcTreeClient.constructor Samples.plain_options []) in
  let m := Samples.octree_message false "OcTree" in
  let s' := final (OcTreeClient.deliver (H := rejecting) 0 m s) in
  returned (OcTreeClient.processMessage (H := rejecting) m s) = true /\
  heap s' = heap s /\ emitted s' = [].
Proof.
  intros s m s'.
  destruct (octree_unreadable_message_dropped (H := rejecting) s 0 m OcTree)
    as (_ & Hret & Hh & _ & Hem).
  - reflexivity.
  - right. split; reflexivity.
  - reflexivity.
  - split; [apply Hret; by eexists|]. split; [exact Hh | exact Hem].
Defined.

(** * MarkerArrayClient: directives that are not acted on *)

Section MarkerWarnings.
Context `{MarkerBuilder}.
Import MarkerArrayClient.
Implicit Types (s : St MarkerState Client) (m : MarkerMsg).

Lemma processMarker_warns s m :
  action m <> 0%Z -> action m <> 2%Z -> action m <> 3%Z ->
  exists line,
    processMarker m s
    = Ok tt (mkSt (heap s) (topics s) (console s ++ [line]) (emitted s) (self s)).
Proof.
  intros H0 H2 H3. unfold processMarker.
  rewrite (proj2 (Z.eqb_neq _ _) H0), (proj2 (Z.eqb_neq _ _) H2), (proj2 (Z.eqb_neq _ _) H3).
  destruct (action m =? 1)%Z; by eexists.
Qed.

Lemma forEach_warns (batch : list MarkerMsg) s :
  Forall (fun m => action m <> 0%Z /\ action m <> 2%Z /\ action m <> 3%Z) batch ->
  exists lines,
    length lines = length batch /\
    forEach batch processMarker s
    = Ok tt (mkSt (heap s) (topics s) (console s ++ lines) (emitted s) (self s)).
Proof.
  intros Hall. revert s. induction Hall as [|m batch (H0 & H2 & H3) _ IH]; intros s.
  - exists []. split; [done|]. rewrite app_nil_r. by destruct s.
  - destruct (processMarker_warns s m H0 H2 H3) as (line & E).
    simpl. unfold bind. rewrite E.
    destruct (IH (mkSt (heap s) (topics s) (console s ++ [line]) (emitted s) (self s)))
      as (lines & Hlen & ->).
    exists (line :: lines). split; [simpl; by rewrite Hlen|].
    simpl. by rewrite <- app_assoc.
Qed.

End MarkerWarnings.

(** X8.  Directives with an action other than 0, 2 and 3 are not acted on.
    A batch made of such directives (the deprecated action 1 among them)
    returns normally, writes one console line per directive and emits its
    'change'; the scene, the Registry and the other fields of the client,
    and the topics are untouched. *)
Theorem unhandled_actions_only_warn (B : MarkerBuilder)
    (s : St MarkerState MarkerArrayClient.Client) (batch : list MarkerMsg) :
  Forall (fun m => action m <> 0%Z /\ action m <> 2%Z /\ action m <> 3%Z) batch ->
  exists lines,
    length lines = length batch /\
    MarkerArrayClient.processMessage batch s
    = Ok tt (mkSt (heap s) (topics s) (console s ++ lines) (emitted s ++ ["change"]) (self s)).
Proof.
  intros Hall. destruct (forEach_warns batch s Hall) as (lines & Hlen & E).
  exists lines. split; [done|].
  unfold MarkerArrayClient.processMessage, bind. by rewrite E.
Qed.

(** A deprecated and an unknown action on the client that shows ['a', 1]. *)
Lemma unhandled_actions_only_warn_witness :
  let s := final (MarkerArrayClient.processMessage (H := Samples.rebuilding)
                    [Samples.marker "a" 1 0]
                    (final (MarkerArrayClient.constructor Samples.marker_options []))) in
  let s' := final (MarkerArrayClient.processMessage
                     [Samples.marker "a" 1 1; Samples.marker "a" 1 7] s) in
  heap s' = heap s /\ self s' = self s /\ length (console s') = 2.
Proof.
  intros s s'.
  destruct (unhandled_actions_only_warn Samples.rebuilding s
              [Samples.marker "a" 1 1; Samples.marker "a" 1 7])
    as (lines & Hlen & E).
  - repeat constructor; simpl; lia.
  - subst s'. rewrite E. cbn [final heap self console].
    split; [done|]. split; [done|]. rewrite length_app, Hlen. reflexivity.
Defined.

(** * OcTreeClient: the options a tree is built with *)

Section TreeOptions.
#[local] Arguments defined : simpl never.

(** The options of the tree built from a message with resolution [r] on a
    client constructed from [o]. *)
Lemma tree_options_lookup (o : Options.t) (r : Val) (k : string) :
  let opts := Js.assign [("resolution", r)] (OcTreeClient.converter_options o) in
  let set_or_none v v' := if defined v then Some v' else None in
  Js.get k opts
  = if String.eqb k "resolution" then Some r
    else if String.eqb k "color" then set_or_none (Options.color o) (Options.color o)
    else if String.eqb k "opacity" then set_or_none (Options.opacity o) (Options.opacity o)
    else if String.eqb k "colorMode"
         then set_or_none (Options.colorMode o) (Options.colorMode o)
    else if String.eqb k "palette" then set_or_none (Options.palette o) (Options.palette o)
    else if String.eqb k "paletteScale"
         then set_or_none (Options.paletteScale o) (Options.palette o)
    else if String.eqb k "voxelRenderMode"
         then set_or_none (Options.voxelRenderMode o) (Options.voxelRenderMode o)
    else None.
Proof.
  unfold OcTreeClient.converter_options, OcTreeClient.append_when_set.
  destruct (defined (Options.color o)), (defined (Options.opacity o)),
    (defined (Options.colorMode o)), (defined (Options.palette o)),
    (defined (Options.paletteScale o)), (defined (Options.voxelRenderMode o));
    cbn;
    repeat match goal with
           | |- context [String.eqb k ?l] => destruct (String.eqb_spec k l) as [->|?]
           end; try done.
Qed.

End TreeOptions.

(** X17.  What a tree is built with.  On a client constructed from the
    option object [o], the tree for a message with resolution [r] gets
    [resolution: r], which no option can override, and [color] and
    [opacity] exactly when the caller defined them, with the caller's value
    even when it is falsy (an opacity of 0 stays 0); no key other than
    these and the four hint keys is passed. *)
Theorem octree_options_forwarded (o : Options.t) (r : Val) :
  let opts := Js.assign [("resolution", r)] (OcTreeClient.converter_options o) in
  (forall scene,
     OcTreeClient.options (self (final (OcTreeClient.constructor o scene)))
     = OcTreeClient.converter_options o) /\
  Js.get "resolution" opts = Some r /\
  Js.get "color" opts = (if defined (Options.color o) then Some (Options.color o) else None) /\
  Js.get "opacity" opts
  = (if defined (Options.opacity o) then Some (Options.opacity o) else None) /\
  (Options.opacity o = VNum 0 -> Js.get "opacity" opts = Some (VNum 0)) /\
  (forall k,
     k ∉ ["resolution"; "color"; "opacity"; "colorMode"; "palette"; "paletteScale";
          "voxelRenderMode"] ->
     Js.get k opts = None).
Proof.
  intros opts. split; [|split; [|split; [|split; [|split]]]].
  - intros scene. unfold OcTreeClient.constructor.
    destruct (root_or_new o scene) as [root scene'].
    match goal with
    | |- context [OcTreeClient.subscribe ?s0] =>
        destruct (octree_subscribe_runs s0) as (ts1 & -> & _)
    end.
    done.
  - subst opts. by rewrite tree_options_lookup.
  - subst opts. by rewrite tree_options_lookup.
  - subst opts. by rewrite tree_options_lookup.
  - intros Hop. subst opts. rewrite tree_options_lookup. simpl. by rewrite Hop.
  - intros k Hk. subst opts. rewrite tree_options_lookup.
    repeat match goal with
           | |- context [String.eqb k ?l] =>
               destruct (String.eqb_spec k l) as [->|?];
               [exfalso; apply Hk; apply (bool_decide_unpack _); vm_compute; exact I|]
           end.
    done.
Qed.
